(** * img-router: a shallow embedding of the gateway's core

    The development follows the TypeScript service (main file plus
    [config.ts]): the credential router [detectProvider], the transcript
    scanner [extractPromptAndImages], the four provider handlers and the
    dispatcher [handleChatCompletions].

    Conventions.
    - A JavaScript string is the list of its UTF-16 code units
      ([jsstring := list N]); [startsWith], [substring], [trim], [split]
      and [includes] are written on that representation.
    - Regular-expression literals are kept as syntax trees and run by a
      small backtracking matcher that follows the ECMAScript evaluation
      order (greedy and lazy quantifiers, ordered alternation, leftmost
      match, [lastIndex] iteration for [matchAll]).
    - Effects (logging, sleeping, outbound HTTP) are threaded through a
      small trace-and-exception monad; what the network answers is given
      by oracles that are section variables.
    - A JSON text is given by the value it denotes; [JSON_stringify] is
      [JSON.stringify] on values (a Number that is not finite becomes
      [null]). *)

From Stdlib Require Import Ascii String.
From Stdlib Require Import List NArith ZArith Bool Lia Arith.
From Stdlib Require Import Floats.SpecFloat.
Import ListNotations.

Set Implicit Arguments.

(* ================================================================== *)
(** * JavaScript strings *)
(* ================================================================== *)

Module Js.

Definition jsstring := list N.

(** An ASCII literal as a JavaScript string. *)
Definition js (s : string) : jsstring :=
  map N_of_ascii (list_ascii_of_string s).

Definition jsstring_eqb (a b : jsstring) : bool :=
  if list_eq_dec N.eq_dec a b then true else false.

(** [s.startsWith(p)] *)
Fixpoint startsWith (p s : jsstring) : bool :=
  match p, s with
  | [], _ => true
  | c :: p', d :: s' => N.eqb c d && startsWith p' s'
  | _ :: _, [] => false
  end.

(** [s.substring(a, b)] for [a <= b], and [s.substring(a)]. *)
Definition substring (a b : nat) (s : jsstring) : jsstring :=
  firstn (b - a) (skipn a s).
Definition substring_from (a : nat) (s : jsstring) : jsstring := skipn a s.

(** ToBoolean on a string: the empty string is the only falsy one. *)
Definition truthy_str (s : jsstring) : bool :=
  match s with [] => false | _ :: _ => true end.

(** [arr.includes(x)] on an array of strings. *)
Definition includes (x : jsstring) (l : list jsstring) : bool :=
  existsb (jsstring_eqb x) l.

(** WhiteSpace and LineTerminator code points of ECMAScript, the set that
    [String.prototype.trim] strips. *)
Definition is_line_terminator (c : N) : bool :=
  (N.eqb c 10 || N.eqb c 13 || N.eqb c 8232 || N.eqb c 8233)%bool.

Definition is_white_space (c : N) : bool :=
  (N.eqb c 9 || N.eqb c 11 || N.eqb c 12 || N.eqb c 32 || N.eqb c 160
   || N.eqb c 5760 || (N.leb 8192 c && N.leb c 8202) || N.eqb c 8239
   || N.eqb c 8287 || N.eqb c 12288 || N.eqb c 65279)%bool.

Definition is_trim_space (c : N) : bool :=
  (is_white_space c || is_line_terminator c)%bool.

Fixpoint trimStart (s : jsstring) : jsstring :=
  match s with
  | c :: s' => if is_trim_space c then trimStart s' else s
  | [] => []
  end.

Definition trimEnd (s : jsstring) : jsstring := rev (trimStart (rev s)).

Definition trim (s : jsstring) : jsstring := trimEnd (trimStart s).

(** [s.split(sep)] for a one-code-unit separator: always at least one
    piece, the pieces are the maximal runs between separators. *)
Fixpoint split (sep : N) (s : jsstring) : list jsstring :=
  match s with
  | [] => [[]]
  | c :: s' =>
      if N.eqb c sep then [] :: split sep s'
      else match split sep s' with
           | p :: ps => (c :: p) :: ps
           | [] => [[c]]
           end
  end.

(** [arr.join(sep)] on an array of strings. *)
Fixpoint join (sep : jsstring) (l : list jsstring) : jsstring :=
  match l with
  | [] => []
  | [x] => x
  | x :: l' => x ++ sep ++ join sep l'
  end.

End Js.
Import Js.

(* ================================================================== *)
(** * Regular expressions *)
(* ================================================================== *)

Module Regex.

(** The fragment of the ECMAScript pattern grammar the service uses.
    Quantifiers only ever apply to a single character class. *)
Inductive regex : Type :=
| RBol                                   (* ^  (no m flag) *)
| REol                                   (* $  (no m flag) *)
| RStr (l : jsstring)                    (* a literal run of characters *)
| RSet (p : N -> bool)                   (* one character of a class *)
| RSeq (r1 r2 : regex)
| RAlt (r1 r2 : regex)                   (* r1|r2, r1 tried first *)
| RRep (greedy : bool) (lo : nat) (hi : option nat) (p : N -> bool)
| RGroup (r : regex).                    (* capturing group 1 *)

Fixpoint rseq (l : list regex) : regex :=
  match l with
  | [] => RStr []
  | [r] => r
  | r :: l' => RSeq r (rseq l')
  end.

Section Matcher.
Variable R : Type.

(** RepeatMatcher for a character class: [i] is the index of the next
    character, [s] the rest of the input, [k] the continuation. *)
Fixpoint rep (greedy : bool) (p : N -> bool) (lo : nat) (hi : option nat)
         (i : nat) (s : jsstring) (k : nat -> jsstring -> option R)
         {struct s} : option R :=
  match hi with
  | Some 0 => match lo with 0 => k i s | S _ => None end
  | _ =>
    match lo with
    | S lo' =>
        match s with
        | c :: s' =>
            if p c then rep greedy p lo' (option_map pred hi) (S i) s' k
            else None
        | [] => None
        end
    | 0 =>
        if greedy then
          match s with
          | c :: s' =>
              if p c then
                match rep greedy p 0 (option_map pred hi) (S i) s' k with
                | Some x => Some x
                | None => k i s
                end
              else k i s
          | [] => k i s
          end
        else
          match k i s with
          | Some x => Some x
          | None =>
              match s with
              | c :: s' =>
                  if p c then rep greedy p 0 (option_map pred hi) (S i) s' k
                  else None
              | [] => None
              end
          end
    end
  end.

Fixpoint rmatch (r : regex) (i : nat) (s : jsstring) (cap : option jsstring)
         (k : nat -> jsstring -> option jsstring -> option R) : option R :=
  match r with
  | RBol => if Nat.eqb i 0 then k i s cap else None
  | REol => match s with [] => k i s cap | _ :: _ => None end
  | RStr l =>
      if startsWith l s then k (i + length l) (skipn (length l) s) cap
      else None
  | RSet p =>
      match s with
      | c :: s' => if p c then k (S i) s' cap else None
      | [] => None
      end
  | RSeq r1 r2 =>
      rmatch r1 i s cap (fun j s' cap' => rmatch r2 j s' cap' k)
  | RAlt r1 r2 =>
      match rmatch r1 i s cap k with
      | Some x => Some x
      | None => rmatch r2 i s cap k
      end
  | RRep g lo hi p => rep g p lo hi i s (fun j s' => k j s' cap)
  | RGroup r' =>
      rmatch r' i s cap (fun j s' _ => k j s' (Some (firstn (j - i) s)))
  end.
End Matcher.

(** A successful match: start index, end index, capture 1. *)
Definition match_result := (nat * nat * option jsstring)%type.

Definition match_at (r : regex) (i : nat) (s : jsstring) : option match_result :=
  rmatch r i s None (fun j _ cap => Some (i, j, cap)).

(** RegExpBuiltinExec: the leftmost start index at or after [i] at which
    the pattern matches; [s] is the input from index [i] on. *)
Fixpoint exec_from (r : regex) (i : nat) (s : jsstring) : option match_result :=
  match match_at r i s with
  | Some m => Some m
  | None =>
      match s with
      | [] => None
      | _ :: s' => exec_from r (S i) s'
      end
  end.

(** [re.test(s)] for a pattern without the g flag. *)
Definition test (r : regex) (s : jsstring) : bool :=
  match exec_from r 0 s with Some _ => true | None => false end.

(** [s.matchAll(re)] for a pattern with the g flag: successive execs,
    each starting at the previous match's end ([lastIndex]); an empty
    match advances by one.  Every round moves [lastIndex] forward, so
    [S (length s)] rounds always suffice. *)
Fixpoint matchAll_loop (fuel : nat) (r : regex) (i : nat) (s : jsstring)
  : list match_result :=
  match fuel with
  | 0 => []
  | S fuel' =>
      match exec_from r i s with
      | None => []
      | Some (st, en, cap) =>
          let next := if Nat.eqb en st then S en else en in
          if Nat.ltb (length s) (next - i) then [(st, en, cap)]
          else (st, en, cap) :: matchAll_loop fuel' r next (skipn (next - i) s)
      end
  end.

Definition matchAll (r : regex) (s : jsstring) : list match_result :=
  matchAll_loop (S (length s)) r 0 s.

(** [match[1]] of a match; an unset group is [undefined]. *)
Definition group1 (m : match_result) : option jsstring := snd m.

End Regex.
Import Regex.


(* ================================================================== *)
(** * Numbers: IEEE binary64 and [Number(string)] *)
(* ================================================================== *)

Module Num.

(** A JavaScript Number is a binary64 value. *)
Definition jsnum : Type := spec_float.

Definition prec : Z := 53.
Definition emax : Z := 1024.

(** The Number value of a mathematical value [m * 10^e] (for [m >= 0]),
    with the given sign: round to nearest, ties to even. *)
Definition round_decimal (neg : bool) (m : N) (e : Z) : jsnum :=
  match m with
  | N0 => S754_zero neg
  | Npos p =>
      match e with
      | Zneg k =>
          let '(q, e', l) :=
            SFdiv_core_binary prec emax (Zpos p) 0 (Z.pow 10 (Zpos k)) 0 in
          binary_round_aux prec emax neg q e' l
      | _ =>
          match (Zpos p * Z.pow 10 e)%Z with
          | Zpos v => binary_round prec emax neg v 0
          | _ => S754_zero neg
          end
      end
  end.

Definition of_N (n : N) : jsnum := round_decimal false n 0.

(** ToBoolean on a Number: NaN, +0 and -0 are the falsy ones. *)
Definition truthy_num (x : jsnum) : bool :=
  match x with
  | S754_nan | S754_zero _ => false
  | S754_infinity _ | S754_finite _ _ _ => true
  end.

Definition is_finite (x : jsnum) : bool :=
  match x with
  | S754_zero _ | S754_finite _ _ _ => true
  | S754_nan | S754_infinity _ => false
  end.

(** [x > 0] *)
Definition is_positive (x : jsnum) : bool :=
  match x with
  | S754_finite false _ _ | S754_infinity false => true
  | _ => false
  end.

(** ** StringToNumber (the StringNumericLiteral grammar) *)

Definition digit_in (base : N) (c : N) : option N :=
  let v :=
    if (N.leb 48 c && N.leb c 57)%bool then Some (c - 48)%N
    else if (N.leb 97 c && N.leb c 102)%bool then Some (c - 87)%N
    else if (N.leb 65 c && N.leb c 70)%bool then Some (c - 55)%N
    else None in
  match v with
  | Some d => if N.ltb d base then Some d else None
  | None => None
  end.

(** The longest prefix of digits of the base, as digit values, and the
    rest of the input. *)
Fixpoint span_digits (base : N) (s : jsstring) : list N * jsstring :=
  match s with
  | c :: s' =>
      match digit_in base c with
      | Some d => let '(ds, r) := span_digits base s' in (d :: ds, r)
      | None => ([], s)
      end
  | [] => ([], [])
  end.

Definition digits_value (base : N) (ds : list N) : N :=
  fold_left (fun acc d => (acc * base + d)%N) ds 0%N.

(** ExponentPart_opt at the end of the literal: the exponent, or [None]
    when what is left is not an exponent part. *)
Definition parse_sign (s : jsstring) : bool * jsstring :=
  match s with
  | c :: t =>
      if N.eqb c 43 then (false, t)                       (* + *)
      else if N.eqb c 45 then (true, t)                   (* - *)
      else (false, s)
  | [] => (false, s)
  end.

Definition parse_exponent (s : jsstring) : option Z :=
  match s with
  | [] => Some 0%Z
  | c :: r =>
      if (N.eqb c 101 || N.eqb c 69)%bool then          (* e E *)
        let '(neg, r') := parse_sign r in
        match span_digits 10 r' with
        | (d :: ds, []) =>
            let v := Z.of_N (digits_value 10 (d :: ds)) in
            Some (if neg then (- v)%Z else v)
        | _ => None
        end
      else None
  end.

(** StrUnsignedDecimalLiteral other than [Infinity]: the digits read as
    an integer mantissa, and the decimal exponent. *)
Definition parse_unsigned_decimal (s : jsstring) : option (N * Z) :=
  let '(ip, r1) := span_digits 10 s in
  let '(fp, r2) :=
    match r1 with
    | c :: t => if N.eqb c 46 then span_digits 10 t else ([], r1)   (* . *)
    | [] => ([], r1)
    end in
  match ip, fp with
  | [], [] => None
  | _, _ =>
      match parse_exponent r2 with
      | Some e =>
          Some (digits_value 10 (ip ++ fp), (e - Z.of_nat (length fp))%Z)
      | None => None
      end
  end.

Definition parse_str_decimal (neg : bool) (s : jsstring) : jsnum :=
  if jsstring_eqb s (js "Infinity") then S754_infinity neg
  else match parse_unsigned_decimal s with
       | Some (m, e) => round_decimal neg m e
       | None => S754_nan
       end.

(** NonDecimalIntegerLiteral: [0b], [0o], [0x] prefixes, no sign. *)
Definition non_decimal_prefix (s : jsstring) : option (N * jsstring) :=
  match s with
  | z :: b :: t =>
      if N.eqb z 48 then
        if (N.eqb b 98 || N.eqb b 66)%bool then Some (2%N, t)         (* 0b 0B *)
        else if (N.eqb b 111 || N.eqb b 79)%bool then Some (8%N, t)   (* 0o 0O *)
        else if (N.eqb b 120 || N.eqb b 88)%bool then Some (16%N, t)  (* 0x 0X *)
        else None
      else None
  | _ => None
  end.

Definition parse_non_decimal (base : N) (s : jsstring) : jsnum :=
  match span_digits base s with
  | (d :: ds, []) => of_N (digits_value base (d :: ds))
  | _ => S754_nan
  end.

(** [Number(s)] on a string argument. *)
Definition Number (s : jsstring) : jsnum :=
  let t := trim s in
  match t with
  | [] => S754_zero false
  | _ :: _ =>
      match non_decimal_prefix t with
      | Some (base, r) => parse_non_decimal base r
      | None => let '(neg, r) := parse_sign t in parse_str_decimal neg r
      end
  end.

End Num.
Import Num.

(* ================================================================== *)
(** * JSON values *)
(* ================================================================== *)

Module Json.

(** A value produced by [JSON.parse], or handed to [JSON.stringify];
    a JSON text is given by the value it denotes.  An object is the
    list of its own properties, each key once. *)
#[warnings="-register-all"]
Inductive JSON : Type :=
| JNull
| JBool (b : bool)
| JNum (x : jsnum)
| JStr (s : jsstring)
| JArr (items : list JSON)
| JObj (fields : list (jsstring * JSON)).

(** ToBoolean *)
Definition truthy (v : JSON) : bool :=
  match v with
  | JNull => false
  | JBool b => b
  | JNum x => truthy_num x
  | JStr s => truthy_str s
  | JArr _ | JObj _ => true
  end.

Fixpoint lookup (key : jsstring) (fields : list (jsstring * JSON)) : option JSON :=
  match fields with
  | [] => None
  | (k, v) :: rest => if jsstring_eqb k key then Some v else lookup key rest
  end.

(** [v[0]] on a truthy value; [None] is [undefined]. *)
Definition index0 (v : JSON) : option JSON :=
  match v with
  | JArr items => nth_error items 0
  | JObj fields => lookup (js "0") fields
  | JStr (c :: _) => Some (JStr [c])
  | _ => None
  end.

(** [v.url] on a truthy value; [None] is [undefined]. *)
Definition get_url (v : JSON) : option JSON :=
  match v with
  | JObj fields => lookup (js "url") fields
  | _ => None
  end.

(** [JSON.stringify(v)], as the value that the text denotes: a Number
    that is not finite is written [null] and minus zero is written [0];
    every other value is written as it is. *)
Fixpoint JSON_stringify (v : JSON) : JSON :=
  match v with
  | JNum x =>
      match x with
      | S754_nan | S754_infinity _ => JNull
      | S754_zero _ => JNum (S754_zero false)
      | S754_finite _ _ _ => JNum x
      end
  | JArr items => JArr (map JSON_stringify items)
  | JObj fields =>
      JObj (map (fun kv => (fst kv, JSON_stringify (snd kv))) fields)
  | JNull | JBool _ | JStr _ => v
  end.

End Json.
Import Json.

(* ================================================================== *)
(** * Requests, responses and errors *)
(* ================================================================== *)

(** [type Provider = "VolcEngine" | "Gitee" | "ModelScope" | "HuggingFace" | "Unknown"] *)
Inductive Provider : Type :=
| VolcEngine | Gitee | ModelScope | HuggingFace | Unknown.

Definition Provider_eq_dec (a b : Provider) : {a = b} + {a <> b}.
Proof. decide equality. Defined.

Inductive Method : Type := GET | POST.

(** One part of a [FormData] body; a blob carries its bytes, the
    [type] option it was built with and the file name. *)
Inductive FormValue : Type :=
| FormText (value : jsstring)
| FormBlob (bytes : jsstring) (type : jsstring) (filename : jsstring).

Inductive Body : Type :=
| NoBody
| JsonBody (text : JSON)                    (* a JSON text *)
| FormBody (parts : list (jsstring * FormValue)).

(** The arguments of one [fetchWithTimeout] call. *)
Record HttpRequest : Type := {
  req_url : jsstring;
  req_method : Method;
  req_headers : list (jsstring * jsstring);
  req_body : Body
}.

(** What a handler reads from a [Response]: the [ok] flag, the status,
    the body as text, and the body as JSON at the type the handler uses
    it ([None] when [json()] rejects). *)
Record Response (A : Type) : Type := {
  ok : bool;
  status : N;
  text : jsstring;
  json : option A
}.

(** An entry of an image-generation result: [{ url?: string; b64_json?: string }] *)
Record ImageDatum : Type := {
  url : option jsstring;
  b64_json : option jsstring
}.

(** The fields read from a task-status payload. *)
Record CheckData : Type := {
  task_status : option jsstring;
  output_images : option (list jsstring)
}.

(** The errors the handlers throw.  Each constructor stands for one
    [new Error(...)] of the source; [Rejected] is an exception raised by
    the runtime itself (a rejected fetch, an aborted request, a JSON
    syntax error). *)
Inductive Err : Type :=
| DownloadError (status : N)                          (* 下载图片失败: <status> *)
| VolcEngineApiError (status : N) (errorText : jsstring)
| GiteeEditApiError (status : N) (errorText : jsstring)
| GiteeApiError (status : N) (errorText : jsstring)
| GiteeEmptyData                                      (* Gitee 返回数据为空 *)
| ModelScopeSubmitError (status : N) (errorText : jsstring)
| ModelScopeTaskFailed (checkData : CheckData)        (* ... + JSON.stringify(checkData) *)
| ModelScopeTaskTimeout                               (* ModelScope Task Timeout *)
| HuggingFaceConfigError                              (* 未配置任何 API URL *)
| HuggingFaceApiError (status : N) (errorText : jsstring)
| HuggingFaceResultApiError (status : N) (errorText : jsstring)
| HuggingFaceNoImageUrl                               (* 未能从 SSE 流中提取图片 URL *)
| HuggingFaceErrorEvent                               (* HuggingFace API 返回错误 *)
| HuggingFaceAllFailed                                (* 所有 HuggingFace URL 均失败 *)
| Rejected (reason : jsstring).

(* ================================================================== *)
(** * Effects: a trace of observable actions, and exceptions *)
(* ================================================================== *)

Module Eff.

Inductive Level : Type := Debug | Info | Warn | Error.

(** What the program does that can be observed from outside.  A call of
    [info]/[warn]/[error]/[debug] is recorded with its level and module
    tag; the interpolated message text is not kept.  The logger calls
    that are handed the data of the request ([logProviderRouting],
    [logFullPrompt], [logInputImages], [logImageGenerationStart]) are
    recorded with that data, the request id apart.  The calls that
    keep the books of a request ([logRequestStart], [logRequestEnd],
    [logApiCallStart], [logApiCallEnd]) and those that report its
    outcome ([logGeneratedImages], [logImageGenerationComplete],
    [logImageGenerationFailed]) are not recorded. *)
Inductive Event : Type :=
| ProviderRouting (p : Provider) (keyPrefix : jsstring)   (* logProviderRouting *)
| Log (lvl : Level) (module : string)
| Sleep (ms : N)                                          (* setTimeout wait *)
| Fetch (req : HttpRequest)                               (* fetchWithTimeout *)
| FullPrompt (p : Provider) (prompt : jsstring)           (* logFullPrompt *)
| InputImages (p : Provider) (images : list jsstring)     (* logInputImages *)
| ImageGenerationStart (p : Provider) (model size : jsstring)
                       (promptLength : nat).              (* logImageGenerationStart *)

Definition Trace : Type := list Event.

Inductive Outcome (A : Type) : Type :=
| Ok (a : A)
| Throw (e : Err).

Arguments Ok {A} a.
Arguments Throw {A} e.

(** A computation extends the trace and either returns or throws. *)
Definition M (A : Type) : Type := Trace -> Outcome A * Trace.

Definition ret {A} (a : A) : M A := fun tr => (Ok a, tr).

Definition bind {A B} (c : M A) (f : A -> M B) : M B :=
  fun tr =>
    match c tr with
    | (Ok a, tr') => f a tr'
    | (Throw e, tr') => (Throw e, tr')
    end.

Definition throw {A} (e : Err) : M A := fun tr => (Throw e, tr).

(** [try { c } catch (e) { h e }] *)
Definition try_catch {A} (c : M A) (h : Err -> M A) : M A :=
  fun tr =>
    match c tr with
    | (Ok a, tr') => (Ok a, tr')
    | (Throw e, tr') => h e tr'
    end.

Definition emit (ev : Event) : M unit := fun tr => (Ok tt, tr ++ [ev]).

(** An outbound call: the request is recorded, and the answer is what
    the oracle gives for the trace so far and this request. *)
Definition call {A} (oracle : Trace -> HttpRequest -> Outcome A)
           (req : HttpRequest) : M A :=
  fun tr => (oracle tr req, tr ++ [Fetch req]).

(** An outbound call that is started now and awaited later: the
    request is recorded, and how the call settles (the answer or the
    rejection) is handed on as a value. *)
Definition start {A} (oracle : Trace -> HttpRequest -> Outcome A)
           (req : HttpRequest) : M (Outcome A) :=
  fun tr => (Ok (oracle tr req), tr ++ [Fetch req]).

(** [await] on a call that has settled. *)
Definition settled {A} (o : Outcome A) : M A := fun tr => (o, tr).

(** Running from the empty trace. *)
Definition run {A} (c : M A) : Outcome A * Trace := c [].
Definition result {A} (c : M A) : Outcome A := fst (run c).
Definition events {A} (c : M A) : Trace := snd (run c).

Definition info (module : string) : M unit := emit (Log Info module).
Definition warn (module : string) : M unit := emit (Log Warn module).
Definition error (module : string) : M unit := emit (Log Error module).
Definition debug (module : string) : M unit := emit (Log Debug module).

Definition logFullPrompt (p : Provider) (prompt : jsstring) : M unit :=
  emit (FullPrompt p prompt).
Definition logInputImages (p : Provider) (images : list jsstring) : M unit :=
  emit (InputImages p images).
Definition logImageGenerationStart (p : Provider) (model size : jsstring)
           (promptLength : nat) : M unit :=
  emit (ImageGenerationStart p model size promptLength).

Module Notations.
Declare Scope eff_scope.
Delimit Scope eff_scope with eff.
Notation "x <- c ;; k" := (bind c (fun x => k))
  (at level 61, c at next level, right associativity) : eff_scope.
Notation "c ;; k" := (bind c (fun _ => k))
  (at level 61, right associativity) : eff_scope.
End Notations.

End Eff.
Import Eff.
Import Eff.Notations.
Local Open Scope eff_scope.
Local Open Scope string_scope.
Local Open Scope list_scope.

(* ================================================================== *)
(** * Configuration ([config.ts]) *)
(* ================================================================== *)

Module Config.

Record ProviderConfig : Type := {
  apiUrl : jsstring;
  defaultModel : jsstring;
  defaultSize : jsstring;
  defaultEditSize : jsstring;
  supportedModels : list jsstring
}.

Record GiteeProviderConfig : Type := {
  g_apiUrl : jsstring;
  g_editApiUrl : jsstring;
  g_defaultModel : jsstring;
  g_defaultEditModel : jsstring;
  g_defaultSize : jsstring;
  g_defaultEditSize : jsstring;
  g_supportedModels : list jsstring;
  g_editModels : list jsstring
}.

Record HuggingFaceProviderConfig : Type := {
  apiUrls : list jsstring;
  hf_defaultModel : jsstring;
  hf_defaultSize : jsstring;
  hf_defaultEditSize : jsstring;
  hf_supportedModels : list jsstring
}.

Definition VolcEngineConfig : ProviderConfig := {|
  apiUrl := js "https://ark.cn-beijing.volces.com/api/v3/images/generations";
  defaultModel := js "doubao-seedream-4-5-251128";
  defaultSize := js "2K";
  defaultEditSize := js "2K";
  supportedModels := [js "doubao-seedream-4-5-251128"; js "doubao-seedream-4-0-250828"]
|}.

Definition GiteeConfig : GiteeProviderConfig := {|
  g_apiUrl := js "https://ai.gitee.com/v1/images/generations";
  g_editApiUrl := js "https://ai.gitee.com/v1/images/edits";
  g_defaultModel := js "z-image-turbo";
  g_defaultEditModel := js "Qwen-Image-Edit";
  g_defaultSize := js "2048x2048";
  g_defaultEditSize := js "1024x1024";
  g_supportedModels := [js "z-image-turbo"];
  g_editModels := [js "Qwen-Image-Edit"; js "HiDream-E1-Full"; js "FLUX.1-dev";
                   js "HelloMeme"; js "Kolors"; js "OmniConsistency"]
|}.

Definition ModelScopeConfig : ProviderConfig := {|
  apiUrl := js "https://api-inference.modelscope.cn/v1";
  defaultModel := js "Tongyi-MAI/Z-Image-Turbo";
  defaultSize := js "2048x2048";
  defaultEditSize := js "2048x2048";
  supportedModels := [js "Tongyi-MAI/Z-Image-Turbo"]
|}.

Definition HuggingFaceConfig : HuggingFaceProviderConfig := {|
  apiUrls := [js "https://luca115-z-image-turbo.hf.space";
              js "https://mcp-tools-z-image-turbo.hf.space";
              js "https://cpuai-z-image-turbo.hf.space";
              js "https://victor-z-image-turbo-mcp.hf.space";
              js "https://wavespeed-z-image-turbo.hf.space";
              js "https://jinguotianxin-z-image-turbo.hf.space";
              js "https://prithivmlmods-z-image-turbo-lora-dlc.hf.space";
              js "https://linoyts-z-image-portrait.hf.space";
              js "https://prokofyev8-z-image-portrait.hf.space";
              js "https://ovi054-z-image-lora.hf.space";
              js "https://yingzhac-z-image-nsfw.hf.space";
              js "https://nymbo-tools.hf.space"];
  hf_defaultModel := js "Qwen-Image-Edit-2511";
  hf_defaultSize := js "2048x2048";
  hf_defaultEditSize := js "2048x2048";
  hf_supportedModels := [js "z-image-turbo"; js "Qwen-Image-Edit-2511"]
|}.

End Config.

(* ================================================================== *)
(** * Credential router *)
(* ================================================================== *)

Module Router.

(** Character classes of the two key patterns. *)
Definition digit (c : N) : bool := (N.leb 48 c && N.leb c 57)%bool.
Definition lower (c : N) : bool := (N.leb 97 c && N.leb c 122)%bool.
Definition upper (c : N) : bool := (N.leb 65 c && N.leb c 90)%bool.

(** [[0-9a-f]] under the [i] flag.  Without the [u] flag Canonicalize
    upper-cases a code unit unless that would map a non-ASCII unit to an
    ASCII one, so the class accepts exactly 0-9, a-f and A-F. *)
Definition hex_i (c : N) : bool :=
  (digit c || (N.leb 97 c && N.leb c 102) || (N.leb 65 c && N.leb c 70))%bool.

(** [[a-zA-Z0-9]] *)
Definition alnum (c : N) : bool := (lower c || upper c || digit c)%bool.

Definition dash : regex := RStr (js "-").

(** [/^[0-9a-f]{8}-[0-9a-f]{4}-[0-9a-f]{4}-[0-9a-f]{4}-[0-9a-f]{12}$/i] *)
Definition uuidRegex : regex :=
  rseq [RBol;
        RRep true 8 (Some 8) hex_i; dash;
        RRep true 4 (Some 4) hex_i; dash;
        RRep true 4 (Some 4) hex_i; dash;
        RRep true 4 (Some 4) hex_i; dash;
        RRep true 12 (Some 12) hex_i;
        REol].

(** [/^[a-zA-Z0-9]{30,60}$/] *)
Definition giteeRegex : regex :=
  rseq [RBol; RRep true 30 (Some 60) alnum; REol].

Definition logProviderRouting (p : Provider) (keyPrefix : jsstring) : M unit :=
  emit (ProviderRouting p keyPrefix).

Definition detectProvider (apiKey : jsstring) : M Provider :=
  if negb (truthy_str apiKey) then ret Unknown
  else if startsWith (js "hf_") apiKey then
    logProviderRouting HuggingFace (substring 0 4 apiKey) ;;
    ret HuggingFace
  else if startsWith (js "ms-") apiKey then
    logProviderRouting ModelScope (substring 0 4 apiKey) ;;
    ret ModelScope
  else if test uuidRegex apiKey then
    logProviderRouting VolcEngine (substring 0 4 apiKey) ;;
    ret VolcEngine
  else if test giteeRegex apiKey then
    logProviderRouting Gitee (substring 0 4 apiKey) ;;
    ret Gitee
  else
    logProviderRouting Unknown (substring 0 4 apiKey) ;;
    ret Unknown.

End Router.

(* ================================================================== *)
(** * Transcript scanner *)
(* ================================================================== *)

Module Extractor.

(** [type MessageContentItem = TextContentItem | ImageUrlContentItem];
    [image_url] is optional in the second. *)
Inductive MessageContentItem : Type :=
| TextContentItem (text : jsstring)
| ImageUrlContentItem (image_url : option jsstring).

(** [content: string | MessageContentItem[]]; [ContentOther] is a value
    that is neither (both branches of the source skip it). *)
Inductive Content : Type :=
| ContentString (s : jsstring)
| ContentArray (items : list MessageContentItem)
| ContentOther.

Record Message : Type := {
  role : jsstring;
  content : Content
}.

Definition is_text (item : MessageContentItem) : bool :=
  match item with TextContentItem _ => true | _ => false end.

Definition is_image_url (item : MessageContentItem) : bool :=
  match item with ImageUrlContentItem _ => true | _ => false end.

(** [item.image_url?.url || ""] *)
Definition url_or_empty (item : MessageContentItem) : jsstring :=
  match item with
  | ImageUrlContentItem (Some u) => u
  | _ => []
  end.

(** [.filter(item => item.type === "image_url")
     .map(item => item.image_url?.url || "").filter(Boolean)] *)
Definition image_urls (items : list MessageContentItem) : list jsstring :=
  filter truthy_str (map url_or_empty (filter is_image_url items)).

(** [textItem?.text || ""] for the first item of type "text". *)
Definition first_text (items : list MessageContentItem) : jsstring :=
  match find is_text items with
  | Some (TextContentItem t) => t
  | _ => []
  end.

(** [.] without the s flag, and [[^\)]]. *)
Definition dot (c : N) : bool := negb (is_line_terminator c).
Definition not_rparen (c : N) : bool := negb (N.eqb c 41).

(** [/!\[.*?\]\(((?:https?:\/\/|data:image\/)[^\)]+)\)/g] *)
Definition mdImageRegex : regex :=
  rseq [RStr (js "![");
        RRep false 0 None dot;
        RStr (js "](");
        RGroup (RSeq (RAlt (rseq [RStr (js "http");
                                  RRep true 0 (Some 1) (N.eqb 115);
                                  RStr (js "://")])
                           (RStr (js "data:image/")))
                     (RRep true 1 None not_rparen));
        RStr (js ")")].

(** [match[1]]; group 1 takes part in every match of this pattern. *)
Definition match1 (m : match_result) : jsstring :=
  match group1 m with Some g => g | None => [] end.

(** The images found in one earlier message. *)
Definition foundInMsg (c : Content) : list jsstring :=
  match c with
  | ContentString s => map match1 (matchAll mdImageRegex s)
  | ContentArray items => image_urls items
  | ContentOther => []
  end.

(** The state after the first loop: [prompt], [currentImages] and
    [lastUserIndex] ([None] for -1). *)
Definition LastUser : Type := (jsstring * list jsstring * option nat)%type.

(** The iterations [i = n-1, ..., 0] of the first loop. *)
Fixpoint scan_last_user (messages : list Message) (n : nat) : LastUser :=
  match n with
  | 0 => ([], [], None)
  | S i =>
      match nth_error messages i with
      | Some m =>
          if jsstring_eqb (role m) (js "user") then
            match content m with
            | ContentString s => (s, [], Some i)
            | ContentArray items => (first_text items, image_urls items, Some i)
            | ContentOther => ([], [], Some i)
            end
          else scan_last_user messages i
      | None => scan_last_user messages i       (* i < messages.length *)
      end
  end.

(** The iterations [i = n-1, ..., 0] of the second loop: the value of
    [historicalImages] when it ends. *)
Fixpoint scan_history (messages : list Message) (n : nat) : list jsstring :=
  match n with
  | 0 => []
  | S i =>
      let found :=
        match nth_error messages i with
        | Some m => foundInMsg (content m)
        | None => []
        end in
      if Nat.ltb 0 (length found) then found
      else scan_history messages i
  end.

(** The third step: [finalImages] starts as a copy of the current
    images and receives each historical image it does not include yet. *)
Definition merge_images (currentImages historicalImages : list jsstring)
  : list jsstring :=
  fold_left (fun finalImages img =>
               if negb (includes img finalImages) then finalImages ++ [img]
               else finalImages)
            historicalImages currentImages.

Record Extracted : Type := {
  prompt : jsstring;
  images : list jsstring
}.

(** The [debug] line issued when historical images are found is not
    traced; the function is otherwise free of effects. *)
Definition extractPromptAndImages (messages : list Message) : Extracted :=
  let '(prompt, currentImages, lastUserIndex) :=
    scan_last_user messages (length messages) in
  let historicalImages :=
    match lastUserIndex with
    | Some l => scan_history messages l
    | None => []
    end in
  {| prompt := prompt; images := merge_images currentImages historicalImages |}.

End Extractor.

(* ================================================================== *)
(** * Provider handlers *)
(* ================================================================== *)

Module Adapters.
Import Config Extractor.

(** [interface ChatRequest], with the one extra key a handler reads. *)
Record ChatRequest : Type := {
  model : option jsstring;
  messages : option (list Message);
  stream : option bool;
  size : option jsstring;
  response_format : option jsstring
}.

(** ToBoolean on an optional string ([undefined] is falsy). *)
Definition truthy_opt (o : option jsstring) : bool :=
  match o with Some s => truthy_str s | None => false end.

(** [a || b] on strings. *)
Definition or_str (a b : jsstring) : jsstring := if truthy_str a then a else b.

(** [o || b] where [o] may be [undefined]. *)
Definition opt_or (o : option jsstring) (b : jsstring) : jsstring :=
  match o with Some s => or_str s b | None => b end.

(** A template-literal hole filled with a possibly undefined string. *)
Definition interp (o : option jsstring) : jsstring :=
  match o with Some s => s | None => js "undefined" end.

(** [reqBody.model && supported.includes(reqBody.model) ? reqBody.model : dflt] *)
Definition pick_model (requested : option jsstring) (supported : list jsstring)
           (dflt : jsstring) : jsstring :=
  match requested with
  | Some m => if (truthy_str m && includes m supported)%bool then m else dflt
  | None => dflt
  end.

Definition newline2 : jsstring := [10; 10]%N.
Definition default_prompt : jsstring := js "A beautiful scenery".

(** The string 图片生成失败. *)
Definition failure_placeholder : jsstring :=
  [22270; 29255; 29983; 25104; 22833; 36133]%N.

(** ** Response normalizer *)

(** The callback mapped over the result array by the VolcEngine and
    Gitee handlers. *)
Definition formatImage (img : ImageDatum) : jsstring :=
  if truthy_opt (b64_json img) then
    js "![Generated Image](data:image/png;base64," ++ interp (b64_json img) ++ js ")"
  else if truthy_opt (url img) then
    js "![Generated Image](" ++ interp (url img) ++ js ")"
  else [].

(** [imageData.map(...).filter(Boolean).join("\n\n") || "图片生成失败"]
    (VolcEngine). *)
Definition formatImages (imageData : list ImageDatum) : jsstring :=
  or_str (join newline2 (filter truthy_str (map formatImage imageData)))
         failure_placeholder.

(** Gitee keeps the filtered array in [results] and joins on return. *)
Definition giteeResults (imageData : list ImageDatum) : list jsstring :=
  filter truthy_str (map formatImage imageData).
Definition giteeReturn (results : list jsstring) : jsstring :=
  or_str (join newline2 results) failure_placeholder.

(** [imageUrls.map(url => `![Generated Image](${url})`).join("\n\n") || ...]
    (ModelScope). *)
Definition formatUrls (imageUrls : list jsstring) : jsstring :=
  or_str (join newline2
            (map (fun u => js "![Generated Image](" ++ u ++ js ")") imageUrls))
         failure_placeholder.

(** ** The world outside *)

(** The body of an image download: status, bytes (one code unit per
    byte) and [content-type] header. *)
Record ImageResponse : Type := {
  img_ok : bool;
  img_status : N;
  img_bytes : jsstring;
  img_content_type : option jsstring
}.

Definition Oracle (A : Type) : Type := Trace -> HttpRequest -> Outcome A.

Fixpoint mapM {A B} (f : A -> M B) (l : list A) : M (list B) :=
  match l with
  | [] => ret []
  | x :: l' => y <- f x ;; ys <- mapM f l' ;; ret (y :: ys)
  end.

Definition bearer (apiKey : jsstring) : jsstring * jsstring :=
  (js "Authorization", js "Bearer " ++ apiKey).
Definition json_content_type : jsstring * jsstring :=
  (js "Content-Type", js "application/json").

Section Handlers.
(** Built-ins of the runtime that are not written out: [btoa],
    [atob] ([None] when it throws), [JSON.parse] ([None] when it
    throws), and ToString on a value that is not a string. *)
Variable btoa : jsstring -> jsstring.
Variable atob : jsstring -> option jsstring.
Variable JSON_parse : jsstring -> option JSON.
Variable ToString_other : JSON -> jsstring.

(** The value of [Math.round(Math.random() * 2147483647)]. *)
Variable seed : N.

(** The configuration the handlers read. *)
Variable VolcCfg : ProviderConfig.
Variable GiteeCfg : GiteeProviderConfig.
Variable ModelScopeCfg : ProviderConfig.
Variable HuggingFaceCfg : HuggingFaceProviderConfig.

(** The answers of the network. *)
Variable image_host : Oracle ImageResponse.
Variable volc_api : Oracle (Response (option (list ImageDatum))).
Variable gitee_api : Oracle (Response (option (list ImageDatum))).
Variable modelscope_submit : Oracle (Response (option jsstring)).
Variable modelscope_task : Oracle (Response CheckData).
Variable hf_queue : Oracle (Response (option jsstring)).
Variable hf_result : Oracle (Response unit).

(** [await response.json()] *)
Definition read_json {A} (r : Response A) : M A :=
  match json r with
  | Some a => ret a
  | None => throw (Rejected (js "SyntaxError"))
  end.

(** [fetchWithTimeout(url, { method: "GET" })] *)
Definition download_request (url : jsstring) : HttpRequest :=
  {| req_url := url; req_method := GET; req_headers := []; req_body := NoBody |}.

(** [urlToBase64] from the response on. *)
Definition urlToBase64_response (response : ImageResponse)
  : M (jsstring * jsstring) :=
  if negb (img_ok response) then throw (DownloadError (img_status response))
  else
    let base64 := btoa (img_bytes response) in
    let contentType := opt_or (img_content_type response) (js "image/png") in
    let mimeType := trim (hd [] (split 59 contentType)) in
    ret (base64, mimeType).

(** [urlToBase64] *)
Definition urlToBase64 (url : jsstring) : M (jsstring * jsstring) :=
  response <- call image_host (download_request url) ;;
  urlToBase64_response response.

(** ** VolcEngine: one synchronous JSON call *)

(** [Promise.all(images.map(async (img) => ...))].  Every callback
    runs at once up to its first [await], which is the [fetch] inside
    [urlToBase64]: all the downloads are started, in array order,
    before any of them is looked at.  The callbacks go on as the
    downloads settle; all that is traced then is one and the same
    warning for each download that failed, so the order of settling
    does not show in the trace, and the callbacks are finished here in
    array order. *)

(** The callback up to its first [await]. *)
Definition volc_image_started (img : jsstring)
  : M (option (Outcome ImageResponse)) :=
  if startsWith (js "data:image/") img then ret None
  else if startsWith (js "http") img then
    download <- start image_host (download_request img) ;;
    ret (Some download)
  else ret None.

(** The callback from there on. *)
Definition volc_image_finished (p : jsstring * option (Outcome ImageResponse))
  : M jsstring :=
  let '(img, download) := p in
  match download with
  | None => ret img
  | Some answer =>
      try_catch
        (r <- (response <- settled answer ;; urlToBase64_response response) ;;
         ret (js "data:" ++ snd r ++ js ";base64," ++ fst r))
        (fun _ => warn "VolcEngine" ;; ret img)
  end.

Definition volc_process_images (images : list jsstring) : M (list jsstring) :=
  downloads <- mapM volc_image_started images ;;
  mapM volc_image_finished (combine images downloads).

Definition volc_model (reqBody : ChatRequest) : jsstring :=
  pick_model (model reqBody) (supportedModels VolcCfg) (defaultModel VolcCfg).

Definition volc_size (reqBody : ChatRequest) (hasImages : bool) : jsstring :=
  opt_or (size reqBody)
         (if hasImages then defaultEditSize VolcCfg else defaultSize VolcCfg).

Definition arkRequest (reqBody : ChatRequest) (prompt : jsstring)
           (hasImages : bool) (processedImages : list jsstring) : JSON :=
  let model := volc_model reqBody in
  let size := volc_size reqBody hasImages in
  JObj ([(js "model", JStr model);
         (js "prompt", JStr (or_str prompt default_prompt));
         (js "response_format",
           JStr (opt_or (response_format reqBody) (js "b64_json")));
         (js "size", JStr size);
         (js "watermark", JBool false)]
        ++ (if hasImages then
              (js "image",
                match processedImages with
                | [one] => JStr one
                | _ => JArr (map JStr processedImages)
                end)
              :: (if Nat.ltb 1 (length processedImages)
                  then [(js "sequential_image_generation", JStr (js "disabled"))]
                  else [])
            else [])).

Definition handleVolcEngine (apiKey : jsstring) (reqBody : ChatRequest)
           (prompt : jsstring) (images : list jsstring) : M jsstring :=
  let hasImages := Nat.ltb 0 (length images) in
  logFullPrompt VolcEngine prompt ;;
  (if hasImages then logInputImages VolcEngine images else ret tt) ;;
  processedImages <- volc_process_images images ;;
  logImageGenerationStart VolcEngine (volc_model reqBody)
    (volc_size reqBody hasImages) (length prompt) ;;
  response <- call volc_api
    {| req_url := apiUrl VolcCfg;
       req_method := POST;
       req_headers := [json_content_type; bearer apiKey;
                       (js "Connection", js "close")];
       req_body := JsonBody
         (JSON_stringify (arkRequest reqBody prompt hasImages processedImages)) |} ;;
  if negb (ok response) then
    throw (VolcEngineApiError (status response) (text response))
  else
    data <- read_json response ;;
    let imageData := match data with Some d => d | None => [] end in
    ret (formatImages imageData).

(** ** Gitee: edit mode (multipart) or generate mode (JSON) *)

Definition gitee_finish (response : Response (option (list ImageDatum)))
  : M jsstring :=
  data <- read_json response ;;
  let imageData := match data with Some d => d | None => [] end in
  if Nat.eqb (length imageData) 0 then throw GiteeEmptyData
  else ret (giteeReturn (giteeResults imageData)).

Definition handleGitee (apiKey : jsstring) (reqBody : ChatRequest)
           (prompt : jsstring) (images : list jsstring) : M jsstring :=
  let hasImages := Nat.ltb 0 (length images) in
  logFullPrompt Gitee prompt ;;
  (if hasImages then logInputImages Gitee images else ret tt) ;;
  let size := opt_or (size reqBody)
                (if hasImages then g_defaultEditSize GiteeCfg
                 else g_defaultSize GiteeCfg) in
  if hasImages then
    let model := pick_model (model reqBody) (g_editModels GiteeCfg)
                            (interp (nth_error (g_editModels GiteeCfg) 0)) in
    logImageGenerationStart Gitee model size (length prompt) ;;
    info "Gitee" ;;
    let imageInput := hd [] images in
    input <-
      (if startsWith (js "data:image/") imageInput then
         let base64Data := nth_error (split 44 imageInput) 1 in
         let mimeType :=
           nth_error (split 58 (hd [] (split 59 imageInput))) 1 in
         info "Gitee" ;;
         ret (interp base64Data,
          match mimeType with Some t => t | None => [] end)
       else
         info "Gitee" ;;
         downloaded <- urlToBase64 imageInput ;;
         info "Gitee" ;;
         ret downloaded) ;;
    let '(base64Data, mimeType) := input in
    match atob base64Data with
    | None => throw (Rejected (js "InvalidCharacterError"))
    | Some binaryData =>
        debug "Gitee" ;;
        response <- call gitee_api
          {| req_url := g_editApiUrl GiteeCfg;
             req_method := POST;
             req_headers := [bearer apiKey];
             req_body := FormBody
               [(js "model", FormText model);
                (js "prompt", FormText (or_str prompt []));
                (js "size", FormText (g_defaultEditSize GiteeCfg));
                (js "n", FormText (js "1"));
                (js "response_format", FormText (js "b64_json"));
                (js "image", FormBlob binaryData mimeType (js "image.png"))] |} ;;
        if negb (ok response) then
          error "Gitee" ;;
          throw (GiteeEditApiError (status response) (text response))
        else gitee_finish response
    end
  else
    let model := pick_model (model reqBody) (g_supportedModels GiteeCfg)
                            (g_defaultModel GiteeCfg) in
    logImageGenerationStart Gitee model size (length prompt) ;;
    info "Gitee" ;;
    debug "Gitee" ;;
    response <- call gitee_api
      {| req_url := g_apiUrl GiteeCfg;
         req_method := POST;
         req_headers := [json_content_type; bearer apiKey];
         req_body := JsonBody
           (JSON_stringify
              (JObj [(js "model", JStr model);
                     (js "prompt", JStr (or_str prompt default_prompt));
                     (js "size", JStr size);
                     (js "n", JNum (of_N 1));
                     (js "response_format", JStr (js "b64_json"))])) |} ;;
    if negb (ok response) then
      error "Gitee" ;;
      throw (GiteeApiError (status response) (text response))
    else gitee_finish response.

(** ** ModelScope: submit, then poll *)

Definition maxAttempts : nat := 60.

Definition poll_request (apiKey : jsstring) (taskId : option jsstring)
  : HttpRequest :=
  {| req_url := apiUrl ModelScopeCfg ++ js "/tasks/" ++ interp taskId;
     req_method := GET;
     req_headers := [bearer apiKey;
                     (js "X-ModelScope-Task-Type", js "image_generation")];
     req_body := NoBody |}.

(** The iterations [i, i+1, ..., i+n-1] of the polling loop, and what
    follows the loop. *)
Fixpoint poll_loop (apiKey : jsstring) (taskId : option jsstring)
         (n i : nat) : M jsstring :=
  match n with
  | 0 =>
      error "ModelScope" ;;
      throw ModelScopeTaskTimeout
  | S n' =>
      emit (Sleep 5000) ;;
      checkResponse <- call modelscope_task (poll_request apiKey taskId) ;;
      if negb (ok checkResponse) then
        warn "ModelScope" ;;
        poll_loop apiKey taskId n' (S i)
      else
        checkData <- read_json checkResponse ;;
        match task_status checkData with
        | Some status =>
            if jsstring_eqb status (js "SUCCEED") then
              let imageUrls :=
                match output_images checkData with
                | Some l => l
                | None => []
                end in
              info "ModelScope" ;;
              ret (formatUrls imageUrls)
            else if jsstring_eqb status (js "FAILED") then
              error "ModelScope" ;;
              throw (ModelScopeTaskFailed checkData)
            else
              debug "ModelScope" ;;
              poll_loop apiKey taskId n' (S i)
        | None =>
            debug "ModelScope" ;;
            poll_loop apiKey taskId n' (S i)
        end
  end.

Definition handleModelScope (apiKey : jsstring) (reqBody : ChatRequest)
           (prompt : jsstring) : M jsstring :=
  logFullPrompt ModelScope prompt ;;
  let model := pick_model (model reqBody) (supportedModels ModelScopeCfg)
                          (defaultModel ModelScopeCfg) in
  let size := opt_or (size reqBody) (defaultSize ModelScopeCfg) in
  logImageGenerationStart ModelScope model size (length prompt) ;;
  submitResponse <- call modelscope_submit
    {| req_url := apiUrl ModelScopeCfg ++ js "/images/generations";
       req_method := POST;
       req_headers := [json_content_type; bearer apiKey;
                       (js "X-ModelScope-Async-Mode", js "true")];
       req_body := JsonBody
         (JSON_stringify
            (JObj [(js "model", JStr model);
                   (js "prompt", JStr (or_str prompt default_prompt));
                   (js "size", JStr size);
                   (js "n", JNum (of_N 1))])) |} ;;
  if negb (ok submitResponse) then
    throw (ModelScopeSubmitError (status submitResponse) (text submitResponse))
  else
    taskId <- read_json submitResponse ;;
    info "ModelScope" ;;
    poll_loop apiKey taskId maxAttempts 0.

(** ** HuggingFace: a pool of Gradio endpoints tried in order *)

(** ToString in a template literal. *)
Definition ToString (v : JSON) : jsstring :=
  match v with
  | JStr s => s
  | _ => ToString_other v
  end.

Definition truthy_val (o : option JSON) : bool :=
  match o with Some v => truthy v | None => false end.

(** [data && data[0] && data[0].url]: the value returned when the
    whole conjunction is truthy. *)
Definition first_url (data : JSON) : option JSON :=
  if truthy data then
    match index0 data with
    | Some d0 =>
        if truthy d0 then
          match get_url d0 with
          | Some u => if truthy u then Some u else None
          | None => None
          end
        else None
    | None => None
    end
  else None.

(** The body of [for (const line of lines)], with [isCompleteEvent] as
    the loop state; [None] is the final [return null]. *)
Fixpoint sse_loop (lines : list jsstring) (isCompleteEvent : bool)
  : M (option JSON) :=
  match lines with
  | [] => ret None
  | line :: rest =>
      if startsWith (js "event:") line then
        let eventType := trim (substring_from 6 line) in
        if jsstring_eqb eventType (js "complete") then sse_loop rest true
        else if jsstring_eqb eventType (js "error") then
          throw HuggingFaceErrorEvent
        else sse_loop rest false
      else if (startsWith (js "data:") line && isCompleteEvent)%bool then
        let jsonData := trim (substring_from 5 line) in
        match JSON_parse jsonData with
        | Some data =>
            match first_url data with
            | Some u => ret (Some u)
            | None => sse_loop rest isCompleteEvent
            end
        | None =>
            error "HuggingFace" ;;
            sse_loop rest isCompleteEvent
        end
      else sse_loop rest isCompleteEvent
  end.

Definition extractImageUrlFromSSE (sseStream : jsstring) : M (option JSON) :=
  sse_loop (split 10 sseStream) false.

(** [const [width, height] = size.split('x').map(Number)]; [None] is
    [undefined]. *)
Definition parse_size (size : jsstring) : option jsnum * option jsnum :=
  let parts := map Number (split 120 size) in
  (nth_error parts 0, nth_error parts 1).

(** [x || 1024] on a possibly undefined number. *)
Definition or_1024 (x : option jsnum) : jsnum :=
  match x with
  | Some v => if truthy_num v then v else of_N 1024
  | None => of_N 1024
  end.

Definition steps : N := 9.

(** The array under [data] in the queue request. *)
Definition hf_payload (reqBody : ChatRequest) (prompt : jsstring) : list JSON :=
  let size := opt_or (size reqBody) (hf_defaultSize HuggingFaceCfg) in
  let '(width, height) := parse_size size in
  [JStr (or_str prompt default_prompt);
   JNum (or_1024 height);
   JNum (or_1024 width);
   JNum (of_N steps);
   JNum (of_N seed);
   JBool false].

Definition hf_headers (apiKey : jsstring) : list (jsstring * jsstring) :=
  json_content_type :: (if truthy_str apiKey then [bearer apiKey] else []).

(** The [try] block for one URL. *)
Definition hf_attempt (apiKey : jsstring) (requestBody : JSON)
           (apiUrl : jsstring) : M jsstring :=
  queueResponse <- call hf_queue
    {| req_url := apiUrl ++ js "/gradio_api/call/generate_image";
       req_method := POST;
       req_headers := hf_headers apiKey;
       req_body := JsonBody requestBody |} ;;
  if negb (ok queueResponse) then
    throw (HuggingFaceApiError (status queueResponse) (text queueResponse))
  else
    event_id <- read_json queueResponse ;;
    info "HuggingFace" ;;
    resultResponse <- call hf_result
      {| req_url := apiUrl ++ js "/gradio_api/call/generate_image/"
                      ++ interp event_id;
         req_method := GET;
         req_headers := hf_headers apiKey;
         req_body := NoBody |} ;;
    if negb (ok resultResponse) then
      throw (HuggingFaceResultApiError (status resultResponse)
                                       (text resultResponse))
    else
      imageUrl <- extractImageUrlFromSSE (text resultResponse) ;;
      match imageUrl with
      | None => throw HuggingFaceNoImageUrl
      | Some u =>
          info "HuggingFace" ;;
          ret (js "![Generated Image](" ++ ToString u ++ js ")")
      end.

(** The loop over the pool, from the URLs still to try and the value
    of [lastError], and what follows the loop. *)
Fixpoint hf_failover (apiKey : jsstring) (requestBody : JSON)
         (urls : list jsstring) (lastError : option Err) : M jsstring :=
  match urls with
  | [] =>
      let err := match lastError with
                 | Some e => e
                 | None => HuggingFaceAllFailed
                 end in
      error "HuggingFace" ;;
      throw err
  | apiUrl :: rest =>
      info "HuggingFace" ;;
      r <- try_catch
             (x <- hf_attempt apiKey requestBody apiUrl ;; ret (inl x))
             (fun e =>
                error "HuggingFace" ;;
                (if Nat.eqb (length rest) 0 then ret tt
                 else info "HuggingFace") ;;
                ret (inr e)) ;;
      match r with
      | inl x => ret x
      | inr e => hf_failover apiKey requestBody rest (Some e)
      end
  end.

Definition handleHuggingFace (apiKey : jsstring) (reqBody : ChatRequest)
           (prompt : jsstring) (images : list jsstring) : M jsstring :=
  logFullPrompt HuggingFace prompt ;;
  (if Nat.ltb 0 (length images) then logInputImages HuggingFace images
   else ret tt) ;;
  let model := pick_model (model reqBody) (hf_supportedModels HuggingFaceCfg)
                          (hf_defaultModel HuggingFaceCfg) in
  let size := opt_or (size reqBody) (hf_defaultSize HuggingFaceCfg) in
  logImageGenerationStart HuggingFace model size (length prompt) ;;
  (if Nat.ltb 0 (length images) then warn "HuggingFace" else ret tt) ;;
  let requestBody :=
    JSON_stringify (JObj [(js "data", JArr (hf_payload reqBody prompt))]) in
  let apiUrls := apiUrls HuggingFaceCfg in
  if Nat.eqb (length apiUrls) 0 then
    error "HuggingFace" ;;
    throw HuggingFaceConfigError
  else
    info "HuggingFace" ;;
    hf_failover apiKey requestBody apiUrls None.

(** ** The entry point *)

(** What [handleChatCompletions] reads from the [Request]: the path,
    the [Authorization] header, and the JSON body ([None] when
    [req.json()] rejects). *)
Record Request : Type := {
  pathname : jsstring;
  authorization : option jsstring;
  body : option ChatRequest
}.

(** One [controller.enqueue] of the streamed body: [data: <json>] or
    the terminal [data: [DONE]]. *)
Inductive Frame : Type :=
| DataFrame (text : JSON)
| DoneFrame.

Inductive ResponseBody : Type :=
| BodyJson (text : JSON)
| BodyStream (frames : list Frame)
(** [{ error: { message: err.message, type: "server_error", provider } }] *)
| BodyError (e : Err) (provider : Provider).

Record HttpResponse : Type := {
  resp_status : N;
  resp_content_type : jsstring;
  resp_body : ResponseBody
}.

(** [crypto.randomUUID()] and [Math.floor(Date.now() / 1000)] (one
    reading per response). *)
Variable randomUUID : jsstring.
Variable created : N.

(** [s.replace(pat, "")] for a string pattern: the first occurrence
    is removed. *)
Fixpoint remove_first (pat s : jsstring) : jsstring :=
  if startsWith pat s then skipn (length pat) s
  else match s with
       | [] => []
       | c :: s' => c :: remove_first pat s'
       end.

Definition json_response (st : N) (v : JSON) : HttpResponse :=
  {| resp_status := st;
     resp_content_type := js "application/json";
     resp_body := BodyJson (JSON_stringify v) |}.

Definition chunk (responseId modelName : jsstring) (delta finish_reason : JSON)
  : JSON :=
  JObj [(js "id", JStr responseId);
        (js "object", JStr (js "chat.completion.chunk"));
        (js "created", JNum (of_N created));
        (js "model", JStr modelName);
        (js "choices",
          JArr [JObj [(js "index", JNum (of_N 0));
                      (js "delta", delta);
                      (js "finish_reason", finish_reason)]])].

(** The streamed envelope: the content chunk, the end chunk, [DONE]. *)
Definition stream_envelope (responseId modelName imageContent : jsstring)
  : HttpResponse :=
  {| resp_status := 200;
     resp_content_type := js "text/event-stream";
     resp_body := BodyStream
       [DataFrame (JSON_stringify
                     (chunk responseId modelName
                        (JObj [(js "role", JStr (js "assistant"));
                               (js "content", JStr imageContent)])
                        JNull));
        DataFrame (JSON_stringify
                     (chunk responseId modelName (JObj [])
                        (JStr (js "stop"))));
        DoneFrame] |}.

Definition json_envelope (responseId modelName imageContent : jsstring)
  : HttpResponse :=
  json_response 200
    (JObj [(js "id", JStr responseId);
           (js "object", JStr (js "chat.completion"));
           (js "created", JNum (of_N created));
           (js "model", JStr modelName);
           (js "choices",
             JArr [JObj [(js "index", JNum (of_N 0));
                         (js "message",
                           JObj [(js "role", JStr (js "assistant"));
                                 (js "content", JStr imageContent)]);
                         (js "finish_reason", JStr (js "stop"))]]);
           (js "usage",
             JObj [(js "prompt_tokens", JNum (of_N 0));
                   (js "completion_tokens", JNum (of_N 0));
                   (js "total_tokens", JNum (of_N 0))])]).

(** [requestBody.stream === true] *)
Definition isStream (requestBody : ChatRequest) : bool :=
  match stream requestBody with Some true => true | _ => false end.

Definition envelope (requestBody : ChatRequest) (imageContent : jsstring)
  : HttpResponse :=
  let responseId := js "chatcmpl-" ++ randomUUID in
  let modelName := opt_or (model requestBody) (js "unknown-model") in
  if isStream requestBody then stream_envelope responseId modelName imageContent
  else json_envelope responseId modelName imageContent.

(** The [switch (provider)] with the extraction before it. *)
Definition generate (provider : Provider) (apiKey : jsstring)
           (requestBody : ChatRequest) : M jsstring :=
  let ex := extractPromptAndImages
              (match messages requestBody with Some l => l | None => [] end) in
  debug "Router" ;;
  match provider with
  | VolcEngine => handleVolcEngine apiKey requestBody (prompt ex) (images ex)
  | Gitee => handleGitee apiKey requestBody (prompt ex) (images ex)
  | ModelScope => handleModelScope apiKey requestBody (prompt ex)
  | HuggingFace => handleHuggingFace apiKey requestBody (prompt ex) (images ex)
  | Unknown => ret []
  end.

Definition handleChatCompletions (req : Request) : M HttpResponse :=
  if (jsstring_eqb (pathname req) (js "/")
      || jsstring_eqb (pathname req) (js "/health"))%bool then
    ret (json_response 200
           (JObj [(js "status", JStr (js "ok"));
                  (js "service", JStr (js "img-router"))]))
  else if negb (jsstring_eqb (pathname req) (js "/v1/chat/completions")) then
    warn "HTTP" ;;
    ret (json_response 404 (JObj [(js "error", JStr (js "Not found"))]))
  else
    let apiKey :=
      match authorization req with
      | Some authHeader => Some (trim (remove_first (js "Bearer ") authHeader))
      | None => None
      end in
    if negb (truthy_opt apiKey) then
      warn "HTTP" ;;
      ret (json_response 401
             (JObj [(js "error", JStr (js "Authorization header missing"))]))
    else
      let apiKey := interp apiKey in
      provider <- Router.detectProvider apiKey ;;
      if Provider_eq_dec provider Unknown then
        warn "HTTP" ;;
        ret (json_response 401
               (JObj [(js "error",
                       JStr (js "Invalid API Key format. Could not detect provider."))]))
      else
        info "HTTP" ;;
        try_catch
          (requestBody <-
             match body req with
             | Some b => ret b
             | None => throw (Rejected (js "SyntaxError"))
             end ;;
           imageContent <- generate provider apiKey requestBody ;;
           info "HTTP" ;;
           ret (envelope requestBody imageContent))
          (fun err =>
             error "Proxy" ;;
             ret {| resp_status := 500;
                    resp_content_type := js "application/json";
                    resp_body := BodyError err provider |}).

End Handlers.

End Adapters.

(* ================================================================== *)
(** * Specifications *)
(* ================================================================== *)

(** The routing rules as the design document words them. *)
Module RouterSpec.

Definition HasPrefix (p s : jsstring) : Prop := exists t, s = p ++ t.

Definition IsHex (c : N) : Prop :=
  (48 <= c <= 57 \/ 97 <= c <= 102 \/ 65 <= c <= 70)%N.

Definition IsAlnum (c : N) : Prop :=
  (97 <= c <= 122 \/ 65 <= c <= 90 \/ 48 <= c <= 57)%N.

Definition HexGroup (n : nat) (g : jsstring) : Prop :=
  length g = n /\ Forall IsHex g.

(** 8-4-4-4-12 hexadecimal groups separated by hyphens, either case. *)
Definition CanonicalUuid (s : jsstring) : Prop :=
  exists g1 g2 g3 g4 g5,
    s = g1 ++ js "-" ++ g2 ++ js "-" ++ g3 ++ js "-" ++ g4 ++ js "-" ++ g5
    /\ HexGroup 8 g1 /\ HexGroup 4 g2 /\ HexGroup 4 g3 /\ HexGroup 4 g4
    /\ HexGroup 12 g5.

(** The whole string is 30 to 60 letters and digits. *)
Definition Alnum30to60 (s : jsstring) : Prop :=
  30 <= length s <= 60 /\ Forall IsAlnum s.

(** The six rules, each applying only when no earlier one does. *)
Inductive Classify : jsstring -> Provider -> Prop :=
| rule_empty : Classify [] Unknown
| rule_hf s :
    s <> [] -> HasPrefix (js "hf_") s -> Classify s HuggingFace
| rule_ms s :
    s <> [] -> ~ HasPrefix (js "hf_") s -> HasPrefix (js "ms-") s ->
    Classify s ModelScope
| rule_uuid s :
    s <> [] -> ~ HasPrefix (js "hf_") s -> ~ HasPrefix (js "ms-") s ->
    CanonicalUuid s -> Classify s VolcEngine
| rule_gitee s :
    s <> [] -> ~ HasPrefix (js "hf_") s -> ~ HasPrefix (js "ms-") s ->
    ~ CanonicalUuid s -> Alnum30to60 s -> Classify s Gitee
| rule_other s :
    s <> [] -> ~ HasPrefix (js "hf_") s -> ~ HasPrefix (js "ms-") s ->
    ~ CanonicalUuid s -> ~ Alnum30to60 s -> Classify s Unknown.

End RouterSpec.

(** What a pattern can match, read off its syntax: [Matches r i m t c c']
    says that [r] matches the text [m] at index [i], with [t] the input
    behind it, turning the capture [c] into [c'].  (Which of several
    matches the matcher picks is not part of this relation.) *)
Module RegexSpec.

Definition within (n : nat) (hi : option nat) : Prop :=
  match hi with Some h => n <= h | None => True end.

Inductive Matches :
  regex -> nat -> jsstring -> jsstring -> option jsstring -> option jsstring -> Prop :=
| m_bol t c : Matches RBol 0 [] t c c
| m_eol i c : Matches REol i [] [] c c
| m_str l i t c : Matches (RStr l) i l t c c
| m_set (p : N -> bool) i x t c : p x = true -> Matches (RSet p) i [x] t c c
| m_seq r1 r2 i m1 m2 t c c1 c2 :
    Matches r1 i m1 (m2 ++ t) c c1 ->
    Matches r2 (i + length m1) m2 t c1 c2 ->
    Matches (RSeq r1 r2) i (m1 ++ m2) t c c2
| m_alt_l r1 r2 i m t c c' :
    Matches r1 i m t c c' -> Matches (RAlt r1 r2) i m t c c'
| m_alt_r r1 r2 i m t c c' :
    Matches r2 i m t c c' -> Matches (RAlt r1 r2) i m t c c'
| m_rep g lo hi (p : N -> bool) i m t c :
    forallb p m = true -> lo <= length m -> within (length m) hi ->
    Matches (RRep g lo hi p) i m t c c
| m_group r i m t c c' :
    Matches r i m t c c' -> Matches (RGroup r) i m t c (Some m).

End RegexSpec.

(** The transcript rules as the design document words them. *)
Module ExtractorSpec.
Import Extractor.

Definition IsUser (m : Message) : Prop := role m = js "user".

(** [u] is the last user message: [before] are the messages strictly
    before its index [L = length before], [after] the ones behind. *)
Definition LastUser (messages before : list Message) (u : Message)
           (after : list Message) : Prop :=
  messages = before ++ u :: after /\ IsUser u /\ Forall (fun m => ~ IsUser m) after.

(** The images the latest user message supplies itself. *)
Definition current_images (u : Message) : list jsstring :=
  match content u with
  | ContentArray items => image_urls items
  | _ => []
  end.

(** The first non-empty set of a sequence of image sets. *)
Fixpoint first_nonempty (sets : list (list jsstring)) : list jsstring :=
  match sets with
  | [] => []
  | [] :: rest => first_nonempty rest
  | (x :: xs) :: _ => x :: xs
  end.

(** Walking back from index [L - 1]: the image set of the first
    message that has one. *)
Definition historical (before : list Message) : list jsstring :=
  first_nonempty (rev (map (fun m => foundInMsg (content m)) before)).

(** The historical images not yet in the list, in historical order:
    not among [seen], and each kept only once. *)
Fixpoint fresh (seen hist : list jsstring) : list jsstring :=
  match hist with
  | [] => []
  | h :: rest =>
      if includes h seen then fresh seen rest
      else h :: fresh (seen ++ [h]) rest
  end.

(** The historical images that are not equal to any current entry. *)
Definition not_in_current (cur hist : list jsstring) : list jsstring :=
  filter (fun h => negb (includes h cur)) hist.


(** A markdown image in a text: [![alt](target)] with a target that
    starts with [http://], [https://] or [data:image/], goes on with at
    least one more character and holds no closing parenthesis after
    that start. *)
Definition MarkdownImage (text target : jsstring) : Prop :=
  exists pre alt post start more,
    text = pre ++ js "![" ++ alt ++ js "](" ++ target ++ js ")" ++ post
    /\ target = start ++ more
    /\ (start = js "http://" \/ start = js "https://" \/ start = js "data:image/")
    /\ more <> []
    /\ ~ In 41%N more.

(** Where an image of a message's image set comes from. *)
Definition ImageOf (m : Message) (img : jsstring) : Prop :=
  match content m with
  | ContentString text => MarkdownImage text img
  | ContentArray items => In (ImageUrlContentItem (Some img)) items /\ img <> []
  | ContentOther => False
  end.

(** Sample transcripts. *)
Definition img_a : jsstring := js "http://a".
Definition img_b : jsstring := js "http://b".
Definition img_c : jsstring := js "http://c".

Definition assistant_bc : Message :=
  {| role := js "assistant";
     content := ContentString (js "one ![x](http://b) two ![y](http://c)") |}.

Definition assistant_bb : Message :=
  {| role := js "assistant";
     content := ContentString (js "![x](http://b) ![y](http://b)") |}.

Definition user_a : Message :=
  {| role := js "user";
     content := ContentArray [TextContentItem (js "blend them");
                              ImageUrlContentItem (Some img_a)] |}.

Definition user_aa : Message :=
  {| role := js "user";
     content := ContentArray [ImageUrlContentItem (Some img_a);
                              ImageUrlContentItem (Some img_a)] |}.

End ExtractorSpec.

(** The response normalizer as the design document words it. *)
Module NormalizerSpec.
Import Adapters.

Definition markdown_inline (mime data : jsstring) : jsstring :=
  js "![Generated Image](data:" ++ mime ++ js ";base64," ++ data ++ js ")".

Definition markdown_url (u : jsstring) : jsstring :=
  js "![Generated Image](" ++ u ++ js ")".

(** The formatted entry of one image, inline data first; [None] when
    the image has neither inline data nor a URL. *)
Definition entry (img : ImageDatum) : option jsstring :=
  match b64_json img, url img with
  | Some (c :: data), _ => Some (markdown_inline (js "image/png") (c :: data))
  | _, Some (c :: u) => Some (markdown_url (c :: u))
  | _, _ => None
  end.

Fixpoint entries (imageData : list ImageDatum) : list jsstring :=
  match imageData with
  | [] => []
  | img :: rest =>
      match entry img with
      | Some e => e :: entries rest
      | None => entries rest
      end
  end.

(** Entries joined by a blank line, or the placeholder when there is
    nothing to join. *)
Definition normalize (imageData : list ImageDatum) : jsstring :=
  match entries imageData with
  | [] => failure_placeholder
  | es => join newline2 es
  end.

End NormalizerSpec.

(** The SSE parser as the design document words it: a machine whose
    state is the type of the most recently seen [event:] line. *)
Module SseSpec.
Import Adapters.

Inductive Line : Type :=
| EventLine (type : jsstring)
| DataLine (payload : jsstring)
| OtherLine.

Definition classify_line (line : jsstring) : Line :=
  if startsWith (js "event:") line then EventLine (trim (skipn 6 line))
  else if startsWith (js "data:") line then DataLine (trim (skipn 5 line))
  else OtherLine.

Section Machine.
Variable JSON_parse : jsstring -> option JSON.

Fixpoint sse_machine (last_event : option jsstring) (lines : list jsstring)
  : Outcome (option JSON) :=
  match lines with
  | [] => Ok None
  | line :: rest =>
      match classify_line line with
      | EventLine type =>
          if jsstring_eqb type (js "error") then Throw HuggingFaceErrorEvent
          else sse_machine (Some type) rest
      | DataLine payload =>
          match last_event with
          | Some type =>
              if jsstring_eqb type (js "complete") then
                match JSON_parse payload with
                | Some data =>
                    match first_url data with
                    | Some u => Ok (Some u)
                    | None => sse_machine last_event rest
                    end
                | None => sse_machine last_event rest
                end
              else sse_machine last_event rest
          | None => sse_machine last_event rest
          end
      | OtherLine => sse_machine last_event rest
      end
  end.
End Machine.

(** The flag of the source, as a function of the machine's state. *)
Definition awaiting (last_event : option jsstring) : bool :=
  match last_event with
  | Some type => jsstring_eqb type (js "complete")
  | None => false
  end.

(** A toy [JSON.parse] that knows two payloads. *)
Definition quote : jsstring := [34%N].

(** The text [[{"url": "https://img"}]]. *)
Definition sample_payload : jsstring :=
  js "[{" ++ quote ++ js "url" ++ quote ++ js ": "
  ++ quote ++ js "https://img" ++ quote ++ js "}]".

Definition sample_parse (s : jsstring) : option JSON :=
  if jsstring_eqb s sample_payload then
    Some (JArr [JObj [(js "url", JStr (js "https://img"))]])
  else if jsstring_eqb s (js "null") then Some JNull
  else None.

(** A heartbeat event with a payload, then a complete event (with a
    carriage return before the line feed) followed by a junk data line
    and the payload. *)
Definition sample_stream : jsstring :=
  js "event: heartbeat" ++ [10%N] ++ js "data: " ++ sample_payload
  ++ [10%N] ++ js "event: complete" ++ [13%N; 10%N] ++ js "data: junk"
  ++ [10%N] ++ js "data: " ++ sample_payload ++ [10%N].

End SseSpec.

(** The polling loop as the design document words it: one rule per
    sentence. *)
Module PollSpec.
Import Adapters Config.

Definition is_fetch (ev : Event) : bool :=
  match ev with Fetch _ => true | _ => false end.

(** The number of outbound calls in a trace. *)
Definition count_fetches (tr : Trace) : nat := length (filter is_fetch tr).

Section Runs.
Variable cfg : ProviderConfig.
Variable oracle : Oracle (Response CheckData).
Variable apiKey : jsstring.
Variable taskId : option jsstring.

(** The poll: a GET against the task identifier, under the API root,
    with the credential as the bearer token. *)
Definition the_poll : HttpRequest :=
  {| req_url := apiUrl cfg ++ js "/tasks/"
                  ++ match taskId with Some t => t | None => js "undefined" end;
     req_method := GET;
     req_headers := [(js "Authorization", js "Bearer " ++ apiKey);
                     (js "X-ModelScope-Task-Type", js "image_generation")];
     req_body := NoBody |}.

Definition reported_urls (cd : CheckData) : list jsstring :=
  match output_images cd with Some l => l | None => [] end.

(** One poll: sleep five seconds, then issue the GET. *)
Definition round (tr : Trace) : Trace := tr ++ [Sleep 5000; Fetch the_poll].

(** The answer to the poll issued after the trace [tr]. *)
Definition answer (tr : Trace) : Outcome (Response CheckData) :=
  oracle (tr ++ [Sleep 5000]) the_poll.

(** [PollRun n tr out tr' k]: with [n] attempts left and the trace [tr]
    so far, the loop ends with [out] and the trace [tr'] after [k]
    polls. *)
Inductive PollRun : nat -> Trace -> Outcome jsstring -> Trace -> nat -> Prop :=
| poll_exhausted tr :
    PollRun 0 tr (Throw ModelScopeTaskTimeout) (tr ++ [Log Error "ModelScope"]) 0
| poll_http_error n tr r out tr' k :
    answer tr = Ok r -> ok r = false ->
    PollRun n (round tr ++ [Log Warn "ModelScope"]) out tr' k ->
    PollRun (S n) tr out tr' (S k)
| poll_succeed n tr r cd :
    answer tr = Ok r -> ok r = true -> json r = Some cd ->
    task_status cd = Some (js "SUCCEED") ->
    PollRun (S n) tr (Ok (formatUrls (reported_urls cd)))
            (round tr ++ [Log Info "ModelScope"]) 1
| poll_failed n tr r cd :
    answer tr = Ok r -> ok r = true -> json r = Some cd ->
    task_status cd = Some (js "FAILED") ->
    PollRun (S n) tr (Throw (ModelScopeTaskFailed cd))
            (round tr ++ [Log Error "ModelScope"]) 1
| poll_other_status n tr r cd out tr' k :
    answer tr = Ok r -> ok r = true -> json r = Some cd ->
    task_status cd <> Some (js "SUCCEED") ->
    task_status cd <> Some (js "FAILED") ->
    PollRun n (round tr ++ [Log Debug "ModelScope"]) out tr' k ->
    PollRun (S n) tr out tr' (S k)
| poll_rejected n tr e :
    answer tr = Throw e ->
    PollRun (S n) tr (Throw e) (round tr) 1
| poll_bad_json n tr r :
    answer tr = Ok r -> ok r = true -> json r = None ->
    PollRun (S n) tr (Throw (Rejected (js "SyntaxError"))) (round tr) 1.

(** The statuses seen by the first [k] polls were all non-terminal. *)
Inductive AllPending : nat -> Trace -> Trace -> Prop :=
| pending_nil tr : AllPending 0 tr tr
| pending_http n tr tr' r :
    answer tr = Ok r -> ok r = false ->
    AllPending n (round tr ++ [Log Warn "ModelScope"]) tr' ->
    AllPending (S n) tr tr'
| pending_status n tr tr' r cd :
    answer tr = Ok r -> ok r = true -> json r = Some cd ->
    task_status cd <> Some (js "SUCCEED") ->
    task_status cd <> Some (js "FAILED") ->
    AllPending n (round tr ++ [Log Debug "ModelScope"]) tr' ->
    AllPending (S n) tr tr'.
End Runs.

(** The GET calls of a trace: the polls of a handler run. *)
Definition is_poll (ev : Event) : bool :=
  match ev with
  | Fetch r => match req_method r with GET => true | POST => false end
  | _ => false
  end.

Definition count_polls (tr : Trace) : nat := length (filter is_poll tr).

(** The submission as the handler's caller sees it: accepted, with the
    task identifier it carries. *)
Definition accepted (r : Response (option jsstring)) (taskId : option jsstring)
  : Prop :=
  ok r = true /\ json r = Some taskId.

(** Fake backends: the status payloads, and a task that never leaves
    the running state. *)
Definition status_response (st : string) (urls : option (list jsstring))
  : Response CheckData :=
  {| ok := true; status := 200; text := [];
     json := Some {| task_status := Some (js st); output_images := urls |} |}.

Definition always_pending : Oracle (Response CheckData) :=
  fun _ _ => Ok (status_response "RUNNING" None).

(** The same backends behind the whole handler: a submission endpoint
    that accepts every job as task [t-1], and a task that is pending
    for the first three polls whatever else the trace holds. *)
Definition submit_accepts : Oracle (Response (option jsstring)) :=
  fun _ _ =>
    Ok {| ok := true; status := 200; text := [];
          json := Some (Some (js "t-1")) |}.

Definition three_polls_pending : Oracle (Response CheckData) :=
  fun tr _ =>
    if Nat.ltb (count_polls tr) 3 then Ok (status_response "PENDING" None)
    else Ok (status_response "SUCCEED" (Some [js "https://cdn/img.png"])).

(** A request body with no fields set. *)
Definition plain_request : ChatRequest :=
  {| model := None; messages := None; stream := None; size := None;
     response_format := None |}.

End PollSpec.

(** The failover loop as the design document words it. *)
Module FailoverSpec.
Import Adapters Config.

(** The URLs of the POST calls of a trace, in order. *)
Definition post_urls (tr : Trace) : list jsstring :=
  flat_map (fun ev =>
              match ev with
              | Fetch r =>
                  match req_method r with
                  | POST => [req_url r]
                  | GET => []
                  end
              | _ => []
              end) tr.

(** Where the job for a base URL is submitted. *)
Definition queue_url (apiUrl : jsstring) : jsstring :=
  apiUrl ++ js "/gradio_api/call/generate_image".

Section Runs.
(** The submit, fetch and parse sequence for one URL. *)
Variable attempt : jsstring -> M jsstring.

Definition or_generic (lastError : option Err) : Err :=
  match lastError with Some e => e | None => HuggingFaceAllFailed end.

(** The trace after a failed attempt has been recorded. *)
Definition recorded (tr1 : Trace) (rest : list jsstring) : Trace :=
  tr1 ++ [Log Error "HuggingFace"]
      ++ match rest with [] => [] | _ :: _ => [Log Info "HuggingFace"] end.

(** [Failover pool last tr out tr' tried]: from the URLs [pool] still
    to try, the recorded error [last] and the trace [tr], the loop ends
    with [out] and [tr'] after attempting the URLs [tried]. *)
Inductive Failover :
  list jsstring -> option Err -> Trace -> Outcome jsstring -> Trace ->
  list jsstring -> Prop :=
| failover_exhausted last tr :
    Failover [] last tr (Throw (or_generic last))
             (tr ++ [Log Error "HuggingFace"]) []
| failover_success u rest last tr x tr1 :
    attempt u (tr ++ [Log Info "HuggingFace"]) = (Ok x, tr1) ->
    Failover (u :: rest) last tr (Ok x) tr1 [u]
| failover_next u rest last tr e tr1 out tr' tried :
    attempt u (tr ++ [Log Info "HuggingFace"]) = (Throw e, tr1) ->
    Failover rest (Some e) (recorded tr1 rest) out tr' tried ->
    Failover (u :: rest) last tr out tr' (u :: tried).

(** Every URL of [urls] raises when its turn comes: [AllRaise urls rest
    last tr last' tr'] leads from [last] and [tr] to the recorded error
    [last'] and the trace [tr'], with [rest] the URLs after [urls]. *)
Inductive AllRaise :
  list jsstring -> list jsstring -> option Err -> Trace -> option Err ->
  Trace -> Prop :=
| raise_nil rest last tr : AllRaise [] rest last tr last tr
| raise_cons u urls rest last tr e tr1 last' tr' :
    attempt u (tr ++ [Log Info "HuggingFace"]) = (Throw e, tr1) ->
    AllRaise urls rest (Some e) (recorded tr1 (urls ++ rest)) last' tr' ->
    AllRaise (u :: urls) rest last tr last' tr'.
End Runs.

(** Fake endpoints: a pool of three, of which the first answers 500 to
    the submission, the second accepts it but streams an error event,
    and the third delivers. *)
Definition url1 : jsstring := js "https://one".
Definition url2 : jsstring := js "https://two".
Definition url3 : jsstring := js "https://three".

Definition pool3 : HuggingFaceProviderConfig :=
  {| apiUrls := [url1; url2; url3];
     hf_defaultModel := js "z-image-turbo";
     hf_defaultSize := js "1024x1024";
     hf_defaultEditSize := js "1024x1024";
     hf_supportedModels := [js "z-image-turbo"] |}.

Definition empty_pool : HuggingFaceProviderConfig :=
  {| apiUrls := [];
     hf_defaultModel := js "z-image-turbo";
     hf_defaultSize := js "1024x1024";
     hf_defaultEditSize := js "1024x1024";
     hf_supportedModels := [js "z-image-turbo"] |}.

Definition queue_first_down : Oracle (Response (option jsstring)) :=
  fun _ req =>
    if startsWith url1 (req_url req) then
      Ok {| ok := false; status := 500; text := js "down"; json := None |}
    else
      Ok {| ok := true; status := 200; text := [];
            json := Some (Some (js "ev42")) |}.

Definition result_third_delivers : Oracle (Response unit) :=
  fun _ req =>
    if startsWith url3 (req_url req) then
      Ok {| ok := true; status := 200;
            text := js "event: complete" ++ [10%N] ++ js "data: "
                    ++ SseSpec.sample_payload ++ [10%N];
            json := None |}
    else
      Ok {| ok := true; status := 200;
            text := js "event: error" ++ [10%N] ++ js "data: null" ++ [10%N];
            json := None |}.

Definition result_all_fail : Oracle (Response unit) :=
  fun _ req =>
    if startsWith url3 (req_url req) then
      Ok {| ok := false; status := 503; text := js "busy"; json := None |}
    else
      Ok {| ok := true; status := 200;
            text := js "event: error" ++ [10%N] ++ js "data: null" ++ [10%N];
            json := None |}.

(** A request body with no fields set. *)
Definition bare_request : ChatRequest :=
  {| model := None; messages := None; stream := None; size := None;
     response_format := None |}.

End FailoverSpec.

(** What goes over the wire for a value handed to [JSON.stringify]. *)
Module WireSpec.

(** A Number in a JSON text: a finite one is written as itself (minus
    zero as zero); Infinity, -Infinity and NaN are written [null]. *)
Definition written (x : jsnum) : JSON :=
  match x with
  | S754_nan | S754_infinity _ => JNull
  | S754_zero _ => JNum (S754_zero false)
  | S754_finite _ _ _ => JNum x
  end.

(** The outbound requests of a trace, in order. *)
Definition requests (tr : Trace) : list HttpRequest :=
  flat_map (fun ev => match ev with Fetch r => [r] | _ => [] end) tr.

(** The bodies of the POST requests of a trace, in order. *)
Definition posted (tr : Trace) : list Body :=
  flat_map (fun r => match req_method r with
                     | POST => [req_body r]
                     | GET => []
                     end) (requests tr).

End WireSpec.

(** The image size sent to a Gradio endpoint. *)
Module SizeSpec.
Import Adapters Config WireSpec.

(** [reqBody.size || HuggingFaceConfig.defaultSize] *)
Definition resolved_size (cfg : HuggingFaceProviderConfig) (reqBody : ChatRequest)
  : jsstring :=
  opt_or (size reqBody) (hf_defaultSize cfg).

(** The dimension taken from the [i]-th piece of the size string
    between [x] separators: its Number value when that is truthy, and
    1024 when the piece is missing or its value is NaN or zero. *)
Definition dimension (size : jsstring) (i : nat) : jsnum :=
  match nth_error (split 120 size) i with
  | Some part => if truthy_num (Number part) then Number part else of_N 1024
  | None => of_N 1024
  end.

Definition sized (s : string) : ChatRequest :=
  {| model := None; messages := None; stream := None; size := Some (js s);
     response_format := None |}.

(** The JSON text submitted to a Gradio endpoint: the object whose
    [data] is the prompt, the height, the width, the step count, the
    seed and [false]. *)
Definition submitted (seed : N) (cfg : HuggingFaceProviderConfig)
           (reqBody : ChatRequest) (prompt : jsstring) : Body :=
  let size := resolved_size cfg reqBody in
  JsonBody
    (JObj [(js "data",
            JArr [JStr (if truthy_str prompt then prompt
                        else js "A beautiful scenery");
                  written (dimension size 1);
                  written (dimension size 0);
                  JNum (of_N 9);
                  written (of_N seed);
                  JBool false])]).

(** A dimension as it is written: a finite Number other than zero, or
    [null]. *)
Definition finite_nonzero_or_null (v : JSON) : Prop :=
  v = JNull
  \/ exists x, v = JNum x /\ is_finite x = true /\ truthy_num x = true.

End SizeSpec.

(** The dispatcher and the [stream] flag. *)
Module StreamSpec.
Import Adapters WireSpec.

(** The same request body with another [stream] value. *)
Definition with_stream (rb : ChatRequest) (s : option bool) : ChatRequest :=
  {| model := model rb;
     messages := messages rb;
     stream := s;
     size := size rb;
     response_format := response_format rb |}.

Definition with_body (req : Request) (rb : option ChatRequest) : Request :=
  {| pathname := pathname req;
     authorization := authorization req;
     body := rb |}.

(** The outbound requests of a trace, in order. *)
Definition outbound (tr : Trace) : list HttpRequest :=
  flat_map (fun ev => match ev with Fetch r => [r] | _ => [] end) tr.

(** The routing decisions of a trace. *)
Definition routed (tr : Trace) : list Provider :=
  flat_map (fun ev => match ev with ProviderRouting p _ => [p] | _ => [] end) tr.

(** [stream === true] *)
Definition wants_stream (s : option bool) : bool :=
  match s with Some true => true | Some false | None => false end.

(** The two envelopes of an image content, written out.  A chunk
    object of the streamed one: *)
Definition chunk_object (id : jsstring) (created : N) (model : jsstring)
           (delta finish_reason : JSON) : JSON :=
  JObj [(js "id", JStr id);
        (js "object", JStr (js "chat.completion.chunk"));
        (js "created", written (of_N created));
        (js "model", JStr model);
        (js "choices",
          JArr [JObj [(js "index", JNum (of_N 0));
                      (js "delta", delta);
                      (js "finish_reason", finish_reason)]])].

(** The streamed envelope: a chunk carrying the content, an end chunk,
    and the terminal marker. *)
Definition sse_wrapped (id : jsstring) (created : N) (model content : jsstring)
  : HttpResponse :=
  {| resp_status := 200;
     resp_content_type := js "text/event-stream";
     resp_body := BodyStream
       [DataFrame (chunk_object id created model
                     (JObj [(js "role", JStr (js "assistant"));
                            (js "content", JStr content)])
                     JNull);
        DataFrame (chunk_object id created model (JObj [])
                     (JStr (js "stop")));
        DoneFrame] |}.

(** The plain envelope: one completion object carrying the content. *)
Definition json_wrapped (id : jsstring) (created : N) (model content : jsstring)
  : HttpResponse :=
  {| resp_status := 200;
     resp_content_type := js "application/json";
     resp_body := BodyJson
       (JObj [(js "id", JStr id);
              (js "object", JStr (js "chat.completion"));
              (js "created", written (of_N created));
              (js "model", JStr model);
              (js "choices",
                JArr [JObj [(js "index", JNum (of_N 0));
                            (js "message",
                              JObj [(js "role", JStr (js "assistant"));
                                    (js "content", JStr content)]);
                            (js "finish_reason", JStr (js "stop"))]]);
              (js "usage",
                JObj [(js "prompt_tokens", JNum (of_N 0));
                      (js "completion_tokens", JNum (of_N 0));
                      (js "total_tokens", JNum (of_N 0))])]) |}.

Definition wrapped (streaming : bool) (id : jsstring) (created : N)
           (model content : jsstring) : HttpResponse :=
  if streaming then sse_wrapped id created model content
  else json_wrapped id created model content.

(** The messages of a request body, [requestBody.messages || []]. *)
Definition messages_of (rb : ChatRequest) : list Extractor.Message :=
  match messages rb with Some l => l | None => [] end.

(** The path of the completions endpoint. *)
Definition completions_path : jsstring := js "/v1/chat/completions".

End StreamSpec.

(* ================================================================== *)
(** * Further specifications *)
(* ================================================================== *)

(** More on the transcript scanner. *)
Module ExtractorMore.
Import Extractor ExtractorSpec.

(** The prompt a user message carries. *)
Definition prompt_of (u : Message) : jsstring :=
  match content u with
  | ContentString s => s
  | ContentArray items => first_text items
  | ContentOther => []
  end.

Definition no_images (m : Message) : Prop := foundInMsg (content m) = [].

(** Sample messages: an old image-bearing message, and two messages
    without images around the latest user message. *)
Definition older_d : Message :=
  {| role := js "user";
     content := ContentArray [ImageUrlContentItem (Some (js "http://d"))] |}.

Definition assistant_plain : Message :=
  {| role := js "assistant"; content := ContentString (js "done, anything else?") |}.

Definition system_note : Message :=
  {| role := js "system"; content := ContentString (js "be brief") |}.

Definition long_transcript : list Message :=
  [older_d; assistant_bc; assistant_plain; user_a; system_note].

End ExtractorMore.

(** Vocabulary for the SSE parser and the image download. *)
Module StreamText.
Import Adapters SseSpec.

(** The lines the SSE parser looks at. *)
Definition carries_meaning (line : jsstring) : bool :=
  (startsWith (js "event:") line || startsWith (js "data:") line)%bool.

(** A line holds no line feed. *)
Definition one_line (line : jsstring) : Prop := ~ In 10%N line.

Definition line_feed : jsstring := [10%N].

(** A contiguous piece of a string. *)
Definition piece_of (m s : jsstring) : Prop :=
  exists pre post, s = pre ++ m ++ post.

(** The GET request of [urlToBase64]. *)
Definition image_get (url : jsstring) : HttpRequest :=
  {| req_url := url; req_method := GET; req_headers := []; req_body := NoBody |}.

(** What [urlToBase64] makes of the image host's answer. *)
Definition header_or_png (r : ImageResponse) : jsstring :=
  opt_or (img_content_type r) (js "image/png").

(** Comment, id and blank lines around a complete event and its
    payload. *)
Definition chatty_lines : list jsstring :=
  [js ": keep-alive"; js "event: complete"; []; js "id: 7";
   js "data: " ++ sample_payload; js "retry: 3"].

End StreamText.


(** More on the handlers. *)
Module HandlerSpec.
Import Adapters Config StreamText.

Definition is_inline (img : jsstring) : Prop :=
  startsWith (js "data:image/") img = true.

(** An input image that the VolcEngine handler downloads: an [http]
    reference that is not inline data. *)
Definition remote (img : jsstring) : bool :=
  (negb (startsWith (js "data:image/") img) && startsWith (js "http") img)%bool.

(** How the downloads of the input images settle, image by image:
    [None] for an image that is not downloaded, and otherwise what the
    image host answers to the GET, which it is asked when the GETs for
    the images before it have been sent and nothing else has happened
    since the trace [tr]. *)
Fixpoint downloads (image_host : Oracle ImageResponse) (tr : Trace)
         (images : list jsstring) : list (option (Outcome ImageResponse)) :=
  match images with
  | [] => []
  | img :: rest =>
      if remote img then
        Some (image_host tr (image_get img))
        :: downloads image_host (tr ++ [Fetch (image_get img)]) rest
      else None :: downloads image_host tr rest
  end.

(** A download that was tried and did not deliver: the call was
    rejected, or the answer is not ok. *)
Definition failed (d : option (Outcome ImageResponse)) : bool :=
  match d with
  | Some (Ok r) => negb (img_ok r)
  | Some (Throw _) => true
  | None => false
  end.

(** The MIME type of a delivered image: the content type up to the
    first semicolon, without the white space around it. *)
Definition mime_of (r : ImageResponse) : jsstring :=
  trim (hd [] (split 59 (header_or_png r))).

(** The data URI built from a delivered image. *)
Definition data_uri (btoa : jsstring -> jsstring) (r : ImageResponse) : jsstring :=
  js "data:" ++ mime_of r ++ js ";base64," ++ btoa (img_bytes r).

(** What is sent for an input image: the data URI of its download when
    one was delivered, and the image as it came in every other case. *)
Definition sent_image (btoa : jsstring -> jsstring) (img : jsstring)
           (d : option (Outcome ImageResponse)) : jsstring :=
  match d with
  | Some (Ok r) => if img_ok r then data_uri btoa r else img
  | Some (Throw _) | None => img
  end.

Fixpoint sent_images (btoa : jsstring -> jsstring) (images : list jsstring)
         (ds : list (option (Outcome ImageResponse))) : list jsstring :=
  match images, ds with
  | img :: images', d :: ds' => sent_image btoa img d :: sent_images btoa images' ds'
  | _, _ => []
  end.

(** What the handlers log of the request before their first call. *)
Definition announced (p : Provider) (prompt : jsstring) (images : list jsstring)
  : Trace :=
  FullPrompt p prompt
  :: match images with [] => [] | _ :: _ => [InputImages p images] end.

(** The time spent in [setTimeout] waits, in milliseconds. *)
Definition total_sleep (tr : Trace) : N :=
  fold_right (fun ev acc => match ev with Sleep ms => (ms + acc)%N | _ => acc end)
             0%N tr.

(** The POST request of the VolcEngine handler. *)
Definition volc_request (cfg : ProviderConfig) (apiKey : jsstring)
           (reqBody : ChatRequest) (prompt : jsstring)
           (images sent : list jsstring) : HttpRequest :=
  {| req_url := apiUrl cfg;
     req_method := POST;
     req_headers := [json_content_type; bearer apiKey;
                     (js "Connection", js "close")];
     req_body := JsonBody
       (JSON_stringify (arkRequest cfg reqBody prompt
                          (Nat.ltb 0 (length images)) sent)) |}.

(** What the VolcEngine handler makes of the answer to its POST. *)
Definition volc_outcome (answer : Outcome (Response (option (list ImageDatum))))
  : Outcome jsstring :=
  match answer with
  | Throw e => Throw e
  | Ok r =>
      if ok r then
        match json r with
        | Some data => Ok (formatImages (match data with Some d => d | None => [] end))
        | None => Throw (Rejected (js "SyntaxError"))
        end
      else Throw (VolcEngineApiError (status r) (text r))
  end.

(** What a successful HuggingFace attempt returns: one markdown image
    line around a truthy value. *)
Definition ImageLine (ToString_other : JSON -> jsstring) (x : jsstring) : Prop :=
  exists v, truthy v = true
            /\ x = js "![Generated Image](" ++ ToString ToString_other v ++ js ")".

(** What the Gitee handler reads off an inline image: the text
    between the first and the second comma as the base64 data, and the
    text between the first colon and the next colon or semicolon as
    the MIME type. *)
Definition inline_data (img : jsstring) : jsstring :=
  match nth_error (split 44 img) 1 with
  | Some data => data
  | None => js "undefined"
  end.

Definition inline_mime (img : jsstring) : jsstring :=
  match nth_error (split 58 (hd [] (split 59 img))) 1 with
  | Some t => t
  | None => []
  end.

(** The requests of the Gitee handler.  In edit mode: the multipart
    POST to the edit URL, with the configured edit size. *)
Definition gitee_edit_request (cfg : GiteeProviderConfig) (apiKey : jsstring)
           (reqBody : ChatRequest) (prompt : jsstring)
           (bytes mimeType : jsstring) : HttpRequest :=
  {| req_url := g_editApiUrl cfg;
     req_method := POST;
     req_headers := [(js "Authorization", js "Bearer " ++ apiKey)];
     req_body := FormBody
       [(js "model",
          FormText (pick_model (model reqBody) (g_editModels cfg)
                      (interp (nth_error (g_editModels cfg) 0))));
        (js "prompt", FormText prompt);
        (js "size", FormText (g_defaultEditSize cfg));
        (js "n", FormText (js "1"));
        (js "response_format", FormText (js "b64_json"));
        (js "image", FormBlob bytes mimeType (js "image.png"))] |}.

(** In generate mode: the JSON POST to the generation URL, with the
    requested size or else the configured one. *)
Definition gitee_generate_request (cfg : GiteeProviderConfig) (apiKey : jsstring)
           (reqBody : ChatRequest) (prompt : jsstring) : HttpRequest :=
  {| req_url := g_apiUrl cfg;
     req_method := POST;
     req_headers := [(js "Content-Type", js "application/json");
                     (js "Authorization", js "Bearer " ++ apiKey)];
     req_body := JsonBody
       (JObj [(js "model",
                JStr (pick_model (model reqBody) (g_supportedModels cfg)
                        (g_defaultModel cfg)));
              (js "prompt",
                JStr (if truthy_str prompt then prompt
                      else js "A beautiful scenery"));
              (js "size", JStr (opt_or (size reqBody) (g_defaultSize cfg)));
              (js "n", JNum (of_N 1));
              (js "response_format", JStr (js "b64_json"))]) |}.

End HandlerSpec.

(* ================================================================== *)
(** * The server callback *)
(* ================================================================== *)

Module Server.
Import Adapters Config.

(** What the callback given to [Deno.serve] reads from a request: the
    method, and what [handleChatCompletions] reads. *)
Record ServeRequest : Type := {
  method : jsstring;
  request : Request
}.

(** The three ways the callback answers: the CORS preflight answer
    (status 200, no body), the 405 answer, or the handler's answer. *)
Inductive ServeResponse : Type :=
| Preflight
| MethodNotAllowed
| Handled (r : HttpResponse).

Definition serve_status (r : ServeResponse) : N :=
  match r with
  | Preflight => 200
  | MethodNotAllowed => 405
  | Handled r' => resp_status r'
  end.

Section Serve.
Variable btoa : jsstring -> jsstring.
Variable atob : jsstring -> option jsstring.
Variable JSON_parse : jsstring -> option JSON.
Variable ToString_other : JSON -> jsstring.
Variable seed : N.
Variable VolcCfg : ProviderConfig.
Variable GiteeCfg : GiteeProviderConfig.
Variable ModelScopeCfg : ProviderConfig.
Variable HuggingFaceCfg : HuggingFaceProviderConfig.
Variable image_host : Oracle ImageResponse.
Variable volc_api : Oracle (Response (option (list ImageDatum))).
Variable gitee_api : Oracle (Response (option (list ImageDatum))).
Variable modelscope_submit : Oracle (Response (option jsstring)).
Variable modelscope_task : Oracle (Response CheckData).
Variable hf_queue : Oracle (Response (option jsstring)).
Variable hf_result : Oracle (Response unit).
Variable randomUUID : jsstring.
Variable created : N.

(** The callback of [Deno.serve]. *)
Definition serve (req : ServeRequest) : M ServeResponse :=
  if jsstring_eqb (method req) (js "OPTIONS") then ret Preflight
  else if negb (jsstring_eqb (method req) (js "POST")) then
    warn "HTTP" ;;
    ret MethodNotAllowed
  else
    r <- handleChatCompletions btoa atob JSON_parse ToString_other seed
           VolcCfg GiteeCfg ModelScopeCfg HuggingFaceCfg image_host volc_api
           gitee_api modelscope_submit modelscope_task hf_queue hf_result
           randomUUID created (request req) ;;
    ret (Handled r).
End Serve.

(** The credential the entry point derives from an [Authorization]
    header. *)
Definition credential (authHeader : jsstring) : jsstring :=
  trim (remove_first (js "Bearer ") authHeader).

Definition chat_path : jsstring := js "/v1/chat/completions".

End Server.


(* ================================================================== *)
(** * Properties of strings and of the matcher *)
(* ================================================================== *)

Module JsFacts.

Lemma jsstring_eqb_spec a b : reflect (a = b) (jsstring_eqb a b).
Proof.
  unfold jsstring_eqb. destruct (list_eq_dec N.eq_dec a b); constructor; assumption.
Qed.

Lemma jsstring_eqb_refl a : jsstring_eqb a a = true.
Proof. destruct (jsstring_eqb_spec a a); congruence. Qed.

Lemma jsstring_eqb_eq a b : jsstring_eqb a b = true <-> a = b.
Proof. destruct (jsstring_eqb_spec a b); split; congruence. Qed.

Lemma jsstring_eqb_neq a b : jsstring_eqb a b = false <-> a <> b.
Proof. destruct (jsstring_eqb_spec a b); split; congruence. Qed.

Lemma startsWith_app p t : startsWith p (p ++ t) = true.
Proof.
  induction p as [|c p IH]; simpl; [reflexivity|].
  now rewrite N.eqb_refl, IH.
Qed.

Lemma startsWith_inv p s : startsWith p s = true -> s = p ++ skipn (length p) s.
Proof.
  revert s. induction p as [|c p IH]; intros s H; simpl in *; [reflexivity|].
  destruct s as [|d s]; [discriminate|].
  apply andb_true_iff in H as [Hc Hp]. apply N.eqb_eq in Hc. subst d.
  simpl. f_equal. now apply IH.
Qed.

Lemma startsWith_iff p s : startsWith p s = true <-> exists t, s = p ++ t.
Proof.
  split.
  - intros H. eexists. now apply startsWith_inv.
  - intros [t ->]. apply startsWith_app.
Qed.

Lemma skipn_app_exact {A} (l t : list A) : skipn (length l) (l ++ t) = t.
Proof. induction l; simpl; auto. Qed.

Lemma includes_In x l : includes x l = true <-> In x l.
Proof.
  unfold includes. rewrite existsb_exists. split.
  - intros [y [Hy E]]. apply jsstring_eqb_eq in E. now subst.
  - intros H. exists x. split; [assumption|apply jsstring_eqb_refl].
Qed.

Lemma includes_not_In x l : includes x l = false <-> ~ In x l.
Proof.
  rewrite <- includes_In. destruct (includes x l); split; congruence.
Qed.

End JsFacts.
Import JsFacts.

Module RegexFacts.

Section Rep.
Variable R : Type.
Implicit Types (k : nat -> jsstring -> option R).

(** A counted repetition [{n}] consumes exactly [n] characters of the
    class, whatever its greediness. *)
Lemma rep_exact_app g p n i (run t : jsstring) k :
  length run = n ->
  rep g p n (Some n) i (run ++ t) k
  = if forallb p run then k (i + n) t else None.
Proof.
  revert i run. induction n as [|n IH]; intros i run Hlen.
  - destruct run; [|discriminate]. simpl.
    rewrite Nat.add_0_r. now destruct t.
  - destruct run as [|c run]; [discriminate|]. simpl in Hlen.
    injection Hlen as Hlen. simpl.
    destruct (p c); simpl; [|reflexivity].
    rewrite IH by assumption. now rewrite Nat.add_succ_r.
Qed.

Lemma rep_exact_inv g p n i (s : jsstring) k x :
  rep g p n (Some n) i s k = Some x ->
  exists run t, s = run ++ t /\ length run = n /\ forallb p run = true
                /\ k (i + n) t = Some x.
Proof.
  revert i s. induction n as [|n IH]; intros i s H.
  - exists [], s. rewrite Nat.add_0_r.
    repeat split; try reflexivity. now destruct s.
  - destruct s as [|c s]; simpl in H; [discriminate|].
    destruct (p c) eqn:Hc; [|discriminate].
    apply IH in H as (run & t & -> & Hlen & Hall & Hk).
    exists (c :: run), t. simpl. rewrite Hc, Hall, Hlen.
    rewrite Nat.add_succ_r. repeat split; assumption.
Qed.

(** A greedy bounded repetition followed by the end of input. *)
Lemma rep_greedy_eol p lo hi i (s : jsstring) (f : nat -> R) :
  match rep true p lo (Some hi) i s
          (fun j s' => match s' with [] => Some (f j) | _ :: _ => None end) with
  | Some _ => true
  | None => false
  end
  = (Nat.leb lo (length s) && Nat.leb (length s) hi && forallb p s)%bool.
Proof.
  revert lo hi i. induction s as [|c s IH]; intros lo hi i.
  - destruct hi, lo; reflexivity.
  - destruct hi as [|hi].
    + destruct lo; simpl; now rewrite ?andb_false_r.
    + destruct lo as [|lo]; simpl.
      * destruct (p c) eqn:Hc.
        -- specialize (IH 0 hi (S i)). simpl in IH.
           destruct (rep true p 0 (Some hi) (S i) s _);
             simpl in *; rewrite <- IH; reflexivity.
        -- now rewrite andb_false_r.
      * destruct (p c) eqn:Hc.
        -- apply IH.
        -- now rewrite andb_false_r.
Qed.
End Rep.

(** A pattern that begins with [^] can only match at index 0. *)
Lemma match_at_bol_pos r i s : 0 < i -> match_at (RSeq RBol r) i s = None.
Proof.
  intros Hi. unfold match_at. simpl.
  destruct (Nat.eqb_spec i 0); [lia|reflexivity].
Qed.

Lemma exec_from_bol_pos r i s : 0 < i -> exec_from (RSeq RBol r) i s = None.
Proof.
  revert i. induction s as [|c s IH]; intros i Hi; simpl;
    rewrite match_at_bol_pos by assumption; [reflexivity|].
  apply IH. lia.
Qed.

Lemma test_bol r s :
  test (RSeq RBol r) s
  = match match_at (RSeq RBol r) 0 s with Some _ => true | None => false end.
Proof.
  unfold test. destruct s as [|c s]; simpl.
  - now destruct (match_at _ 0 []).
  - destruct (match_at _ 0 (c :: s)); [reflexivity|].
    now rewrite exec_from_bol_pos by lia.
Qed.

End RegexFacts.
Import RegexFacts.

Module MatchFacts.

Section Seq.
Variable R : Type.
Implicit Types (k : nat -> jsstring -> option jsstring -> option R).

Lemma rmatch_seq_rep_iff g n p r2 i s cap k x :
  rmatch (RSeq (RRep g n (Some n) p) r2) i s cap k = Some x
  <-> exists run t, s = run ++ t /\ length run = n /\ forallb p run = true
                    /\ rmatch r2 (i + n) t cap k = Some x.
Proof.
  simpl. split.
  - intros H. apply rep_exact_inv in H. exact H.
  - intros (run & t & -> & Hlen & Hall & Hk).
    rewrite rep_exact_app by assumption. now rewrite Hall.
Qed.

Lemma rmatch_seq_str_iff l r2 i s cap k x :
  rmatch (RSeq (RStr l) r2) i s cap k = Some x
  <-> exists t, s = l ++ t /\ rmatch r2 (i + length l) t cap k = Some x.
Proof.
  simpl. split.
  - destruct (startsWith l s) eqn:Hs; [|discriminate].
    intros H. exists (skipn (length l) s). split; [|assumption].
    now apply startsWith_inv.
  - intros (t & -> & Hk).
    now rewrite startsWith_app, skipn_app_exact.
Qed.

Lemma rmatch_eol_iff i s cap k x :
  rmatch REol i s cap k = Some x <-> s = [] /\ k i [] cap = Some x.
Proof.
  simpl. destruct s; split.
  - auto.
  - now intros [_ H].
  - discriminate.
  - intros [H _]. discriminate.
Qed.

Lemma rmatch_bol_iff r i s cap k x :
  rmatch (RSeq RBol r) i s cap k = Some x
  <-> i = 0 /\ rmatch r 0 s cap k = Some x.
Proof.
  simpl. destruct (Nat.eqb_spec i 0) as [->|Hi]; split.
  - auto.
  - now intros [_ H].
  - discriminate.
  - intros [H _]. contradiction.
Qed.
End Seq.

End MatchFacts.
Import MatchFacts.

(* ================================================================== *)
(** * The credential router *)
(* ================================================================== *)

Module RouterFacts.
Import Router RouterSpec.

Lemma hex_i_spec c : hex_i c = true <-> IsHex c.
Proof.
  unfold hex_i, digit, IsHex.
  rewrite !orb_true_iff, !andb_true_iff, !N.leb_le. tauto.
Qed.

Lemma alnum_spec c : alnum c = true <-> IsAlnum c.
Proof.
  unfold alnum, lower, upper, digit, IsAlnum.
  rewrite !orb_true_iff, !andb_true_iff, !N.leb_le. tauto.
Qed.

Lemma forallb_hex g : forallb hex_i g = true <-> Forall IsHex g.
Proof.
  rewrite forallb_forall, Forall_forall.
  split; intros H x Hx; apply hex_i_spec; auto.
Qed.

Lemma forallb_alnum s : forallb alnum s = true <-> Forall IsAlnum s.
Proof.
  rewrite forallb_forall, Forall_forall.
  split; intros H x Hx; apply alnum_spec; auto.
Qed.

(** The UUID pattern accepts exactly the canonical 8-4-4-4-12 form. *)
Lemma uuidRegex_spec s : test uuidRegex s = true <-> CanonicalUuid s.
Proof.
  unfold uuidRegex, dash. cbn [rseq]. rewrite test_bol. unfold match_at.
  split.
  - destruct (rmatch _ 0 s None _) as [m|] eqn:H; [intros _|discriminate].
    apply rmatch_bol_iff in H as [_ H].
    apply rmatch_seq_rep_iff in H as (g1 & t1 & -> & L1 & A1 & H).
    apply rmatch_seq_str_iff in H as (u1 & -> & H).
    apply rmatch_seq_rep_iff in H as (g2 & t2 & -> & L2 & A2 & H).
    apply rmatch_seq_str_iff in H as (u2 & -> & H).
    apply rmatch_seq_rep_iff in H as (g3 & t3 & -> & L3 & A3 & H).
    apply rmatch_seq_str_iff in H as (u3 & -> & H).
    apply rmatch_seq_rep_iff in H as (g4 & t4 & -> & L4 & A4 & H).
    apply rmatch_seq_str_iff in H as (u4 & -> & H).
    apply rmatch_seq_rep_iff in H as (g5 & t5 & -> & L5 & A5 & H).
    apply rmatch_eol_iff in H as [-> _].
    exists g1, g2, g3, g4, g5. rewrite app_nil_r.
    unfold HexGroup. rewrite <- !forallb_hex. tauto.
  - intros (g1 & g2 & g3 & g4 & g5 & -> & [L1 A1] & [L2 A2] & [L3 A3]
            & [L4 A4] & [L5 A5]).
    apply forallb_hex in A1, A2, A3, A4, A5.
    match goal with
    | |- match ?e with _ => _ end = true =>
        assert (exists m, e = Some m) as [m ->]; [|reflexivity]
    end.
    eexists.
    apply rmatch_bol_iff. split; [reflexivity|].
    apply rmatch_seq_rep_iff. exists g1. eexists. repeat split; try eassumption.
    apply rmatch_seq_str_iff. eexists. split; [reflexivity|].
    apply rmatch_seq_rep_iff. exists g2. eexists. repeat split; try eassumption.
    apply rmatch_seq_str_iff. eexists. split; [reflexivity|].
    apply rmatch_seq_rep_iff. exists g3. eexists. repeat split; try eassumption.
    apply rmatch_seq_str_iff. eexists. split; [reflexivity|].
    apply rmatch_seq_rep_iff. exists g4. eexists. repeat split; try eassumption.
    apply rmatch_seq_str_iff. eexists. split; [reflexivity|].
    apply rmatch_seq_rep_iff. exists g5, []. rewrite app_nil_r.
    repeat split; try eassumption.
Qed.

(** The Gitee pattern accepts exactly 30 to 60 letters and digits. *)
Lemma giteeRegex_spec s : test giteeRegex s = true <-> Alnum30to60 s.
Proof.
  unfold giteeRegex. cbn [rseq]. rewrite test_bol. unfold match_at.
  cbn [rmatch]. cbn [Nat.eqb].
  match goal with
  | |- ?lhs = true <-> _ =>
      replace lhs
        with (Nat.leb 30 (length s) && Nat.leb (length s) 60 && forallb alnum s)%bool
        by (symmetry;
            apply (rep_greedy_eol alnum 30 60 0 s (fun j => (0, j, @None jsstring))))
  end.
  unfold Alnum30to60.
  rewrite !andb_true_iff, !Nat.leb_le, forallb_alnum. tauto.
Qed.


Lemma truthy_str_false s : truthy_str s = false <-> s = [].
Proof. destruct s; simpl; split; congruence. Qed.

(** The rules name one provider for each credential. *)
Lemma Classify_deterministic s p q : Classify s p -> Classify s q -> p = q.
Proof.
  intros Hp Hq. destruct Hp; inversion Hq; subst;
    solve [reflexivity | contradiction | congruence | tauto].
Qed.

(** What the router computes, as a trace-free function. *)
Lemma detectProvider_run apiKey tr :
  detectProvider apiKey tr
  = if negb (truthy_str apiKey) then (Ok Unknown, tr)
    else
      let p :=
        if startsWith (js "hf_") apiKey then HuggingFace
        else if startsWith (js "ms-") apiKey then ModelScope
        else if test uuidRegex apiKey then VolcEngine
        else if test giteeRegex apiKey then Gitee
        else Unknown in
      (Ok p, tr ++ [ProviderRouting p (substring 0 4 apiKey)]).
Proof.
  unfold detectProvider.
  destruct (negb (truthy_str apiKey)); [reflexivity|].
  cbv zeta.
  destruct (startsWith (js "hf_") apiKey); [reflexivity|].
  destruct (startsWith (js "ms-") apiKey); [reflexivity|].
  destruct (test uuidRegex apiKey); [reflexivity|].
  destruct (test giteeRegex apiKey); reflexivity.
Qed.

(** C1.  For every credential, [detectProvider] returns the provider
    that the six routing rules name when they are read in their fixed
    order, first match winning: empty, then the prefix [hf_], then the
    prefix [ms-], then the canonical UUID form, then 30 to 60 letters
    and digits, and [Unknown] otherwise. *)
Theorem detectProvider_rule_order (apiKey : jsstring) (tr : Trace) :
  exists p,
    fst (detectProvider apiKey tr) = Ok p /\ Classify apiKey p.
Proof.
  rewrite detectProvider_run.
  destruct apiKey as [|c s]; [exists Unknown; split; [reflexivity|constructor]|].
  cbn [truthy_str negb]. cbv zeta. cbn [fst].
  set (k := c :: s).
  assert (Hne : k <> []) by discriminate.
  destruct (startsWith (js "hf_") k) eqn:Hhf.
  { eexists; split; [reflexivity|].
    apply rule_hf; [assumption|]. now apply startsWith_iff. }
  assert (Nhf : ~ HasPrefix (js "hf_") k).
  { intros H. apply startsWith_iff in H. congruence. }
  destruct (startsWith (js "ms-") k) eqn:Hms.
  { eexists; split; [reflexivity|].
    apply rule_ms; try assumption. now apply startsWith_iff. }
  assert (Nms : ~ HasPrefix (js "ms-") k).
  { intros H. apply startsWith_iff in H. congruence. }
  destruct (test uuidRegex k) eqn:Huuid.
  { eexists; split; [reflexivity|].
    apply rule_uuid; try assumption. now apply uuidRegex_spec. }
  assert (Nuuid : ~ CanonicalUuid k).
  { intros H. apply uuidRegex_spec in H. congruence. }
  destruct (test giteeRegex k) eqn:Hgitee.
  { eexists; split; [reflexivity|].
    apply rule_gitee; try assumption. now apply giteeRegex_spec. }
  eexists; split; [reflexivity|].
  apply rule_other; try assumption.
  intros H. apply giteeRegex_spec in H. congruence.
Qed.

(** C7, as the code has it.  [detectProvider] never throws.  For a
    non-empty credential it emits exactly one routing event, carrying
    the provider it returns and [apiKey.substring(0, 4)]; that prefix
    has at most 4 code units and is the whole credential exactly when
    the credential has at most 4.  For the empty credential it returns
    [Unknown] and emits nothing. *)
Theorem detectProvider_routing_event (apiKey : jsstring) :
  exists p,
    run (detectProvider apiKey)
    = (Ok p,
       match apiKey with
       | [] => []
       | _ :: _ => [ProviderRouting p (substring 0 4 apiKey)]
       end)
    /\ substring 0 4 apiKey = firstn 4 apiKey
    /\ length (substring 0 4 apiKey) <= 4
    /\ (substring 0 4 apiKey = apiKey <-> length apiKey <= 4).
Proof.
  unfold run. rewrite detectProvider_run.
  assert (Hsub : substring 0 4 apiKey = firstn 4 apiKey) by reflexivity.
  assert (Hlen : length (firstn 4 apiKey) <= 4) by apply firstn_le_length.
  assert (Hall : firstn 4 apiKey = apiKey <-> length apiKey <= 4).
  { split.
    - intros E. rewrite <- E. apply firstn_le_length.
    - apply firstn_all2. }
  destruct apiKey as [|c s].
  - exists Unknown. rewrite Hsub. cbn [truthy_str negb]. tauto.
  - cbn [truthy_str negb]. cbv zeta. eexists. rewrite Hsub.
    split; [reflexivity|]. tauto.
Qed.

(** C7 as worded fails on the empty credential: no routing event at
    all is emitted for it. *)
Lemma detectProvider_empty_no_event :
  events (detectProvider (js "")) = []
  /\ ~ (exists ev, events (detectProvider (js "")) = [ev]).
Proof.
  split; [reflexivity|]. intros [ev H]. discriminate H.
Qed.

(** A credential of four code units is logged whole. *)
Example detectProvider_short_key_logged_whole :
  events (detectProvider (js "hf_x")) = [ProviderRouting HuggingFace (js "hf_x")].
Proof. reflexivity. Qed.

End RouterFacts.

(* ================================================================== *)
(** * The matcher only returns matches of the pattern *)
(* ================================================================== *)

Module RegexSound.
Import RegexSpec.

Section Sound.
Variable R : Type.

Lemma rep_sound g p : forall (s : jsstring) lo hi i (k : nat -> jsstring -> option R) x,
  rep g p lo hi i s k = Some x ->
  exists run t, s = run ++ t /\ forallb p run = true /\ lo <= length run
                /\ within (length run) hi
                /\ k (i + length run) t = Some x.
Proof.
  assert (Hnil : forall (s : jsstring) hi i (k : nat -> jsstring -> option R) x,
             k i s = Some x ->
             exists run t, s = run ++ t /\ forallb p run = true
                           /\ 0 <= length run /\ within (length run) hi
                           /\ k (i + length run) t = Some x).
  { intros s hi i k x H. exists [], s. cbn. rewrite Nat.add_0_r.
    repeat split; try assumption; try lia. destruct hi; cbn; lia. }
  assert (Hcons : forall c (s : jsstring) lo hi i (k : nat -> jsstring -> option R) x,
             p c = true -> hi <> Some 0 ->
             (exists run t, s = run ++ t /\ forallb p run = true
                            /\ lo <= length run
                            /\ within (length run) (option_map pred hi)
                            /\ k (S i + length run) t = Some x) ->
             exists run t, c :: s = run ++ t /\ forallb p run = true
                           /\ S lo <= length run /\ within (length run) hi
                           /\ k (i + length run) t = Some x).
  { intros c s lo hi i k x Hc Hhi (run & t & -> & Hall & Hlo & Hin & Hk).
    exists (c :: run), t. cbn [app forallb length]. rewrite Hc, Hall.
    rewrite Nat.add_succ_r. repeat split; try assumption; try lia.
    destruct hi as [[|h]|]; cbn in *; try congruence; lia. }
  induction s as [|c s IH]; intros lo hi i k x H.
  - destruct hi as [[|h]|], lo as [|lo]; cbn in H; try discriminate;
      try (now apply Hnil);
      destruct g; try (now apply Hnil);
      destruct (k i []) eqn:E; try discriminate; apply Hnil; congruence.
  - destruct hi as [[|h]|]; destruct lo as [|lo]; cbn [rep] in H;
      try discriminate; try (now apply Hnil).
    + (* bounded, lo = 0 *)
      destruct g.
      * destruct (p c) eqn:Hc; [|now apply Hnil].
        destruct (rep true p 0 (option_map pred (Some (S h))) (S i) s k) eqn:E.
        -- injection H as <-. apply IH in E.
           destruct (Hcons c s 0 (Some (S h)) i k r Hc ltac:(discriminate) E)
             as (run & t & E1 & E2 & E3 & E4 & E5).
           exists run, t. repeat split; try assumption; lia.
        -- now apply Hnil.
      * destruct (k i (c :: s)) eqn:E; [apply Hnil; congruence|].
        destruct (p c) eqn:Hc; [|discriminate].
        apply IH in H.
        destruct (Hcons c s 0 (Some (S h)) i k x Hc ltac:(discriminate) H)
          as (run & t & E1 & E2 & E3 & E4 & E5).
        exists run, t. repeat split; try assumption; lia.
    + (* bounded, lo > 0 *)
      destruct (p c) eqn:Hc; [|discriminate].
      apply IH in H. apply Hcons; try assumption. discriminate.
    + (* unbounded, lo = 0 *)
      destruct g.
      * destruct (p c) eqn:Hc; [|now apply Hnil].
        destruct (rep true p 0 (option_map pred None) (S i) s k) eqn:E.
        -- injection H as <-. apply IH in E.
           destruct (Hcons c s 0 None i k r Hc ltac:(discriminate) E)
             as (run & t & E1 & E2 & E3 & E4 & E5).
           exists run, t. repeat split; try assumption; lia.
        -- now apply Hnil.
      * destruct (k i (c :: s)) eqn:E; [apply Hnil; congruence|].
        destruct (p c) eqn:Hc; [|discriminate].
        apply IH in H.
        destruct (Hcons c s 0 None i k x Hc ltac:(discriminate) H)
          as (run & t & E1 & E2 & E3 & E4 & E5).
        exists run, t. repeat split; try assumption; lia.
    + (* unbounded, lo > 0 *)
      destruct (p c) eqn:Hc; [|discriminate].
      apply IH in H. apply Hcons; try assumption. discriminate.
Qed.

Lemma rmatch_sound r : forall i (s : jsstring) c
    (k : nat -> jsstring -> option jsstring -> option R) x,
  rmatch r i s c k = Some x ->
  exists m t c', s = m ++ t /\ Matches r i m t c c'
                 /\ k (i + length m) t c' = Some x.
Proof.
  induction r as [| |l|p|r1 IH1 r2 IH2|r1 IH1 r2 IH2|g lo hi p|r IH];
    intros i s c k x H; cbn [rmatch] in H.
  - destruct (Nat.eqb_spec i 0) as [->|]; [|discriminate].
    exists [], s, c. repeat split; [constructor|assumption].
  - destruct s; [|discriminate].
    exists [], [], c. rewrite Nat.add_0_r. repeat split; [constructor|assumption].
  - destruct (startsWith l s) eqn:Hs; [|discriminate].
    exists l, (skipn (length l) s), c.
    split; [now apply startsWith_inv|]. split; [constructor|assumption].
  - destruct s as [|a s]; [discriminate|].
    destruct (p a) eqn:Hp; [|discriminate].
    exists [a], s, c. cbn [length]. rewrite Nat.add_1_r.
    repeat split; [now constructor|assumption].
  - apply IH1 in H as (m1 & t1 & c1 & -> & M1 & H).
    apply IH2 in H as (m2 & t2 & c2 & -> & M2 & H).
    exists (m1 ++ m2), t2, c2. rewrite <- app_assoc.
    split; [reflexivity|]. split; [econstructor; eassumption|].
    rewrite length_app, Nat.add_assoc. assumption.
  - destruct (rmatch r1 i s c k) eqn:E.
    + injection H as <-. apply IH1 in E as (m & t & c' & -> & M & H).
      exists m, t, c'. repeat split; [now apply m_alt_l|assumption].
    + apply IH2 in H as (m & t & c' & -> & M & H).
      exists m, t, c'. repeat split; [now apply m_alt_r|assumption].
  - apply rep_sound in H as (run & t & -> & Hall & Hlo & Hhi & H).
    exists run, t, c. repeat split; [now constructor|assumption].
  - apply IH in H as (m & t & c' & -> & M & H).
    exists m, t, (Some m). split; [reflexivity|].
    split; [econstructor; eassumption|].
    replace (i + length m - i) with (length m) in H by lia.
    now rewrite firstn_app, Nat.sub_diag, firstn_all, app_nil_r in H.
Qed.
End Sound.

(** A match reported at some index is a match of the pattern there. *)
Lemma match_at_sound r i s st en cap :
  match_at r i s = Some (st, en, cap) ->
  exists m t, s = m ++ t /\ Matches r i m t None cap.
Proof.
  unfold match_at. intros H.
  apply rmatch_sound in H as (m & t & c' & -> & M & H).
  injection H as <- <- <-. now exists m, t.
Qed.

Lemma exec_from_sound r : forall s i st en cap,
  exec_from r i s = Some (st, en, cap) ->
  exists pre m t, s = pre ++ m ++ t /\ Matches r (i + length pre) m t None cap.
Proof.
  induction s as [|a s IH]; intros i st en cap H; cbn [exec_from] in H.
  - destruct (match_at r i []) as [[[st' en'] cap']|] eqn:E; [|discriminate].
    injection H as -> -> ->. apply match_at_sound in E as (m & t & E & M).
    exists [], m, t. cbn. now rewrite Nat.add_0_r.
  - destruct (match_at r i (a :: s)) as [[[st' en'] cap']|] eqn:E.
    + injection H as -> -> ->. apply match_at_sound in E as (m & t & E & M).
      exists [], m, t. cbn [app length]. now rewrite Nat.add_0_r.
    + apply IH in H as (pre & m & t & -> & M).
      exists (a :: pre), m, t. cbn [app length].
      split; [reflexivity|]. now rewrite Nat.add_succ_r.
Qed.

Lemma matchAll_loop_sound r fuel : forall s i res,
  In res (matchAll_loop fuel r i s) ->
  exists pre m t j, s = pre ++ m ++ t /\ Matches r j m t None (group1 res).
Proof.
  induction fuel as [|fuel IH]; intros s i res H; cbn [matchAll_loop] in H;
    [contradiction|].
  destruct (exec_from r i s) as [[[st en] cap]|] eqn:E; [|contradiction].
  assert (Hhead : exists pre m t j,
             s = pre ++ m ++ t /\ Matches r j m t None (group1 (st, en, cap))).
  { apply exec_from_sound in E as (pre & m & t & -> & M).
    now exists pre, m, t, (i + length pre). }
  cbv zeta in H.
  destruct (Nat.ltb (length s) ((if Nat.eqb en st then S en else en) - i)).
  - destruct H as [<-|[]]. exact Hhead.
  - destruct H as [<-|H]; [exact Hhead|].
    apply IH in H as (pre & m & t & j & Hs & M).
    exists (firstn ((if Nat.eqb en st then S en else en) - i) s ++ pre), m, t, j.
    split; [|assumption].
    rewrite <- app_assoc, <- Hs. symmetry. apply firstn_skipn.
Qed.

End RegexSound.

(* ================================================================== *)
(** * The transcript scanner *)
(* ================================================================== *)

Module ExtractorFacts.
Import Extractor ExtractorSpec.

Lemma not_user_eqb m : ~ IsUser m -> jsstring_eqb (role m) (js "user") = false.
Proof. intros H. now apply jsstring_eqb_neq. Qed.

Lemma is_user_eqb m : IsUser m -> jsstring_eqb (role m) (js "user") = true.
Proof. intros H. now apply jsstring_eqb_eq. Qed.

(** The first loop stops at the last user message. *)
Lemma scan_last_user_at before u after k :
  IsUser u -> Forall (fun m => ~ IsUser m) after -> k <= length after ->
  scan_last_user (before ++ u :: after) (length before + 1 + k)
  = match content u with
    | ContentString s => (s, [], Some (length before))
    | ContentArray items =>
        (first_text items, image_urls items, Some (length before))
    | ContentOther => ([], [], Some (length before))
    end.
Proof.
  intros Hu Hafter. induction k as [|k IH]; intros Hk.
  - replace (length before + 1 + 0) with (S (length before)) by lia.
    cbn [scan_last_user].
    rewrite nth_error_app2 by lia. rewrite Nat.sub_diag. cbn [nth_error].
    rewrite is_user_eqb by assumption. reflexivity.
  - replace (length before + 1 + S k) with (S (length before + 1 + k)) by lia.
    cbn [scan_last_user].
    rewrite nth_error_app2 by lia.
    replace (length before + 1 + k - length before) with (S k) by lia.
    cbn [nth_error].
    destruct (nth_error after k) as [m|] eqn:Hm.
    + assert (Hin : In m after) by (eapply nth_error_In; eassumption).
      rewrite Forall_forall in Hafter.
      rewrite not_user_eqb by auto. apply IH. lia.
    + apply nth_error_None in Hm. lia.
Qed.

Lemma scan_last_user_split messages before u after :
  LastUser messages before u after ->
  scan_last_user messages (length messages)
  = match content u with
    | ContentString s => (s, [], Some (length before))
    | ContentArray items =>
        (first_text items, image_urls items, Some (length before))
    | ContentOther => ([], [], Some (length before))
    end.
Proof.
  intros (-> & Hu & Hafter).
  replace (length (before ++ u :: after))
    with (length before + 1 + length after)
    by (rewrite length_app; simpl; lia).
  now apply scan_last_user_at.
Qed.

Lemma scan_last_user_none messages n :
  Forall (fun m => ~ IsUser m) messages ->
  scan_last_user messages n = ([], [], None).
Proof.
  intros H. induction n as [|n IH]; [reflexivity|].
  cbn [scan_last_user].
  destruct (nth_error messages n) as [m|] eqn:Hm; [|assumption].
  rewrite Forall_forall in H.
  rewrite not_user_eqb; [assumption|].
  apply H. eapply nth_error_In; eassumption.
Qed.

(** A transcript either has a last user message or has none. *)
Lemma last_user_cases messages :
  Forall (fun m => ~ IsUser m) messages
  \/ exists before u after, LastUser messages before u after.
Proof.
  induction messages as [|m rest IH].
  - left. constructor.
  - destruct IH as [Hnone | (before & u & after & -> & Hu & Hafter)].
    + destruct (jsstring_eqb_spec (role m) (js "user")) as [E|E].
      * right. exists [], m, rest. repeat split; assumption.
      * left. constructor; assumption.
    + right. exists (m :: before), u, after. repeat split; assumption.
Qed.

(** The second loop returns the nearest non-empty image set. *)
Lemma scan_history_spec before rest :
  scan_history (before ++ rest) (length before) = historical before.
Proof.
  revert rest. induction before as [|m before IH] using rev_ind; intros rest.
  - reflexivity.
  - rewrite length_app. cbn [length]. rewrite Nat.add_1_r.
    cbn [scan_history].
    rewrite <- app_assoc. rewrite nth_error_app2 by lia.
    rewrite Nat.sub_diag. cbn [app nth_error].
    unfold historical. rewrite map_app, rev_app_distr. cbn [map rev app].
    destruct (foundInMsg (content m)) as [|x xs]; cbn [length Nat.ltb Nat.leb first_nonempty].
    + apply IH.
    + reflexivity.
Qed.

(** The merge appends the fresh historical images. *)
Lemma merge_images_fresh cur hist : merge_images cur hist = cur ++ fresh cur hist.
Proof.
  unfold merge_images. revert cur.
  induction hist as [|h hist IH]; intros cur; cbn [fold_left fresh].
  - now rewrite app_nil_r.
  - destruct (includes h cur); cbn [negb].
    + apply IH.
    + rewrite IH. now rewrite <- app_assoc.
Qed.

Lemma fresh_In seen hist x :
  In x (fresh seen hist) -> In x hist /\ ~ In x seen.
Proof.
  revert seen. induction hist as [|h hist IH]; intros seen; cbn [fresh].
  - intros [].
  - destruct (includes h seen) eqn:Hh.
    + intros H. apply IH in H as [H1 H2]. split; [now right|assumption].
    + intros [<-|H].
      * split; [now left|]. now apply includes_not_In.
      * apply IH in H as [H1 H2]. split; [now right|].
        intros Hx. apply H2. apply in_or_app. now left.
Qed.

Lemma fresh_complete seen hist x :
  In x hist -> In x seen \/ In x (fresh seen hist).
Proof.
  revert seen. induction hist as [|h hist IH]; intros seen; cbn [fresh].
  - intros [].
  - intros [<-|H].
    + destruct (includes h seen) eqn:Hh.
      * left. now apply includes_In.
      * right. now left.
    + destruct (includes h seen) eqn:Hh.
      * now apply IH.
      * destruct (IH (seen ++ [h]) H) as [Hs|Hf].
        -- apply in_app_or in Hs as [Hs|[<-|[]]].
           ++ now left.
           ++ right. now left.
        -- right. now right.
Qed.

Lemma fresh_NoDup seen hist : NoDup (fresh seen hist).
Proof.
  revert seen. induction hist as [|h hist IH]; intros seen; cbn [fresh].
  - constructor.
  - destruct (includes h seen); [apply IH|].
    constructor; [|apply IH].
    intros Hin. apply fresh_In in Hin as [_ Hn].
    apply Hn. apply in_or_app. right. now left.
Qed.

(** When the historical images are pairwise distinct, the fresh ones
    are those that equal no current image. *)
Lemma fresh_NoDup_hist seen hist :
  NoDup hist -> fresh seen hist = not_in_current seen hist.
Proof.
  unfold not_in_current. revert seen.
  induction hist as [|h hist IH]; intros seen Hnd; cbn [fresh filter].
  - reflexivity.
  - inversion Hnd as [|? ? Hh Hnd']; subst.
    destruct (includes h seen) eqn:Hs; cbn [negb].
    + now apply IH.
    + f_equal. rewrite IH by assumption.
      apply filter_ext_in. intros x Hx. f_equal.
      unfold includes. rewrite existsb_app. cbn [existsb].
      destruct (jsstring_eqb_spec x h) as [->|]; [contradiction|].
      now rewrite !orb_false_r.
Qed.


(** What the markdown-image pattern can match. *)
Lemma mdImageRegex_match j m t cap :
  RegexSpec.Matches mdImageRegex j m t None cap ->
  exists alt start more,
    m = js "![" ++ alt ++ js "](" ++ (start ++ more) ++ js ")"
    /\ cap = Some (start ++ more)
    /\ (start = js "http://" \/ start = js "https://" \/ start = js "data:image/")
    /\ more <> []
    /\ ~ In 41%N more.
Proof.
  unfold mdImageRegex. cbn [rseq]. intros H.
  inversion H as [| | | |? ? ? m1 m2 ? ? c1 ? H1 H2| | | |]; subst; clear H.
  inversion H1; subst; clear H1.
  inversion H2 as [| | | |? ? ? alt m3 ? ? c2 ? H3 H4| | | |]; subst; clear H2.
  inversion H3; subst; clear H3.
  inversion H4 as [| | | |? ? ? m4 m5 ? ? c3 ? H5 H6| | | |]; subst; clear H4.
  inversion H5; subst; clear H5.
  inversion H6 as [| | | |? ? ? g m6 ? ? c4 ? H7 H8| | | |]; subst; clear H6.
  inversion H8; subst; clear H8.
  inversion H7 as [| | | | | | | |? ? ? ? ? c5 H9]; subst; clear H7.
  inversion H9 as [| | | |? ? ? start more ? ? c6 ? Hs Hm| | | |]; subst; clear H9.
  inversion Hm as [| | | | | | |? ? ? ? ? ? ? ? Hall Hlo _|]; subst; clear Hm.
  assert (Hmore : more <> []) by (destruct more; [cbn in Hlo; lia|discriminate]).
  assert (Hparen : ~ In 41%N more).
  { intros Hin. rewrite forallb_forall in Hall. apply Hall in Hin.
    unfold not_rparen in Hin. now rewrite N.eqb_refl in Hin. }
  assert (Hstart : start = js "http://" \/ start = js "https://"
                   \/ start = js "data:image/").
  { inversion Hs as [| | | | |? ? ? ? ? ? ? Hl|? ? ? ? ? ? ? Hr| |]; subst; clear Hs.
    - inversion Hl as [| | | |? ? ? a1 a2 ? ? ? ? Ha Hb| | | |]; subst; clear Hl.
      inversion Ha; subst; clear Ha.
      inversion Hb as [| | | |? ? ? b1 b2 ? ? ? ? Hc Hd| | | |]; subst; clear Hb.
      inversion Hd; subst; clear Hd.
      inversion Hc as [| | | | | | |? ? ? ? ? ? ? ? Hsall _ Hshi|]; subst; clear Hc.
      destruct b1 as [|x [|y b1]]; cbn in Hshi; try lia.
      + left. reflexivity.
      + right. left. cbn [forallb] in Hsall. rewrite andb_true_r in Hsall.
        apply N.eqb_eq in Hsall. subst x. reflexivity.
    - inversion Hr; subst. right. right. reflexivity. }
  exists alt, start, more. repeat split; assumption.
Qed.

Lemma foundInMsg_ImageOf m img :
  In img (foundInMsg (content m)) -> ImageOf m img.
Proof.
  unfold ImageOf. destruct (content m) as [text|items|]; cbn [foundInMsg].
  - intros H. apply in_map_iff in H as (res & <- & Hres).
    apply RegexSound.matchAll_loop_sound in Hres as (pre & mt & t & j & -> & M).
    apply mdImageRegex_match in M
      as (alt & start & more & -> & Hcap & Hstart & Hmore & Hparen).
    unfold match1. rewrite Hcap.
    exists pre, alt, t, start, more.
    split; [now rewrite <- !app_assoc|].
    repeat split; assumption.
  - unfold image_urls. intros H.
    apply filter_In in H as [H Hne].
    apply in_map_iff in H as (item & Hu & Hitem).
    apply filter_In in Hitem as [Hitem _].
    destruct item as [txt|[u|]]; cbn in Hu; subst; cbn in Hne; try discriminate.
    split; [assumption|]. destruct img; [discriminate|discriminate].
  - intros [].
Qed.

Lemma first_nonempty_In sets x :
  In x (first_nonempty sets) -> exists l, In l sets /\ In x l.
Proof.
  induction sets as [|[|y ys] rest IH]; cbn [first_nonempty].
  - intros [].
  - intros H. destruct (IH H) as (l & Hl & Hx). exists l. split; [now right|assumption].
  - intros H. exists (y :: ys). split; [now left|assumption].
Qed.

Lemma first_nonempty_nil sets :
  first_nonempty sets = [] -> forall l, In l sets -> l = [].
Proof.
  induction sets as [|[|y ys] rest IH]; cbn [first_nonempty]; intros H l Hl.
  - contradiction.
  - destruct Hl as [<-|Hl]; [reflexivity|now apply IH].
  - discriminate.
Qed.

Lemma historical_nil before m :
  In m before -> historical before = [] -> foundInMsg (content m) = [].
Proof.
  unfold historical. intros Hm H.
  apply (first_nonempty_nil _ H). apply -> in_rev.
  apply in_map_iff. now exists m.
Qed.

Lemma historical_ImageOf before img :
  In img (historical before) -> exists m, In m before /\ ImageOf m img.
Proof.
  unfold historical. intros H.
  apply first_nonempty_In in H as (l & Hl & Hx).
  apply in_rev in Hl. apply in_map_iff in Hl as (m & <- & Hm).
  exists m. split; [assumption|]. now apply foundInMsg_ImageOf.
Qed.

Lemma extract_split messages before u after :
  LastUser messages before u after ->
  images (extractPromptAndImages messages)
  = current_images u ++ fresh (current_images u) (historical before).
Proof.
  intros H. unfold extractPromptAndImages.
  rewrite (scan_last_user_split H).
  destruct H as (-> & _ & _).
  unfold current_images.
  destruct (content u); cbn [images];
    rewrite scan_history_spec; apply merge_images_fresh.
Qed.

Lemma extract_no_user messages :
  Forall (fun m => ~ IsUser m) messages ->
  images (extractPromptAndImages messages) = [].
Proof.
  intros H. unfold extractPromptAndImages.
  now rewrite scan_last_user_none.
Qed.

(** C2, as the code has it.  With the last user message at index
    [L = length before], the image list is the current-turn images in
    order, followed by the images of the nearest earlier message that
    has any (walking back from [L - 1]) that are not yet in the list:
    those equal to no current image and to no historical image kept
    before them.  When those historical images are pairwise distinct
    this is the current images followed by the historical ones that
    equal no current image; so current [a] with earlier [b; c] gives
    [a; b; c], and [a; c] when [a = b].  Every historical image is a
    markdown image target of a text message or the URL of an image item
    of a structured one, and there are none only when no earlier
    message has any. *)
Theorem extract_history_merge
        (messages before : list Message) (u : Message) (after : list Message)
        (H : LastUser messages before u after) :
  let cur := current_images u in
  let hist := historical before in
  let out := images (extractPromptAndImages messages) in
  out = cur ++ fresh cur hist
  /\ (NoDup hist -> out = cur ++ not_in_current cur hist)
  /\ (forall a b c, cur = [a] -> hist = [b; c] ->
                    a <> b -> a <> c -> b <> c -> out = [a; b; c])
  /\ (forall a c, cur = [a] -> hist = [a; c] -> a <> c -> out = [a; c])
  /\ (forall img, In img hist -> exists m, In m before /\ ImageOf m img)
  /\ (forall m, In m before -> hist = [] -> foundInMsg (content m) = []).
Proof.
  intros cur hist out.
  assert (E : out = cur ++ fresh cur hist) by (exact (extract_split H)).
  split; [exact E|]. split; [|split; [|split; [|split]]];
    [| | |exact (@historical_ImageOf before)|exact (@historical_nil before)].
  - intros Hnd. rewrite E. now rewrite fresh_NoDup_hist.
  - intros a b c Hc Hh Hab Hac Hbc. rewrite E, Hc, Hh.
    cbn [fresh includes existsb app].
    apply jsstring_eqb_neq in Hab, Hac, Hbc.
    assert (Hba : jsstring_eqb b a = false).
    { apply jsstring_eqb_neq. apply jsstring_eqb_neq in Hab. congruence. }
    assert (Hca : jsstring_eqb c a = false).
    { apply jsstring_eqb_neq. apply jsstring_eqb_neq in Hac. congruence. }
    assert (Hcb : jsstring_eqb c b = false).
    { apply jsstring_eqb_neq. apply jsstring_eqb_neq in Hbc. congruence. }
    rewrite Hba. cbn [orb]. rewrite Hca, Hcb. reflexivity.
  - intros a c Hc Hh Hac. rewrite E, Hc, Hh.
    cbn [fresh includes existsb app].
    rewrite jsstring_eqb_refl. cbn [orb].
    assert (Hca : jsstring_eqb c a = false).
    { apply jsstring_eqb_neq. congruence. }
    rewrite Hca. reflexivity.
Qed.

Lemma extract_history_merge_witness :
  LastUser [assistant_bc; user_a] [assistant_bc] user_a []
  /\ images (extractPromptAndImages [assistant_bc; user_a])
     = [img_a; img_b; img_c].
Proof.
  assert (H : LastUser [assistant_bc; user_a] [assistant_bc] user_a []).
  { split; [reflexivity|]. split; [reflexivity|constructor]. }
  split; [exact H|].
  exact (proj1 (extract_history_merge H)).
Defined.

(** C2 as worded fails when the earlier message repeats an image: the
    repeated reference equals no current image, yet it is kept once. *)
Lemma extract_history_repeat_kept_once :
  images (extractPromptAndImages [assistant_bb; user_a]) = [img_a; img_b]
  /\ current_images user_a
     ++ not_in_current (current_images user_a) (historical [assistant_bb])
     = [img_a; img_b; img_b].
Proof. split; reflexivity. Qed.

(** C6, as the code has it.  The image list is the current-turn images
    as supplied, followed by the history-recovered ones; the recovered
    part has no repeats and shares no entry with the current part.  The
    current part is copied as it is, so the whole list is free of
    duplicates when the current images are. *)
Theorem extract_images_current_then_history (messages : list Message) :
  (Forall (fun m => ~ IsUser m) messages
   /\ images (extractPromptAndImages messages) = [])
  \/ exists before u after kept,
       LastUser messages before u after
       /\ images (extractPromptAndImages messages) = current_images u ++ kept
       /\ NoDup kept
       /\ (forall x, In x kept ->
             ~ In x (current_images u) /\ In x (historical before))
       /\ (NoDup (current_images u) ->
             NoDup (images (extractPromptAndImages messages))).
Proof.
  destruct (last_user_cases messages) as [Hnone|(before & u & after & H)].
  - left. split; [assumption|]. now apply extract_no_user.
  - right. exists before, u, after, (fresh (current_images u) (historical before)).
    split; [assumption|].
    split; [exact (extract_split H)|].
    split; [apply fresh_NoDup|].
    split.
    + intros x Hx. apply fresh_In in Hx. tauto.
    + intros Hnd. rewrite (extract_split H).
      apply NoDup_app; [assumption|apply fresh_NoDup|].
      intros x Hc Hf. apply fresh_In in Hf. tauto.
Qed.

(** C6 as worded fails when the user message carries the same image
    twice: both copies stay in the list. *)
Lemma extract_current_duplicates_kept :
  images (extractPromptAndImages [user_aa]) = [img_a; img_a]
  /\ ~ NoDup (images (extractPromptAndImages [user_aa])).
Proof.
  split; [reflexivity|].
  change (~ NoDup [img_a; img_a]).
  intros Hnd. inversion Hnd as [|? ? Hin _]; subst.
  apply Hin. now left.
Qed.

End ExtractorFacts.

(* ================================================================== *)
(** * The response normalizer *)
(* ================================================================== *)

Module NormalizerFacts.
Import Adapters NormalizerSpec.

Lemma formatImage_entry img :
  formatImage img = match entry img with Some e => e | None => [] end.
Proof.
  unfold formatImage, entry, truthy_opt, interp.
  destruct (b64_json img) as [[|c d]|], (url img) as [[|c' u']|]; reflexivity.
Qed.

Lemma entry_nonempty img e : entry img = Some e -> exists c t, e = c :: t.
Proof.
  unfold entry.
  destruct (b64_json img) as [[|c d]|], (url img) as [[|c' u']|];
    intros E; inversion E; subst; eexists; eexists; reflexivity.
Qed.

Lemma filter_map_entries imageData :
  filter truthy_str (map formatImage imageData) = entries imageData.
Proof.
  induction imageData as [|img rest IH]; [reflexivity|].
  cbn [map filter entries]. rewrite formatImage_entry.
  destruct (entry img) as [e|] eqn:E.
  - destruct (entry_nonempty _ E) as (c & t & ->).
    cbn [truthy_str]. now rewrite IH.
  - cbn [truthy_str]. apply IH.
Qed.

Lemma entries_nonempty imageData e :
  In e (entries imageData) -> exists c t, e = c :: t.
Proof.
  induction imageData as [|img rest IH]; cbn [entries]; [intros []|].
  destruct (entry img) as [e'|] eqn:E; [|assumption].
  intros [<-|H]; [now apply (entry_nonempty img)|auto].
Qed.

Lemma join_head sep (e : jsstring) (rest : list jsstring) c t :
  e = c :: t -> exists t', join sep (e :: rest) = c :: t'.
Proof. intros ->. destruct rest; cbn [join]; eexists; reflexivity. Qed.

Lemma formatImages_normalize imageData :
  formatImages imageData = normalize imageData.
Proof.
  unfold formatImages, normalize. rewrite filter_map_entries.
  destruct (entries imageData) as [|e es] eqn:E; [reflexivity|].
  assert (Hin : In e (entries imageData)) by (rewrite E; now left).
  destruct (entries_nonempty _ _ Hin) as (c & t & He).
  destruct (join_head newline2 es He) as [t' ->]. reflexivity.
Qed.

(** C8.  For every list of generated images the normalizer formats an
    entry with inline base64 data as
    [![Generated Image](data:image/png;base64,<data>)] even when a URL
    is present too, an entry with only a URL as
    [![Generated Image](<url>)], skips an entry with neither, and joins
    the formatted entries with a blank line; when nothing is left to
    join, as for the empty list, the result is the fixed placeholder.
    The result is never the empty string, and the Gitee handler's
    two-step form computes the same string. *)
Theorem normalizer_format (imageData : list ImageDatum) :
  formatImages imageData = normalize imageData
  /\ giteeReturn (giteeResults imageData) = formatImages imageData
  /\ formatImages [] = failure_placeholder
  /\ failure_placeholder <> []
  /\ formatImages imageData <> []
  /\ (forall u,
        formatImages [ {| url := u; b64_json := Some (js "X") |};
                       {| url := Some (js "https://y"); b64_json := None |} ]
        = js "![Generated Image](data:image/png;base64,X)"
          ++ [10; 10]%N ++ js "![Generated Image](https://y)").
Proof.
  split; [apply formatImages_normalize|].
  split; [reflexivity|].
  split; [reflexivity|].
  split; [discriminate|].
  split.
  - rewrite formatImages_normalize. unfold normalize.
    destruct (entries imageData) as [|e es] eqn:E; [discriminate|].
    assert (Hin : In e (entries imageData)) by (rewrite E; now left).
    destruct (entries_nonempty _ _ Hin) as (c & t & He).
    destruct (join_head newline2 es He) as [t' ->]. discriminate.
  - intros u.
    rewrite formatImages_normalize. unfold normalize, entries, entry.
    cbn [b64_json url]. destruct u as [[|? ?]|]; reflexivity.
Qed.

End NormalizerFacts.

(* ================================================================== *)
(** * The SSE parser *)
(* ================================================================== *)

Module SseFacts.
Import Adapters SseSpec.

Section Parser.
Variable JSON_parse : jsstring -> option JSON.

(** The loop of the source computes what the machine computes, and
    only ever adds error-level log lines to the trace. *)
Lemma sse_loop_machine lines last tr :
  fst (sse_loop JSON_parse lines (awaiting last) tr)
  = sse_machine JSON_parse last lines
  /\ exists n,
       snd (sse_loop JSON_parse lines (awaiting last) tr)
       = tr ++ repeat (Log Error "HuggingFace") n.
Proof.
  revert last tr. induction lines as [|line rest IH]; intros last tr.
  - split; [reflexivity|]. exists 0. cbn. now rewrite app_nil_r.
  - cbn [sse_loop sse_machine]. unfold classify_line, substring_from.
    destruct (startsWith (js "event:") line) eqn:Hev.
    + destruct (jsstring_eqb (trim (skipn 6 line)) (js "complete")) eqn:Hc.
      * apply jsstring_eqb_eq in Hc. rewrite Hc.
        change (jsstring_eqb (js "complete") (js "error")) with false.
        cbv iota.
        apply (IH (Some (js "complete")) tr).
      * destruct (jsstring_eqb (trim (skipn 6 line)) (js "error")) eqn:He.
        -- split; [reflexivity|]. exists 0. cbn. now rewrite app_nil_r.
        -- specialize (IH (Some (trim (skipn 6 line))) tr).
           cbn [awaiting] in IH. rewrite Hc in IH. exact IH.
    + destruct (startsWith (js "data:") line) eqn:Hd; cbn [andb].
      * destruct last as [type|]; cbn [awaiting].
        -- destruct (jsstring_eqb type (js "complete")) eqn:Hc.
           ++ destruct (JSON_parse (trim (skipn 5 line))) as [data|].
              ** destruct (first_url data) as [u|].
                 --- split; [reflexivity|]. exists 0. cbn. now rewrite app_nil_r.
                 --- specialize (IH (Some type) tr). cbn [awaiting] in IH.
                     rewrite Hc in IH. exact IH.
              ** unfold bind, error, emit.
                 specialize (IH (Some type) (tr ++ [Log Error "HuggingFace"])).
                 cbn [awaiting] in IH. rewrite Hc in IH.
                 destruct IH as [IH1 [n IH2]].
                 split; [exact IH1|].
                 exists (S n). rewrite IH2. rewrite <- app_assoc. reflexivity.
           ++ specialize (IH (Some type) tr). cbn [awaiting] in IH.
              rewrite Hc in IH. exact IH.
        -- apply (IH None tr).
      * apply (IH last tr).
Qed.

End Parser.

Lemma first_url_array fields rest v :
  lookup (js "url") fields = Some v -> truthy v = true ->
  first_url (JArr (JObj fields :: rest)) = Some v.
Proof.
  intros Hl Ht. unfold first_url. cbn [truthy index0 nth_error get_url].
  now rewrite Hl, Ht.
Qed.

(** C5.  On every SSE text, split into lines at line feeds,
    [extractImageUrlFromSSE] behaves as the machine that remembers the
    type of the most recent [event:] line: an [error] event throws; a
    [data:] line is looked at only while the most recent event is
    [complete], and then it is parsed as JSON and the [url] of the
    first element is returned when there is one (for an array whose
    first element is an object with a truthy [url], that field); a
    [data:] line after any other event type is skipped.  The sample
    stream shows a payload ignored after [heartbeat], and after
    [complete] a junk line logged and skipped and the payload's URL
    returned. *)
Theorem extractImageUrlFromSSE_machine
        (JSON_parse : jsstring -> option JSON) (sseStream : jsstring) (tr : Trace) :
  fst (extractImageUrlFromSSE JSON_parse sseStream tr)
  = sse_machine JSON_parse None (split 10 sseStream)
  /\ (exists n, snd (extractImageUrlFromSSE JSON_parse sseStream tr)
                = tr ++ repeat (Log Error "HuggingFace") n)
  /\ (forall fields rest v,
        lookup (js "url") fields = Some v -> truthy v = true ->
        first_url (JArr (JObj fields :: rest)) = Some v)
  /\ run (extractImageUrlFromSSE sample_parse sample_stream)
     = (Ok (Some (JStr (js "https://img"))), [Log Error "HuggingFace"]).
Proof.
  unfold extractImageUrlFromSSE.
  destruct (sse_loop_machine JSON_parse (split 10 sseStream) None tr) as [H1 H2].
  split; [exact H1|]. split; [exact H2|].
  split; [apply first_url_array|]. reflexivity.
Qed.

End SseFacts.

(* ================================================================== *)
(** * The polling loop *)
(* ================================================================== *)

Module PollFacts.
Import Adapters Config PollSpec.

Section Loop.
Variable cfg : ProviderConfig.
Variable oracle : Oracle (Response CheckData).
Variable apiKey : jsstring.
Variable taskId : option jsstring.

Local Abbreviation loop := (poll_loop cfg oracle apiKey taskId).
Local Abbreviation Run := (PollRun cfg oracle apiKey taskId).
Local Abbreviation Pending := (AllPending cfg oracle apiKey taskId).
Local Abbreviation ans := (answer cfg oracle apiKey taskId).
Local Abbreviation rnd := (round cfg apiKey taskId).
Local Abbreviation the_request := (the_poll cfg apiKey taskId).

(** One iteration of the loop, by cases on the answer. *)
Lemma poll_loop_step n i tr :
  loop (S n) i tr
  = match ans tr with
    | Throw e => (Throw e, rnd tr)
    | Ok r =>
        if negb (ok r) then loop n (S i) (rnd tr ++ [Log Warn "ModelScope"])
        else match json r with
             | None => (Throw (Rejected (js "SyntaxError")), rnd tr)
             | Some cd =>
                 match task_status cd with
                 | Some st =>
                     if jsstring_eqb st (js "SUCCEED") then
                       (Ok (formatUrls (reported_urls cd)),
                        rnd tr ++ [Log Info "ModelScope"])
                     else if jsstring_eqb st (js "FAILED") then
                       (Throw (ModelScopeTaskFailed cd),
                        rnd tr ++ [Log Error "ModelScope"])
                     else loop n (S i) (rnd tr ++ [Log Debug "ModelScope"])
                 | None => loop n (S i) (rnd tr ++ [Log Debug "ModelScope"])
                 end
             end
    end.
Proof.
  cbn [poll_loop]. unfold bind, emit, call, answer, round.
  change (poll_request cfg apiKey taskId) with the_request.
  replace ((tr ++ [Sleep 5000]) ++ [Fetch the_request])
    with (tr ++ [Sleep 5000; Fetch the_request])
    by (now rewrite <- app_assoc).
  destruct (oracle (tr ++ [Sleep 5000]) the_request)
    as [r|e]; [|reflexivity].
  destruct (ok r); cbn [negb].
  - unfold read_json, warn, info, error, debug, emit, ret, throw.
    destruct (json r) as [cd|]; [|reflexivity].
    destruct (task_status cd) as [st|].
    + destruct (jsstring_eqb st (js "SUCCEED")); [reflexivity|].
      destruct (jsstring_eqb st (js "FAILED")); reflexivity.
    + reflexivity.
  - reflexivity.
Qed.

(** The loop always ends, along a run of the state machine. *)
Lemma poll_loop_run n : forall i tr,
  exists out tr' k, loop n i tr = (out, tr') /\ Run n tr out tr' k.
Proof.
  induction n as [|n IH]; intros i tr.
  - do 3 eexists. split; [reflexivity|]. constructor.
  - rewrite poll_loop_step.
    destruct (ans tr) as [r|e] eqn:Ha.
    2:{ do 3 eexists. split; [reflexivity|]. now apply poll_rejected. }
    destruct (ok r) eqn:Hok; cbn [negb].
    2:{ destruct (IH (S i) (rnd tr ++ [Log Warn "ModelScope"]))
          as (out & tr' & k & E & R).
        exists out, tr', (S k). split; [exact E|].
        eapply poll_http_error; eassumption. }
    destruct (json r) as [cd|] eqn:Hj.
    2:{ do 3 eexists. split; [reflexivity|]. now apply poll_bad_json with (r := r). }
    destruct (task_status cd) as [st|] eqn:Hst.
    + destruct (jsstring_eqb_spec st (js "SUCCEED")) as [->|Hs].
      { do 3 eexists. split; [reflexivity|]. eapply poll_succeed; eassumption. }
      destruct (jsstring_eqb_spec st (js "FAILED")) as [->|Hf].
      { do 3 eexists. split; [reflexivity|]. eapply poll_failed; eassumption. }
      destruct (IH (S i) (rnd tr ++ [Log Debug "ModelScope"]))
        as (out & tr' & k & E & R).
      exists out, tr', (S k). split; [exact E|].
      eapply poll_other_status; try eassumption; rewrite Hst; congruence.
    + destruct (IH (S i) (rnd tr ++ [Log Debug "ModelScope"]))
        as (out & tr' & k & E & R).
      exists out, tr', (S k). split; [exact E|].
      eapply poll_other_status; try eassumption; rewrite Hst; discriminate.
Qed.

Lemma count_fetches_app a b :
  count_fetches (a ++ b) = count_fetches a + count_fetches b.
Proof. unfold count_fetches. now rewrite filter_app, length_app. Qed.

Lemma count_fetches_round tr : count_fetches (rnd tr) = S (count_fetches tr).
Proof. unfold round. rewrite count_fetches_app. cbn. lia. Qed.

(** A run polls at most as often as there are attempts, and every poll
    is one outbound call. *)
Lemma PollRun_count n tr out tr' k :
  Run n tr out tr' k ->
  k <= n /\ count_fetches tr' = count_fetches tr + k.
Proof.
  induction 1;
    rewrite ?count_fetches_app, ?count_fetches_round in *; cbn in *; lia.
Qed.

(** Polls that see no terminal status only use up attempts. *)
Lemma poll_loop_pending k : forall n i tr tr1,
  Pending k tr tr1 -> loop (k + n) i tr = loop n (i + k) tr1.
Proof.
  induction k as [|k IH]; intros n i tr tr1 H; inversion H; subst.
  - now rewrite Nat.add_0_r.
  - cbn [Nat.add]. rewrite poll_loop_step.
    match goal with Ha : ans tr = _, Ho : ok _ = _ |- _ => rewrite Ha, Ho end.
    cbn [negb]. rewrite Nat.add_succ_r. now apply IH.
  - cbn [Nat.add]. rewrite poll_loop_step.
    match goal with
      Ha : ans tr = _, Ho : ok _ = _, Hj : json _ = _ |- _ =>
        rewrite Ha, Ho, Hj
    end.
    cbn [negb]. rewrite Nat.add_succ_r.
    destruct (task_status cd) as [st|] eqn:Hst; [|now apply IH].
    destruct (jsstring_eqb_spec st (js "SUCCEED")) as [->|Hs]; [congruence|].
    destruct (jsstring_eqb_spec st (js "FAILED")) as [->|Hf]; [congruence|].
    now apply IH.
Qed.

Lemma Pending_count k tr tr1 :
  Pending k tr tr1 -> count_fetches tr1 = count_fetches tr + k.
Proof.
  induction 1;
    rewrite ?count_fetches_app, ?count_fetches_round in *; cbn in *; lia.
Qed.

Lemma count_polls_app a b :
  count_polls (a ++ b) = count_polls a + count_polls b.
Proof. unfold count_polls. now rewrite filter_app, length_app. Qed.

Lemma count_polls_round tr : count_polls (rnd tr) = S (count_polls tr).
Proof. unfold round. rewrite count_polls_app. cbn. lia. Qed.

(** Every poll of a run is one GET call. *)
Lemma PollRun_polls n tr out tr' k :
  Run n tr out tr' k -> count_polls tr' = count_polls tr + k.
Proof.
  induction 1;
    rewrite ?count_polls_app, ?count_polls_round in *; cbn in *; lia.
Qed.

Lemma Pending_polls k tr tr1 :
  Pending k tr tr1 -> count_polls tr1 = count_polls tr + k.
Proof.
  induction 1;
    rewrite ?count_polls_app, ?count_polls_round in *; cbn in *; lia.
Qed.

End Loop.

Section Handler.
Variable cfg : ProviderConfig.
Variable submit : Oracle (Response (option jsstring)).
Variable oracle : Oracle (Response CheckData).
Variable apiKey : jsstring.

Local Abbreviation handler := (handleModelScope cfg submit oracle apiKey).

(** The handler submits once, and polls only when the submission is
    accepted: from there on it is the polling loop. *)
Lemma handleModelScope_submits reqBody prompt tr :
  exists pre sub,
    count_fetches pre = count_fetches tr
    /\ count_polls pre = count_polls tr
    /\ req_url sub = apiUrl cfg ++ js "/images/generations"
    /\ req_method sub = POST
    /\ handler reqBody prompt tr
       = match submit pre sub with
         | Throw e => (Throw e, pre ++ [Fetch sub])
         | Ok r =>
             if ok r then
               match json r with
               | Some taskId =>
                   poll_loop cfg oracle apiKey taskId maxAttempts 0
                     ((pre ++ [Fetch sub]) ++ [Log Info "ModelScope"])
               | None => (Throw (Rejected (js "SyntaxError")), pre ++ [Fetch sub])
               end
             else (Throw (ModelScopeSubmitError (status r) (text r)),
                   pre ++ [Fetch sub])
         end.
Proof.
  unfold handleModelScope.
  unfold logFullPrompt, logImageGenerationStart.
  unfold bind at 1. unfold emit at 1. unfold bind at 1. unfold emit at 1.
  unfold bind at 1. unfold call at 1.
  match goal with
  | |- context [submit ?p ?q] => exists p, q
  end.
  split; [now rewrite !count_fetches_app; cbn; lia|].
  split; [now rewrite !count_polls_app; cbn; lia|].
  split; [reflexivity|]. split; [reflexivity|].
  match goal with
  | |- context [submit ?p ?q] => destruct (submit p q) as [r|e]
  end; [|reflexivity].
  destruct (ok r); cbn [negb]; [|reflexivity].
  unfold read_json, bind, ret, throw, info, emit.
  destruct (json r) as [taskId|]; reflexivity.
Qed.

End Handler.


End PollFacts.

(* ================================================================== *)
(** * The failover loop *)
(* ================================================================== *)

Module FailoverFacts.
Import Adapters Config FailoverSpec PollSpec.

Lemma post_urls_app a b : post_urls (a ++ b) = post_urls a ++ post_urls b.
Proof. unfold post_urls. apply flat_map_app. Qed.

Lemma post_urls_repeat_log lvl m n : post_urls (repeat (Log lvl m) n) = [].
Proof. induction n; [reflexivity|]. cbn. assumption. Qed.

Lemma count_fetches_snoc_log tr lvl m :
  count_fetches (tr ++ [Log lvl m]) = count_fetches tr.
Proof.
  unfold count_fetches. rewrite filter_app, length_app. cbn. lia.
Qed.

(** An event other than an outbound call. *)
Lemma count_fetches_snoc_quiet tr ev :
  is_fetch ev = false -> count_fetches (tr ++ [ev]) = count_fetches tr.
Proof.
  intros H. unfold count_fetches. rewrite filter_app, length_app. cbn.
  rewrite H. cbn. lia.
Qed.

Lemma post_urls_snoc_quiet tr ev :
  is_fetch ev = false -> post_urls (tr ++ [ev]) = post_urls tr.
Proof.
  intros H. rewrite post_urls_app. destruct ev; try discriminate H;
    cbn; now rewrite app_nil_r.
Qed.

Section Loop.
Variable JSON_parse : jsstring -> option JSON.
Variable ToString_other : JSON -> jsstring.
Variable hf_queue : Oracle (Response (option jsstring)).
Variable hf_result : Oracle (Response unit).
Variable apiKey : jsstring.
Variable requestBody : JSON.

Local Abbreviation attempt :=
  (hf_attempt JSON_parse ToString_other hf_queue hf_result apiKey requestBody).
Local Abbreviation failover :=
  (hf_failover JSON_parse ToString_other hf_queue hf_result apiKey requestBody).

(** One attempt submits exactly one job, to the URL's own queue. *)
Lemma attempt_posts u tr :
  post_urls (snd (attempt u tr)) = post_urls tr ++ [queue_url u].
Proof.
  unfold hf_attempt, bind, call.
  destruct (hf_queue tr _) as [q|e]; cbn [snd];
    [|now rewrite post_urls_app].
  destruct (ok q); cbn [negb]; [|unfold throw; cbn [snd]; now rewrite post_urls_app].
  unfold read_json. destruct (json q) as [event_id|];
    [|unfold throw; cbn [snd]; now rewrite post_urls_app].
  unfold ret, info, emit.
  match goal with
  | |- context [hf_result ?t ?r] => destruct (hf_result t r) as [res|e]
  end; cbn [snd]; [|rewrite !post_urls_app; cbn; now rewrite !app_nil_r].
  destruct (ok res); cbn [negb];
    [|unfold throw; cbn [snd]; rewrite !post_urls_app; cbn; now rewrite !app_nil_r].
  match goal with
  | |- context [extractImageUrlFromSSE JSON_parse ?s ?t] =>
      destruct (SseFacts.sse_loop_machine JSON_parse (split 10 s) None t)
        as [_ [n Hn]];
      unfold extractImageUrlFromSSE;
      destruct (sse_loop JSON_parse (split 10 s) false t) as [[o|e] t'] eqn:E
  end; cbn [SseSpec.awaiting] in Hn; rewrite E in Hn; cbn [snd] in Hn; subst.
  - destruct o as [v|]; unfold throw; cbn [snd];
      rewrite !post_urls_app, post_urls_repeat_log; cbn; now rewrite !app_nil_r.
  - cbn [snd]. rewrite !post_urls_app, post_urls_repeat_log. cbn.
    now rewrite !app_nil_r.
Qed.

(** One round of the loop, by cases on the attempt. *)
Lemma failover_step u rest last tr :
  failover (u :: rest) last tr
  = match attempt u (tr ++ [Log Info "HuggingFace"]) with
    | (Ok x, tr1) => (Ok x, tr1)
    | (Throw e, tr1) => failover rest (Some e) (recorded tr1 rest)
    end.
Proof.
  cbn [hf_failover]. unfold bind at 1. unfold info at 1, emit at 1.
  unfold bind at 1. unfold try_catch. unfold bind at 1.
  destruct (attempt u (tr ++ [Log Info "HuggingFace"])) as [[x|e] tr1].
  - reflexivity.
  - unfold recorded, bind, error, info, emit, ret.
    destruct rest as [|u' rest']; cbn [length Nat.eqb app].
    + reflexivity.
    + now rewrite <- app_assoc.
Qed.

(** The loop always ends, along a run of [Failover]. *)
Lemma failover_run pool : forall last tr,
  exists out tr' tried,
    failover pool last tr = (out, tr')
    /\ Failover attempt pool last tr out tr' tried.
Proof.
  induction pool as [|u rest IH]; intros last tr.
  - do 3 eexists. split; [reflexivity|]. constructor.
  - rewrite failover_step.
    destruct (attempt u (tr ++ [Log Info "HuggingFace"])) as [[x|e] tr1] eqn:E.
    + do 3 eexists. split; [reflexivity|]. now apply failover_success.
    + destruct (IH (Some e) (recorded tr1 rest)) as (out & tr' & tried & E' & R).
      exists out, tr', (u :: tried). split; [exact E'|].
      eapply failover_next; eassumption.
Qed.

(** The URLs tried are an initial segment of the pool, each tried
    once and in order; a failure means the whole pool was tried. *)
Lemma Failover_tried pool last tr out tr' tried :
  Failover attempt pool last tr out tr' tried ->
  (exists rest, pool = tried ++ rest
                /\ (forall e, out = Throw e -> rest = []))
  /\ post_urls tr' = post_urls tr ++ map queue_url tried.
Proof.
  induction 1 as [last tr|u rest last tr x tr1 Ha
                  |u rest last tr e tr1 out tr' tried Ha _ IH].
  - split; [exists []; split; [reflexivity|auto]|].
    rewrite post_urls_app. cbn. reflexivity.
  - split; [exists rest; split; [reflexivity|discriminate]|].
    pose proof (attempt_posts u (tr ++ [Log Info "HuggingFace"])) as P.
    rewrite Ha in P. cbn [snd] in P. rewrite P, post_urls_app. cbn.
    now rewrite app_nil_r.
  - destruct IH as [(rest' & -> & Hthrow) IH].
    split; [exists rest'; split; [reflexivity|exact Hthrow]|].
    rewrite IH. unfold recorded. rewrite !post_urls_app.
    pose proof (attempt_posts u (tr ++ [Log Info "HuggingFace"])) as P.
    rewrite Ha in P. cbn [snd] in P. rewrite P, post_urls_app.
    destruct (tried ++ rest'); cbn; rewrite ?app_nil_r, <- ?app_assoc; reflexivity.
Qed.

(** URLs that raise are passed over, the last error being recorded. *)
Lemma failover_all_raise pre rest last tr last' tr' :
  AllRaise attempt pre rest last tr last' tr' ->
  failover (pre ++ rest) last tr = failover rest last' tr'.
Proof.
  induction 1 as [|u urls rest last tr e tr1 last' tr' Ha _ IH];
    [reflexivity|].
  cbn [app]. rewrite failover_step, Ha. exact IH.
Qed.

Lemma AllRaise_posts pre rest last tr last' tr' :
  AllRaise attempt pre rest last tr last' tr' ->
  post_urls tr' = post_urls tr ++ map queue_url pre.
Proof.
  induction 1 as [|u urls rest last tr e tr1 last' tr' Ha _ IH].
  - cbn. now rewrite app_nil_r.
  - rewrite IH. unfold recorded. rewrite !post_urls_app.
    pose proof (attempt_posts u (tr ++ [Log Info "HuggingFace"])) as P.
    rewrite Ha in P. cbn [snd] in P. rewrite P, post_urls_app.
    destruct (urls ++ rest); cbn; rewrite ?app_nil_r, <- ?app_assoc; reflexivity.
Qed.

End Loop.



End FailoverFacts.
(* ================================================================== *)
(** * The size sent by the HuggingFace handler *)
(* ================================================================== *)

Module SizeFacts.
Import Adapters Config WireSpec SizeSpec FailoverSpec.

Lemma or_1024_dimension size i :
  or_1024 (nth_error (map Number (split 120 size)) i) = dimension size i.
Proof.
  unfold dimension, or_1024. rewrite nth_error_map.
  now destruct (nth_error (split 120 size) i).
Qed.

Lemma dimension_truthy size i : truthy_num (dimension size i) = true.
Proof.
  unfold dimension.
  destruct (nth_error (split 120 size) i) as [part|]; [|reflexivity].
  destruct (truthy_num (Number part)) eqn:E; [exact E|reflexivity].
Qed.

(** A truthy Number is written as itself when it is finite and as
    [null] when it is not. *)
Lemma written_truthy x :
  truthy_num x = true ->
  finite_nonzero_or_null (written x)
  /\ (is_finite x = true -> written x = JNum x)
  /\ (is_finite x = false -> written x = JNull).
Proof.
  destruct x; cbn; intros H; try discriminate H.
  - split; [now left|]. split; [discriminate|reflexivity].
  - split; [right; eexists; repeat split; reflexivity|].
    split; [reflexivity|discriminate].
Qed.

(** ** The bodies of the POST calls *)

Lemma requests_app a b : requests (a ++ b) = requests a ++ requests b.
Proof. unfold requests. apply flat_map_app. Qed.

Lemma posted_app a b : posted (a ++ b) = posted a ++ posted b.
Proof. unfold posted. rewrite requests_app. apply flat_map_app. Qed.

Lemma posted_snoc_quiet tr ev :
  PollSpec.is_fetch ev = false -> posted (tr ++ [ev]) = posted tr.
Proof.
  intros H. rewrite posted_app. destruct ev; try discriminate H;
    cbn; now rewrite app_nil_r.
Qed.

Lemma posted_repeat_log lvl m n : posted (repeat (Log lvl m) n) = [].
Proof. induction n; [reflexivity|]. cbn. assumption. Qed.

Section Loop.
Variable JSON_parse : jsstring -> option JSON.
Variable ToString_other : JSON -> jsstring.
Variable hf_queue : Oracle (Response (option jsstring)).
Variable hf_result : Oracle (Response unit).
Variable apiKey : jsstring.
Variable requestBody : JSON.

Local Abbreviation attempt :=
  (hf_attempt JSON_parse ToString_other hf_queue hf_result apiKey requestBody).
Local Abbreviation failover :=
  (hf_failover JSON_parse ToString_other hf_queue hf_result apiKey requestBody).

(** One attempt posts the request body once, as it is. *)
Lemma attempt_posted u tr :
  posted (snd (attempt u tr)) = posted tr ++ [JsonBody requestBody].
Proof.
  unfold hf_attempt, bind, call.
  destruct (hf_queue tr _) as [q|e]; cbn [snd];
    [|now rewrite posted_app].
  destruct (ok q); cbn [negb]; [|unfold throw; cbn [snd]; now rewrite posted_app].
  unfold read_json. destruct (json q) as [event_id|];
    [|unfold throw; cbn [snd]; now rewrite posted_app].
  unfold ret, info, emit.
  match goal with
  | |- context [hf_result ?t ?r] => destruct (hf_result t r) as [res|e]
  end; cbn [snd]; [|rewrite !posted_app; cbn; now rewrite !app_nil_r].
  destruct (ok res); cbn [negb];
    [|unfold throw; cbn [snd]; rewrite !posted_app; cbn; now rewrite !app_nil_r].
  match goal with
  | |- context [extractImageUrlFromSSE JSON_parse ?s ?t] =>
      destruct (SseFacts.sse_loop_machine JSON_parse (split 10 s) None t)
        as [_ [n Hn]];
      unfold extractImageUrlFromSSE;
      destruct (sse_loop JSON_parse (split 10 s) false t) as [[o|e] t'] eqn:E
  end; cbn [SseSpec.awaiting] in Hn; rewrite E in Hn; cbn [snd] in Hn; subst.
  - destruct o as [v|]; unfold throw; cbn [snd];
      rewrite !posted_app, posted_repeat_log; cbn; now rewrite !app_nil_r.
  - cbn [snd]. rewrite !posted_app, posted_repeat_log. cbn.
    now rewrite !app_nil_r.
Qed.

(** The loop posts that same body once per URL tried, and at least
    once when there is a URL. *)
Lemma failover_posted pool : forall last tr,
  exists n,
    posted (snd (failover pool last tr))
    = posted tr ++ repeat (JsonBody requestBody) n
    /\ n <= length pool
    /\ (pool <> [] -> 1 <= n).
Proof.
  induction pool as [|u rest IH]; intros last tr.
  - exists 0. cbn [hf_failover]. unfold bind, error, emit, throw. cbn [snd].
    rewrite posted_snoc_quiet by reflexivity. cbn [repeat].
    rewrite app_nil_r. split; [reflexivity|]. split; [cbn; lia|].
    intros H. now contradiction H.
  - rewrite FailoverFacts.failover_step.
    pose proof (attempt_posted u (tr ++ [Log Info "HuggingFace"])) as P.
    rewrite posted_snoc_quiet in P by reflexivity.
    destruct (attempt u (tr ++ [Log Info "HuggingFace"])) as [[x|e] tr1].
    + exists 1. cbn [snd] in *. split; [exact P|]. cbn [length]. lia.
    + cbn [snd] in P.
      destruct (IH (Some e) (recorded tr1 rest)) as (n & Hn & Hle & _).
      exists (S n). rewrite Hn. unfold recorded.
      assert (Hrec : posted (tr1 ++ [Log Error "HuggingFace"]
                              ++ match rest with
                                 | [] => []
                                 | _ :: _ => [Log Info "HuggingFace"]
                                 end) = posted tr1).
      { rewrite posted_app. destruct rest; cbn; now rewrite app_nil_r. }
      rewrite Hrec, P, <- app_assoc. cbn [length repeat app].
      split; [reflexivity|]. lia.
Qed.

End Loop.

Lemma stringify_payload seed cfg reqBody prompt :
  JsonBody (JSON_stringify
              (JObj [(js "data", JArr (hf_payload seed cfg reqBody prompt))]))
  = submitted seed cfg reqBody prompt.
Proof.
  unfold submitted, hf_payload, parse_size.
  fold (resolved_size cfg reqBody).
  rewrite !or_1024_dimension.
  cbn [JSON_stringify map fst snd].
  change (JSON_stringify (JNum (dimension (resolved_size cfg reqBody) 1)))
    with (written (dimension (resolved_size cfg reqBody) 1)).
  change (JSON_stringify (JNum (dimension (resolved_size cfg reqBody) 0)))
    with (written (dimension (resolved_size cfg reqBody) 0)).
  change (JSON_stringify (JNum (of_N seed))) with (written (of_N seed)).
  replace (JSON_stringify (JNum (of_N steps))) with (JNum (of_N 9))
    by (vm_compute; reflexivity).
  reflexivity.
Qed.

(** C10, as the code has it.  In the array that the HuggingFace
    handler builds, height and width are always Numbers that are
    neither NaN nor zero (and never undefined): the width comes from
    the first and the height from the second [x]-separated piece of the
    resolved size string, each being [Number(piece)] when that value is
    truthy and 1024 when the piece is missing or evaluates to NaN or
    zero.  Every POST of the handler carries the JSON text of that
    array, once per URL tried: there a dimension stands as itself when
    it is finite, and as [null] when it is infinite.  So ["2048x2048"]
    gives 2048 and 2048, ["2K"] and the empty string give 1024 and 1024
    and ["512x0"] gives width 512 and height 1024.  Nothing restricts a
    truthy value to be positive or finite. *)
Theorem hf_payload_dimensions
        (JSON_parse : jsstring -> option JSON) (ToString_other : JSON -> jsstring)
        (seed : N) (cfg : HuggingFaceProviderConfig)
        (hf_queue : Oracle (Response (option jsstring)))
        (hf_result : Oracle (Response unit))
        (apiKey : jsstring) (reqBody : ChatRequest) (prompt : jsstring)
        (images : list jsstring) (tr : Trace) :
  let size := resolved_size cfg reqBody in
  let out := handleHuggingFace JSON_parse ToString_other seed cfg
               hf_queue hf_result apiKey reqBody prompt images tr in
  hf_payload seed cfg reqBody prompt
  = [JStr (or_str prompt default_prompt);
     JNum (dimension size 1);
     JNum (dimension size 0);
     JNum (of_N 9);
     JNum (of_N seed);
     JBool false]
  /\ truthy_num (dimension size 0) = true
  /\ truthy_num (dimension size 1) = true
  /\ (exists n,
        posted (snd out)
        = posted tr ++ repeat (submitted seed cfg reqBody prompt) n
        /\ n <= length (apiUrls cfg)
        /\ (apiUrls cfg <> [] -> 1 <= n))
  /\ (forall i,
        finite_nonzero_or_null (written (dimension size i))
        /\ (is_finite (dimension size i) = true ->
            written (dimension size i) = JNum (dimension size i))
        /\ (is_finite (dimension size i) = false ->
            written (dimension size i) = JNull))
  /\ (written (dimension (js "2048x2048") 0) = JNum (of_N 2048)
      /\ written (dimension (js "2048x2048") 1) = JNum (of_N 2048)
      /\ is_finite (of_N 2048) = true /\ is_positive (of_N 2048) = true)
  /\ (written (dimension (js "2K") 0) = JNum (of_N 1024)
      /\ written (dimension (js "2K") 1) = JNum (of_N 1024))
  /\ (written (dimension (js "512x0") 0) = JNum (of_N 512)
      /\ written (dimension (js "512x0") 1) = JNum (of_N 1024))
  /\ (written (dimension (js "x") 0) = JNum (of_N 1024)
      /\ written (dimension (js "x") 1) = JNum (of_N 1024))
  /\ (written (dimension [] 0) = JNum (of_N 1024)
      /\ written (dimension [] 1) = JNum (of_N 1024)).
Proof.
  intros size out. split.
  { unfold hf_payload, parse_size. fold (resolved_size cfg reqBody). fold size.
    now rewrite !or_1024_dimension. }
  split; [apply dimension_truthy|]. split; [apply dimension_truthy|].
  split.
  { subst out. unfold handleHuggingFace.
    unfold logFullPrompt, logInputImages, logImageGenerationStart.
    pose proof (stringify_payload seed cfg reqBody prompt) as Hbody.
    unfold bind, warn, info, error, emit, throw, ret.
    destruct (apiUrls cfg) as [|u rest] eqn:Hpool; cbn [length Nat.eqb].
    - exists 0. cbn [repeat]. rewrite app_nil_r.
      destruct (Nat.ltb 0 (length images)); cbv beta iota zeta; cbn [snd];
        rewrite !posted_snoc_quiet by reflexivity;
        (split; [reflexivity|]); (split; [lia|]);
        intros H; now contradiction H.
    - destruct (Nat.ltb 0 (length images)); cbv beta iota zeta;
        match goal with
        | |- context [hf_failover _ _ _ _ _ ?b ?p ?l ?t] =>
            destruct (failover_posted JSON_parse ToString_other hf_queue
                        hf_result apiKey b p l t) as (n & Hn & Hle & Hge)
        end;
        exists n; rewrite Hn, !posted_snoc_quiet by reflexivity;
        rewrite Hbody;
        (split; [reflexivity|]); (split; [exact Hle|]);
        intros _; apply Hge; discriminate. }
  split.
  { intros i. apply written_truthy, dimension_truthy. }
  repeat split; vm_compute; reflexivity.
Qed.

(** C10 as worded fails: with the pool of three whose third URL
    delivers, a size of ["-5x-5"] is posted with a negative width and
    height, and ["Infinityx1e999"] with [null] for both. *)
Lemma hf_payload_negative_or_infinite :
  (let out := run (handleHuggingFace SseSpec.sample_parse (fun _ => []) 7 pool3
                     queue_first_down result_third_delivers
                     (js "hf_abc") (sized "-5x-5") (js "a red fox") []) in
   fst out = Ok (js "![Generated Image](https://img)")
   /\ posted (snd out)
      = repeat (JsonBody
                  (JObj [(js "data",
                          JArr [JStr (js "a red fox");
                                JNum (Number (js "-5")); JNum (Number (js "-5"));
                                JNum (of_N 9); JNum (of_N 7); JBool false])])) 3)
  /\ is_positive (Number (js "-5")) = false
  /\ (let out := run (handleHuggingFace SseSpec.sample_parse (fun _ => []) 7 pool3
                        queue_first_down result_third_delivers
                        (js "hf_abc") (sized "Infinityx1e999") (js "a red fox") []) in
      fst out = Ok (js "![Generated Image](https://img)")
      /\ posted (snd out)
         = repeat (JsonBody
                     (JObj [(js "data",
                             JArr [JStr (js "a red fox"); JNull; JNull;
                                   JNum (of_N 9); JNum (of_N 7); JBool false])])) 3)
  /\ Number (js "Infinity") = S754_infinity false
  /\ Number (js "1e999") = S754_infinity false.
Proof. cbv zeta. repeat split; vm_compute; reflexivity. Qed.

End SizeFacts.

(* ================================================================== *)
(** * The dispatcher and the [stream] flag *)
(* ================================================================== *)

Module StreamFacts.
Import Adapters Config Extractor WireSpec StreamSpec.

Section Dispatch.
Variable btoa : jsstring -> jsstring.
Variable atob : jsstring -> option jsstring.
Variable JSON_parse : jsstring -> option JSON.
Variable ToString_other : JSON -> jsstring.
Variable seed : N.
Variable VolcCfg : ProviderConfig.
Variable GiteeCfg : GiteeProviderConfig.
Variable ModelScopeCfg : ProviderConfig.
Variable HuggingFaceCfg : HuggingFaceProviderConfig.
Variable image_host : Oracle ImageResponse.
Variable volc_api : Oracle (Response (option (list ImageDatum))).
Variable gitee_api : Oracle (Response (option (list ImageDatum))).
Variable modelscope_submit : Oracle (Response (option jsstring)).
Variable modelscope_task : Oracle (Response CheckData).
Variable hf_queue : Oracle (Response (option jsstring)).
Variable hf_result : Oracle (Response unit).
Variable randomUUID : jsstring.
Variable created : N.

Local Abbreviation gen :=
  (generate btoa atob JSON_parse ToString_other seed VolcCfg GiteeCfg
            ModelScopeCfg HuggingFaceCfg image_host volc_api gitee_api
            modelscope_submit modelscope_task hf_queue hf_result).
Local Abbreviation handle :=
  (handleChatCompletions btoa atob JSON_parse ToString_other seed VolcCfg
     GiteeCfg ModelScopeCfg HuggingFaceCfg image_host volc_api gitee_api
     modelscope_submit modelscope_task hf_queue hf_result randomUUID created).

(** No handler reads the flag: extraction, handler choice, outbound
    requests and the image content are the same for both bodies. *)
Lemma generate_ignores_stream provider apiKey rb s1 s2 tr :
  gen provider apiKey (with_stream rb s1) tr
  = gen provider apiKey (with_stream rb s2) tr.
Proof. destruct provider; reflexivity. Qed.

(** The envelope built by the dispatcher is the one written out in
    [StreamSpec]. *)
Lemma envelope_wrapped rb s content :
  envelope randomUUID created (with_stream rb s) content
  = wrapped (wants_stream s) (js "chatcmpl-" ++ randomUUID) created
            (opt_or (model rb) (js "unknown-model")) content.
Proof.
  unfold envelope, isStream, with_stream. cbn [stream model].
  destruct s as [[|]|]; cbn [wants_stream wrapped]; reflexivity.
Qed.

(** The dispatcher never throws.  Either it answers without a
    completion, the same whatever the flag; or the handler of a
    recognized provider has returned a content, and the answer is the
    envelope of that content for the flag. *)
Lemma handle_cases req rb tr :
  (exists r tr',
      (resp_status r <> 200%N \/ pathname req <> completions_path)
      /\ forall s,
           handle (with_body req (Some (with_stream rb s))) tr = (Ok r, tr'))
  \/ (exists authHeader provider tr1 content tr2,
        pathname req = completions_path
        /\ authorization req = Some authHeader
        /\ Router.detectProvider
             (trim (remove_first (js "Bearer ") authHeader)) tr
           = (Ok provider, tr1)
        /\ provider <> Unknown
        /\ (forall s,
              gen provider (trim (remove_first (js "Bearer ") authHeader))
                  (with_stream rb s) (tr1 ++ [Log Info "HTTP"])
              = (Ok content, tr2))
        /\ forall s,
            handle (with_body req (Some (with_stream rb s))) tr
            = (Ok (envelope randomUUID created (with_stream rb s) content),
               tr2 ++ [Log Info "HTTP"])).
Proof.
  assert (Hgen : forall s s' provider apiKey tr0,
             gen provider apiKey (with_stream rb s') tr0
             = gen provider apiKey (with_stream rb s) tr0)
    by (intros; apply generate_ignores_stream).
  unfold handleChatCompletions, with_body. cbn [pathname authorization body].
  destruct (jsstring_eqb (pathname req) (js "/")
            || jsstring_eqb (pathname req) (js "/health"))%bool eqn:Hh.
  { left. do 2 eexists. split; [|intros s; reflexivity].
    right. unfold completions_path. intros Hp. rewrite Hp in Hh.
    discriminate Hh. }
  destruct (jsstring_eqb_spec (pathname req) (js "/v1/chat/completions"))
    as [Hp|Hp]; cbn [negb].
  2:{ left. do 2 eexists. split; [|intros s; reflexivity].
      left. cbn. discriminate. }
  destruct (authorization req) as [authHeader|] eqn:Ha.
  2:{ left. do 2 eexists. split; [|intros s; reflexivity].
      left. cbn. discriminate. }
  cbn [truthy_opt interp].
  set (apiKey := trim (remove_first (js "Bearer ") authHeader)).
  destruct (truthy_str apiKey) eqn:Hk; cbn [negb].
  2:{ left. do 2 eexists. split; [|intros s; reflexivity].
      left. cbn. discriminate. }
  destruct (Router.detectProvider apiKey tr) as [[provider|e] tr1] eqn:Hd.
  2:{ rewrite RouterFacts.detectProvider_run in Hd.
      destruct (negb (truthy_str apiKey)); discriminate. }
  destruct (Provider_eq_dec provider Unknown) as [Hu|Hu] eqn:Hdec.
  { left. exists (json_response 401
                    (JObj [(js "error",
                            JStr (js "Invalid API Key format. Could not detect provider."))])).
    eexists. split; [left; cbn; discriminate|].
    intros s. unfold bind. rewrite Hd, Hdec. reflexivity. }
  destruct (gen provider apiKey (with_stream rb None) (tr1 ++ [Log Info "HTTP"]))
    as [[content|e] tr2] eqn:Hg.
  - right. exists authHeader, provider, tr1, content, tr2.
    split; [exact Hp|]. split; [reflexivity|]. split; [exact Hd|].
    split; [exact Hu|]. split.
    + intros s. fold apiKey. now rewrite (Hgen None s).
    + intros s. unfold bind, try_catch, info, emit, ret.
      rewrite Hd, Hdec, (Hgen None s), Hg. reflexivity.
  - left. do 2 eexists. split; [|intros s].
    2:{ unfold bind, try_catch, info, error, emit, ret.
        rewrite Hd, Hdec, (Hgen None s), Hg. reflexivity. }
    left. cbn. discriminate.
Qed.

End Dispatch.

Lemma wrapped_differ id created model content :
  sse_wrapped id created model content <> json_wrapped id created model content.
Proof. unfold sse_wrapped, json_wrapped. intros H. discriminate H. Qed.

(** C9.  Two requests that differ only in the [stream] flag of the
    body are handled alike: the same prompt and image list are
    extracted, the handler chosen runs the same way (same events, same
    image content or error), and the two runs of the dispatcher make
    the same routing decision and the same outbound requests.  When no
    completion is produced the two answers are equal.  Otherwise the
    handler of the recognized provider has returned one image content,
    and each answer is the envelope of that content for its flag: with
    [stream] set to [true] a content chunk carrying the content, an end
    chunk and the terminal marker, and otherwise the single JSON
    completion carrying the same content; the two shapes are never
    equal. *)
Theorem stream_flag_changes_only_envelope
        (btoa : jsstring -> jsstring) (atob : jsstring -> option jsstring)
        (JSON_parse : jsstring -> option JSON) (ToString_other : JSON -> jsstring)
        (seed : N)
        (VolcCfg : ProviderConfig) (GiteeCfg : GiteeProviderConfig)
        (ModelScopeCfg : ProviderConfig) (HuggingFaceCfg : HuggingFaceProviderConfig)
        (image_host : Oracle ImageResponse)
        (volc_api gitee_api : Oracle (Response (option (list ImageDatum))))
        (modelscope_submit : Oracle (Response (option jsstring)))
        (modelscope_task : Oracle (Response CheckData))
        (hf_queue : Oracle (Response (option jsstring)))
        (hf_result : Oracle (Response unit))
        (randomUUID : jsstring) (created : N)
        (req : Request) (rb : ChatRequest) (s1 s2 : option bool) (tr : Trace) :
  let gen :=
    generate btoa atob JSON_parse ToString_other seed VolcCfg GiteeCfg
             ModelScopeCfg HuggingFaceCfg image_host volc_api gitee_api
             modelscope_submit modelscope_task hf_queue hf_result in
  let handle :=
    handleChatCompletions btoa atob JSON_parse ToString_other seed VolcCfg
      GiteeCfg ModelScopeCfg HuggingFaceCfg image_host volc_api gitee_api
      modelscope_submit modelscope_task hf_queue hf_result randomUUID created in
  let rb1 := with_stream rb s1 in
  let rb2 := with_stream rb s2 in
  let out1 := handle (with_body req (Some rb1)) tr in
  let out2 := handle (with_body req (Some rb2)) tr in
  let id := js "chatcmpl-" ++ randomUUID in
  let name := opt_or (model rb) (js "unknown-model") in
  extractPromptAndImages (messages_of rb1) = extractPromptAndImages (messages_of rb2)
  /\ (forall provider apiKey tr0,
        gen provider apiKey rb1 tr0 = gen provider apiKey rb2 tr0)
  /\ routed (snd out1) = routed (snd out2)
  /\ outbound (snd out1) = outbound (snd out2)
  /\ (exists r1 r2,
        fst out1 = Ok r1 /\ fst out2 = Ok r2
        /\ ((r1 = r2
             /\ (resp_status r1 <> 200%N \/ pathname req <> completions_path))
            \/ exists authHeader provider tr1 content tr2,
                 pathname req = completions_path
                 /\ authorization req = Some authHeader
                 /\ Router.detectProvider
                      (trim (remove_first (js "Bearer ") authHeader)) tr
                    = (Ok provider, tr1)
                 /\ provider <> Unknown
                 /\ gen provider (trim (remove_first (js "Bearer ") authHeader))
                        rb1 (tr1 ++ [Log Info "HTTP"])
                    = (Ok content, tr2)
                 /\ r1 = wrapped (wants_stream s1) id created name content
                 /\ r2 = wrapped (wants_stream s2) id created name content
                 /\ (wants_stream s1 <> wants_stream s2 -> r1 <> r2)))
  /\ (let answer s :=
        fst (handleChatCompletions btoa atob SseSpec.sample_parse (fun _ => [])
               seed VolcCfg GiteeCfg ModelScopeCfg FailoverSpec.pool3
               image_host volc_api gitee_api modelscope_submit modelscope_task
               FailoverSpec.queue_first_down FailoverSpec.result_third_delivers
               randomUUID created
               {| pathname := completions_path;
                  authorization := Some (js "Bearer hf_abc");
                  body := Some (with_stream FailoverSpec.bare_request s) |} []) in
      answer (Some true)
      = Ok (sse_wrapped id created (js "unknown-model")
              (js "![Generated Image](https://img)"))
      /\ answer (Some false)
         = Ok (json_wrapped id created (js "unknown-model")
                 (js "![Generated Image](https://img)"))
      /\ answer None
         = Ok (json_wrapped id created (js "unknown-model")
                 (js "![Generated Image](https://img)"))).
Proof.
  intros gen handle rb1 rb2 out1 out2 id name.
  assert (Hgen : forall provider apiKey tr0,
             gen provider apiKey rb1 tr0 = gen provider apiKey rb2 tr0)
    by (intros; apply generate_ignores_stream).
  split; [reflexivity|]. split; [exact Hgen|].
  match goal with
  | |- _ /\ _ /\ _ /\ ?S => assert (Hsample : S)
  end.
  { cbv zeta. repeat split; vm_compute; reflexivity. }
  subst out1 out2 rb1 rb2 handle.
  destruct (handle_cases btoa atob JSON_parse ToString_other seed VolcCfg
              GiteeCfg ModelScopeCfg HuggingFaceCfg image_host volc_api
              gitee_api modelscope_submit modelscope_task hf_queue hf_result
              randomUUID created req rb tr)
    as [(r & tr' & Hr & H)
       |(h & provider & tr1 & content & tr2 & Hp & Ha & Hd & Hu & Hg & H)].
  - rewrite (H s1), (H s2). cbn [fst snd].
    split; [reflexivity|]. split; [reflexivity|].
    split; [|exact Hsample].
    exists r, r. split; [reflexivity|]. split; [reflexivity|].
    left. split; [reflexivity|exact Hr].
  - rewrite (H s1), (H s2). cbn [fst snd].
    split; [reflexivity|]. split; [reflexivity|].
    split; [|exact Hsample].
    do 2 eexists. split; [reflexivity|]. split; [reflexivity|].
    right. exists h, provider, tr1, content, tr2.
    split; [exact Hp|]. split; [exact Ha|]. split; [exact Hd|].
    split; [exact Hu|]. split; [apply Hg|].
    rewrite !envelope_wrapped. fold id name.
    split; [reflexivity|]. split; [reflexivity|].
    intros Hs.
    destruct (wants_stream s1), (wants_stream s2); cbn [wrapped];
      try (now contradiction Hs).
    + apply wrapped_differ.
    + intros E. symmetry in E. revert E. apply wrapped_differ.
Qed.

End StreamFacts.

(* ================================================================== *)
(** * More on the credential router *)
(* ================================================================== *)

Module RouterShapes.
Import Router RouterSpec RouterFacts.

Lemma not_hex_underscore : ~ IsHex 95.
Proof. unfold IsHex. lia. Qed.

Lemma not_hex_dash : ~ IsHex 45.
Proof. unfold IsHex. lia. Qed.

Lemma not_alnum_underscore : ~ IsAlnum 95.
Proof. unfold IsAlnum. lia. Qed.

Lemma not_alnum_dash : ~ IsAlnum 45.
Proof. unfold IsAlnum. lia. Qed.

(** The third character of a canonical UUID is a hex digit. *)
Lemma uuid_third_hex s :
  CanonicalUuid s -> exists a b c t, s = a :: b :: c :: t /\ IsHex c.
Proof.
  intros (g1 & g2 & g3 & g4 & g5 & -> & [L1 H1] & _).
  destruct g1 as [|a [|b [|c g1]]]; try discriminate.
  exists a, b, c. eexists. split; [reflexivity|].
  inversion H1 as [|? ? _ H1']; subst.
  inversion H1' as [|? ? _ H1'']; subst.
  now inversion H1''.
Qed.

Lemma uuid_length s : CanonicalUuid s -> length s = 36.
Proof.
  intros (g1 & g2 & g3 & g4 & g5 & -> & [L1 _] & [L2 _] & [L3 _] & [L4 _] & [L5 _]).
  rewrite !length_app. cbn [js map list_ascii_of_string length]. lia.
Qed.

Lemma uuid_has_dash s : CanonicalUuid s -> In 45%N s.
Proof.
  intros (g1 & g2 & g3 & g4 & g5 & -> & _).
  apply in_or_app. right. now left.
Qed.

Lemma hf_not_ms s : HasPrefix (js "hf_") s -> ~ HasPrefix (js "ms-") s.
Proof. intros [t ->] [t' H]. discriminate H. Qed.

Lemma hf_not_uuid s : HasPrefix (js "hf_") s -> ~ CanonicalUuid s.
Proof.
  intros [t ->] H. apply uuid_third_hex in H as (a & b & c & t' & E & Hc).
  injection E as <- <- <- _. now apply not_hex_underscore.
Qed.

Lemma ms_not_uuid s : HasPrefix (js "ms-") s -> ~ CanonicalUuid s.
Proof.
  intros [t ->] H. apply uuid_third_hex in H as (a & b & c & t' & E & Hc).
  injection E as <- <- <- _. now apply not_hex_dash.
Qed.

Lemma hf_not_alnum s : HasPrefix (js "hf_") s -> ~ Alnum30to60 s.
Proof.
  intros [t ->] [_ H]. rewrite Forall_forall in H.
  apply (not_alnum_underscore). apply H. cbn. auto.
Qed.

Lemma ms_not_alnum s : HasPrefix (js "ms-") s -> ~ Alnum30to60 s.
Proof.
  intros [t ->] [_ H]. rewrite Forall_forall in H.
  apply (not_alnum_dash). apply H. cbn. auto.
Qed.

Lemma uuid_not_alnum s : CanonicalUuid s -> ~ Alnum30to60 s.
Proof.
  intros Hu [_ H]. rewrite Forall_forall in H.
  apply not_alnum_dash. apply H. now apply uuid_has_dash.
Qed.

Lemma prefix_nonempty p s : p <> [] -> HasPrefix p s -> s <> [].
Proof. intros Hp [t ->]. destruct p; [contradiction|discriminate]. Qed.

Lemma uuid_nonempty s : CanonicalUuid s -> s <> [].
Proof. intros H E. apply uuid_length in H. subst. discriminate. Qed.

Lemma alnum_nonempty s : Alnum30to60 s -> s <> [].
Proof. intros [[H _] _] E. subst. cbn in H. lia. Qed.

Ltac shape :=
  repeat split; intros;
  solve [ reflexivity | discriminate | lia | tauto | exfalso; tauto ].

(** X1.  The four key shapes exclude one another, so the provider
    returned is decided by the shape alone, whatever the order of the
    tests: HuggingFace exactly for keys that start with [hf_],
    ModelScope exactly for keys that start with [ms-], VolcEngine
    exactly for canonical UUIDs (always 36 code units), Gitee exactly
    for 30 to 60 letters and digits, and Unknown exactly for keys of
    none of these shapes. *)
Theorem detectProvider_decided_by_shape (apiKey : jsstring) (tr : Trace) :
  exists p,
    fst (detectProvider apiKey tr) = Ok p
    /\ (p = HuggingFace <-> HasPrefix (js "hf_") apiKey)
    /\ (p = ModelScope <-> HasPrefix (js "ms-") apiKey)
    /\ (p = VolcEngine <-> CanonicalUuid apiKey)
    /\ (p = Gitee <-> Alnum30to60 apiKey)
    /\ (p = Unknown <->
        ~ HasPrefix (js "hf_") apiKey /\ ~ HasPrefix (js "ms-") apiKey
        /\ ~ CanonicalUuid apiKey /\ ~ Alnum30to60 apiKey)
    /\ (p = VolcEngine -> length apiKey = 36)
    /\ (p = Gitee -> 30 <= length apiKey <= 60).
Proof.
  rewrite detectProvider_run.
  assert (Hhf_ne := @prefix_nonempty (js "hf_") apiKey ltac:(discriminate)).
  assert (Hms_ne := @prefix_nonempty (js "ms-") apiKey ltac:(discriminate)).
  pose proof (@uuid_nonempty apiKey) as Hu_ne.
  pose proof (@alnum_nonempty apiKey) as Ha_ne.
  pose proof (@hf_not_ms apiKey). pose proof (@hf_not_uuid apiKey).
  pose proof (@ms_not_uuid apiKey). pose proof (@hf_not_alnum apiKey).
  pose proof (@ms_not_alnum apiKey). pose proof (@uuid_not_alnum apiKey).
  pose proof (@uuid_length apiKey) as Hlen.
  destruct apiKey as [|c s].
  { exists Unknown. cbn [truthy_str negb fst].
    assert (N1 : ~ HasPrefix (js "hf_") []) by (intros Hp; now apply Hhf_ne in Hp).
    assert (N2 : ~ HasPrefix (js "ms-") []) by (intros Hp; now apply Hms_ne in Hp).
    assert (N3 : ~ CanonicalUuid []) by (intros Hp; now apply Hu_ne in Hp).
    assert (N4 : ~ Alnum30to60 []) by (intros Hp; now apply Ha_ne in Hp).
    split; [reflexivity|]. shape. }
  cbn [truthy_str negb]. cbv zeta. cbn [fst].
  set (k := c :: s) in *.
  destruct (startsWith (js "hf_") k) eqn:Hhf.
  { apply startsWith_iff in Hhf. eexists; split; [reflexivity|].
    shape. }
  assert (Nhf : ~ HasPrefix (js "hf_") k)
    by (intros Hp; apply startsWith_iff in Hp; congruence).
  destruct (startsWith (js "ms-") k) eqn:Hms.
  { apply startsWith_iff in Hms. eexists; split; [reflexivity|].
    shape. }
  assert (Nms : ~ HasPrefix (js "ms-") k)
    by (intros Hp; apply startsWith_iff in Hp; congruence).
  destruct (test uuidRegex k) eqn:Hu.
  { apply uuidRegex_spec in Hu. eexists; split; [reflexivity|].
    shape. }
  assert (Nu : ~ CanonicalUuid k)
    by (intros Hp; apply uuidRegex_spec in Hp; congruence).
  destruct (test giteeRegex k) eqn:Hg.
  { apply giteeRegex_spec in Hg. eexists; split; [reflexivity|].
    pose proof Hg as [Hl Hf].
    shape. }
  assert (Ng : ~ Alnum30to60 k)
    by (intros Hp; apply giteeRegex_spec in Hp; congruence).
  eexists; split; [reflexivity|]. shape.
Qed.

End RouterShapes.

(* ================================================================== *)
(** * More on the transcript scanner *)
(* ================================================================== *)

Module ExtractorLocal.
Import Extractor ExtractorSpec ExtractorFacts ExtractorMore.

(** The whole result, from the last user message and what precedes. *)
Lemma extract_record messages before u after :
  LastUser messages before u after ->
  extractPromptAndImages messages
  = {| prompt := prompt_of u;
       images := current_images u
                 ++ fresh (current_images u) (historical before) |}.
Proof.
  intros H. unfold extractPromptAndImages.
  rewrite (scan_last_user_split H).
  destruct H as (-> & _ & _).
  unfold current_images, prompt_of.
  destruct (content u); rewrite scan_history_spec, merge_images_fresh;
    reflexivity.
Qed.

Lemma extract_record_none messages :
  Forall (fun m => ~ IsUser m) messages ->
  extractPromptAndImages messages = {| prompt := []; images := [] |}.
Proof.
  intros H. unfold extractPromptAndImages.
  now rewrite scan_last_user_none.
Qed.

Lemma first_nonempty_skip empties rest :
  Forall (fun l => l = []) empties ->
  first_nonempty (empties ++ rest) = first_nonempty rest.
Proof.
  induction 1 as [|l empties -> _ IH]; [reflexivity|]. exact IH.
Qed.

Lemma historical_nearest older m mid :
  foundInMsg (content m) <> [] -> Forall no_images mid ->
  historical (older ++ m :: mid) = foundInMsg (content m).
Proof.
  intros Hm Hmid. unfold historical.
  rewrite map_app, rev_app_distr. cbn [map rev]. rewrite <- app_assoc.
  rewrite first_nonempty_skip.
  - cbn [app first_nonempty].
    destruct (foundInMsg (content m)); [contradiction|reflexivity].
  - apply Forall_rev. rewrite Forall_map. exact Hmid.
Qed.

Lemma historical_none before :
  Forall no_images before -> historical before = [].
Proof.
  intros H. unfold historical.
  rewrite <- (app_nil_r (rev _)). rewrite first_nonempty_skip; [reflexivity|].
  apply Forall_rev. rewrite Forall_map. exact H.
Qed.

Lemma LastUser_pair m u : IsUser u -> LastUser [m; u] [m] u [].
Proof. intros H. split; [reflexivity|]. split; [assumption|constructor]. Qed.

Lemma LastUser_single u : IsUser u -> LastUser [u] [] u [].
Proof. intros H. split; [reflexivity|]. split; [assumption|constructor]. Qed.

(** X2.  Only two messages of a transcript matter: the last user
    message and the nearest earlier message that carries an image.
    Whatever comes after the last user message, between the two, or
    before the image-bearing one, the result is that of the transcript
    made of these two messages alone. *)
Theorem extract_depends_on_two_messages
        (messages older mid after : list Message) (m u : Message)
        (Hlast : LastUser messages (older ++ m :: mid) u after)
        (Hm : foundInMsg (content m) <> [])
        (Hmid : Forall no_images mid) :
  extractPromptAndImages messages = extractPromptAndImages [m; u].
Proof.
  rewrite (extract_record Hlast).
  assert (Hu : IsUser u) by (destruct Hlast as (_ & Hu & _); exact Hu).
  rewrite (extract_record (LastUser_pair m Hu)).
  rewrite (@historical_nearest older m mid Hm Hmid).
  change [m] with ([] ++ [m]).
  rewrite (@historical_nearest [] m [] Hm (Forall_nil _)).
  reflexivity.
Qed.

Lemma extract_depends_on_two_messages_witness :
  extractPromptAndImages long_transcript
  = extractPromptAndImages [assistant_bc; user_a].
Proof.
  apply (@extract_depends_on_two_messages
           long_transcript [older_d] [assistant_plain] [system_note]
           assistant_bc user_a).
  - split; [reflexivity|]. split; [reflexivity|].
    constructor; [|constructor]. unfold IsUser. cbn. discriminate.
  - cbv. discriminate.
  - constructor; [reflexivity|constructor].
Defined.

(** X3.  When no message before the last user message carries an
    image, the result is that of the user message alone: its prompt and
    its own images, nothing added.  A transcript without any user
    message gives the empty prompt and no image. *)
Theorem extract_without_history (messages : list Message) :
  (Forall (fun m => ~ IsUser m) messages
   /\ extractPromptAndImages messages = {| prompt := []; images := [] |})
  \/ exists before u after,
       LastUser messages before u after
       /\ (Forall no_images before ->
           extractPromptAndImages messages
           = {| prompt := prompt_of u; images := current_images u |}
           /\ extractPromptAndImages messages = extractPromptAndImages [u]).
Proof.
  destruct (last_user_cases messages) as [Hnone|(before & u & after & H)].
  - left. split; [assumption|]. now apply extract_record_none.
  - right. exists before, u, after. split; [assumption|].
    intros Hb.
    assert (Hu : IsUser u) by (destruct H as (_ & Hu & _); exact Hu).
    rewrite (extract_record H), (extract_record (LastUser_single Hu)).
    rewrite (historical_none Hb). cbn [historical map rev first_nonempty fresh].
    now rewrite app_nil_r.
Qed.


Lemma first_text_skip pre t post :
  Forall (fun item => is_text item = false) pre ->
  first_text (pre ++ TextContentItem t :: post) = t.
Proof.
  unfold first_text. induction 1 as [|item pre Hi _ IH]; [reflexivity|].
  cbn [app find]. now rewrite Hi.
Qed.

Lemma first_text_none items :
  Forall (fun item => is_text item = false) items -> first_text items = [].
Proof.
  unfold first_text. induction 1 as [|item items Hi _ IH]; [reflexivity|].
  cbn [find]. now rewrite Hi.
Qed.

(** X4.  The prompt comes from the last user message alone: a text
    content is the prompt as it is; a structured content gives the text
    of its first text item, later text items being ignored, and the
    empty prompt when it has no text item. *)
Theorem extract_prompt_of_last_user
        (messages before after : list Message) (u : Message)
        (H : LastUser messages before u after) :
  prompt (extractPromptAndImages messages) = prompt_of u
  /\ (forall s, content u = ContentString s ->
                prompt (extractPromptAndImages messages) = s)
  /\ (forall pre t post,
        content u = ContentArray (pre ++ TextContentItem t :: post) ->
        Forall (fun item => is_text item = false) pre ->
        prompt (extractPromptAndImages messages) = t)
  /\ (forall items,
        content u = ContentArray items ->
        Forall (fun item => is_text item = false) items ->
        prompt (extractPromptAndImages messages) = []).
Proof.
  rewrite (extract_record H). cbn [prompt]. unfold prompt_of.
  split; [reflexivity|]. split; [|split].
  - intros s ->. reflexivity.
  - intros pre t post -> Hpre. now apply first_text_skip.
  - intros items -> Hitems. now apply first_text_none.
Qed.

Lemma extract_prompt_of_last_user_witness :
  prompt (extractPromptAndImages long_transcript) = js "blend them".
Proof.
  refine (proj1 (@extract_prompt_of_last_user long_transcript
                   [older_d; assistant_bc; assistant_plain] [system_note]
                   user_a _)).
  split; [reflexivity|]. split; [reflexivity|].
  constructor; [|constructor]. unfold IsUser. cbn. discriminate.
Defined.

Lemma image_urls_nonempty items : Forall (fun img => img <> []) (image_urls items).
Proof.
  unfold image_urls. apply Forall_forall. intros img H.
  apply filter_In in H as [_ H]. destruct img; [discriminate|discriminate].
Qed.

Lemma foundInMsg_nonempty c : Forall (fun img => img <> []) (foundInMsg c).
Proof.
  apply Forall_forall. intros img H.
  pose (m := {| role := []; content := c |}).
  assert (Hi : ImageOf m img) by (apply foundInMsg_ImageOf; exact H).
  unfold ImageOf in Hi. cbn [content m] in Hi. destruct c as [text|items|].
  - destruct Hi as (pre & alt & post & start & more & _ & -> & _ & Hmore & _).
    intros E. apply app_eq_nil in E as [_ E]. contradiction.
  - now destruct Hi.
  - contradiction.
Qed.

Lemma first_nonempty_Forall (P : jsstring -> Prop) sets :
  Forall (Forall P) sets -> Forall P (first_nonempty sets).
Proof.
  induction 1 as [|l sets Hl _ IH]; cbn [first_nonempty]; [constructor|].
  destruct l; [exact IH|exact Hl].
Qed.

Lemma historical_nonempty before :
  Forall (fun img => img <> []) (historical before).
Proof.
  unfold historical. apply first_nonempty_Forall.
  apply Forall_rev. rewrite Forall_map.
  apply Forall_forall. intros m _. apply foundInMsg_nonempty.
Qed.

(** X5.  No transcript makes the scanner hand on an empty image
    reference: every entry of the image list has at least one
    character. *)
Theorem extract_images_nonempty (messages : list Message) :
  Forall (fun img => img <> []) (images (extractPromptAndImages messages)).
Proof.
  destruct (last_user_cases messages) as [Hnone|(before & u & after & H)].
  - rewrite (extract_record_none Hnone). constructor.
  - rewrite (extract_record H). cbn [images].
    apply Forall_app. split.
    + unfold current_images. destruct (content u);
        [constructor|apply image_urls_nonempty|constructor].
    + apply Forall_forall. intros img Hin. apply fresh_In in Hin as [Hin _].
      pose proof (historical_nonempty before) as Hh.
      rewrite Forall_forall in Hh. now apply Hh.
Qed.

Lemma fresh_length seen hist : length (fresh seen hist) <= length hist.
Proof.
  revert seen. induction hist as [|h hist IH]; intros seen; cbn [fresh length].
  - lia.
  - destruct (includes h seen); cbn [length].
    + specialize (IH seen). lia.
    + specialize (IH (seen ++ [h])). lia.
Qed.

(** X6.  The merge loses nothing and invents nothing: an image is in
    the final list exactly when the last user message supplies it or
    the nearest image-bearing earlier message does, and the list is
    never longer than the two sets together. *)
Theorem extract_images_complete
        (messages before after : list Message) (u : Message)
        (H : LastUser messages before u after) :
  (forall img,
      In img (images (extractPromptAndImages messages))
      <-> In img (current_images u) \/ In img (historical before))
  /\ length (images (extractPromptAndImages messages))
     <= length (current_images u) + length (historical before).
Proof.
  rewrite (extract_record H). cbn [images]. split.
  - intros img. rewrite in_app_iff. split.
    + intros [Hc|Hf]; [now left|]. apply fresh_In in Hf. tauto.
    + intros [Hc|Hh]; [now left|].
      destruct (fresh_complete (current_images u) _ _ Hh); tauto.
  - rewrite length_app.
    pose proof (fresh_length (current_images u) (historical before)). lia.
Qed.

Lemma extract_images_complete_witness :
  In img_c (images (extractPromptAndImages long_transcript))
  <-> In img_c (current_images user_a)
      \/ In img_c (historical [older_d; assistant_bc; assistant_plain]).
Proof.
  refine (proj1 (@extract_images_complete long_transcript
                   [older_d; assistant_bc; assistant_plain] [system_note]
                   user_a _) img_c).
  split; [reflexivity|]. split; [reflexivity|].
  constructor; [|constructor]. unfold IsUser. cbn. discriminate.
Defined.

End ExtractorLocal.

(* ================================================================== *)
(** * More on the handlers *)
(* ================================================================== *)

Module HandlerFacts.
Import Adapters Config StreamText WireSpec HandlerSpec PollSpec FailoverSpec.
Import PollFacts FailoverFacts SizeFacts.

Lemma or_str_nonempty a b : b <> [] -> or_str a b <> [].
Proof. unfold or_str. destruct a; cbn; [auto|discriminate]. Qed.

Lemma placeholder_nonempty : failure_placeholder <> [].
Proof. discriminate. Qed.

Lemma count_fetches_snoc_fetch tr req :
  count_fetches (tr ++ [Fetch req]) = S (count_fetches tr).
Proof. rewrite count_fetches_app. cbn. lia. Qed.

Lemma post_urls_snoc_log tr lvl m : post_urls (tr ++ [Log lvl m]) = post_urls tr.
Proof. rewrite post_urls_app. cbn. now rewrite app_nil_r. Qed.

Lemma total_sleep_app a b :
  total_sleep (a ++ b) = (total_sleep a + total_sleep b)%N.
Proof.
  unfold total_sleep. induction a as [|ev a IH]; cbn [app fold_right].
  - reflexivity.
  - destruct ev; rewrite IH; lia.
Qed.

Lemma total_sleep_repeat_log lvl m n : total_sleep (repeat (Log lvl m) n) = 0%N.
Proof. induction n; [reflexivity|]. cbn. assumption. Qed.

Lemma count_fetches_repeat_log lvl m n : count_fetches (repeat (Log lvl m) n) = 0.
Proof. induction n; [reflexivity|]. cbn. assumption. Qed.

Lemma count_fetches_requests tr : count_fetches tr = length (requests tr).
Proof.
  unfold count_fetches, requests.
  induction tr as [|ev tr IH]; [reflexivity|].
  destruct ev; cbn; rewrite <- ?IH; reflexivity.
Qed.

Lemma post_urls_requests tr :
  post_urls tr
  = flat_map (fun r => match req_method r with
                       | POST => [req_url r]
                       | GET => []
                       end) (requests tr).
Proof.
  unfold post_urls, requests.
  induction tr as [|ev tr IH]; [reflexivity|].
  destruct ev; cbn; rewrite <- ?IH, ?app_nil_r; reflexivity.
Qed.

Lemma count_fetches_gets images :
  count_fetches (map (fun img => Fetch (image_get img)) images) = length images.
Proof.
  induction images as [|img rest IH]; [reflexivity|].
  unfold count_fetches in *. cbn. now rewrite IH.
Qed.

Lemma post_urls_gets images :
  post_urls (map (fun img => Fetch (image_get img)) images) = [].
Proof. induction images as [|img rest IH]; [reflexivity|]. cbn. exact IH. Qed.

Section Volc.
Variable btoa : jsstring -> jsstring.
Variable cfg : ProviderConfig.
Variable image_host : Oracle ImageResponse.
Variable volc_api : Oracle (Response (option (list ImageDatum))).

(** Every download is started before any is looked at: the GETs go
    out in array order, each answered on the trace of the GETs before
    it. *)
Lemma volc_started_run images : forall tr,
  mapM (volc_image_started image_host) images tr
  = (Ok (downloads image_host tr images),
     tr ++ map (fun img => Fetch (image_get img)) (filter remote images)).
Proof.
  induction images as [|img rest IH]; intros tr.
  - cbn. unfold ret. now rewrite app_nil_r.
  - cbn [mapM downloads filter]. unfold bind at 1.
    unfold volc_image_started at 1, remote.
    destruct (startsWith (js "data:image/") img); cbn [negb andb].
    { unfold ret at 1. unfold bind at 1. rewrite IH. reflexivity. }
    destruct (startsWith (js "http") img).
    2:{ unfold ret at 1. unfold bind at 1. rewrite IH. reflexivity. }
    unfold bind at 1, start. unfold ret at 1. unfold bind at 1.
    change (download_request img) with (image_get img).
    rewrite IH. unfold ret. cbn [map]. now rewrite <- app_assoc.
Qed.

Lemma downloads_length images : forall tr,
  length (downloads image_host tr images) = length images.
Proof.
  induction images as [|img rest IH]; intros tr; [reflexivity|].
  cbn [downloads]. destruct (remote img); cbn [length]; now rewrite IH.
Qed.

(** Finishing a callback never throws; a failed download leaves one
    warning. *)
Lemma volc_finished_one img d tr :
  volc_image_finished btoa (img, d) tr
  = (Ok (sent_image btoa img d),
     tr ++ (if failed d then [Log Warn "VolcEngine"] else [])).
Proof.
  unfold volc_image_finished, try_catch, bind, settled, urlToBase64_response,
    throw, warn, emit, ret, sent_image, failed, data_uri, mime_of,
    header_or_png.
  destruct d as [[r|e]|]; [destruct (img_ok r)|..]; cbn [negb fst snd];
    rewrite ?app_nil_r; reflexivity.
Qed.

Lemma volc_finished_run images : forall ds tr,
  length ds = length images ->
  mapM (volc_image_finished btoa) (combine images ds) tr
  = (Ok (sent_images btoa images ds),
     tr ++ repeat (Log Warn "VolcEngine") (length (filter failed ds))).
Proof.
  induction images as [|img rest IH]; intros ds tr Hl.
  - destruct ds; [|discriminate Hl]. cbn. unfold ret. now rewrite app_nil_r.
  - destruct ds as [|d ds]; [discriminate Hl|].
    injection Hl as Hl.
    cbn [combine mapM sent_images filter]. unfold bind at 1.
    rewrite volc_finished_one. unfold bind at 1. rewrite (IH ds _ Hl).
    unfold ret. f_equal.
    destruct (failed d); cbn [length repeat];
      rewrite <- ?app_assoc, ?app_nil_r; reflexivity.
Qed.

Lemma sent_images_length images : forall ds,
  length ds = length images ->
  length (sent_images btoa images ds) = length images.
Proof.
  induction images as [|img rest IH]; intros [|d ds] Hl;
    try discriminate Hl; [reflexivity|].
  cbn [sent_images length]. injection Hl as Hl. now rewrite IH.
Qed.

Lemma inline_not_remote images :
  Forall is_inline images -> filter remote images = [].
Proof.
  induction 1 as [|img rest Hi _ IH]; [reflexivity|].
  cbn [filter]. unfold remote. unfold is_inline in Hi. rewrite Hi. exact IH.
Qed.

Lemma inline_sent_unchanged images : forall tr,
  Forall is_inline images ->
  sent_images btoa images (downloads image_host tr images) = images.
Proof.
  induction images as [|img rest IH]; intros tr H; [reflexivity|].
  inversion H as [|? ? Hi Hr]; subst.
  cbn [downloads]. unfold remote. unfold is_inline in Hi. rewrite Hi.
  cbn [negb andb sent_images sent_image]. now rewrite IH.
Qed.

(** The handler, from the prepared images to the single POST. *)
Lemma handleVolcEngine_run
        (apiKey : jsstring) (reqBody : ChatRequest) (prompt : jsstring)
        (images : list jsstring) (tr : Trace) :
  let tr0 := tr ++ announced VolcEngine prompt images in
  let ds := downloads image_host tr0 images in
  let sent := sent_images btoa images ds in
  let tr1 :=
    tr0 ++ map (fun img => Fetch (image_get img)) (filter remote images)
        ++ repeat (Log Warn "VolcEngine") (length (filter failed ds))
        ++ [ImageGenerationStart VolcEngine (volc_model cfg reqBody)
              (volc_size cfg reqBody (Nat.ltb 0 (length images)))
              (length prompt)] in
  let req := volc_request cfg apiKey reqBody prompt images sent in
  handleVolcEngine btoa cfg image_host volc_api apiKey reqBody prompt images tr
  = (volc_outcome (volc_api tr1 req), tr1 ++ [Fetch req]).
Proof.
  cbv zeta. unfold handleVolcEngine.
  unfold logFullPrompt, logInputImages, logImageGenerationStart.
  unfold bind at 1. unfold emit at 1. unfold bind at 1.
  set (tr0 := tr ++ announced VolcEngine prompt images).
  assert (H0 : (if Nat.ltb 0 (length images)
                then emit (InputImages VolcEngine images) else ret tt)
                 (tr ++ [FullPrompt VolcEngine prompt]) = (Ok tt, tr0)).
  { subst tr0. unfold announced.
    destruct images as [|img rest]; cbn [length Nat.ltb Nat.leb].
    - reflexivity.
    - unfold emit. now rewrite <- app_assoc. }
  rewrite H0. unfold bind at 1. unfold volc_process_images. unfold bind at 1.
  rewrite volc_started_run.
  rewrite volc_finished_run by apply downloads_length.
  unfold bind at 1. unfold emit at 1. unfold bind at 1, call.
  set (sent := sent_images btoa images (downloads image_host tr0 images)).
  fold (volc_request cfg apiKey reqBody prompt images sent).
  rewrite <- !app_assoc.
  unfold volc_outcome.
  match goal with
  | |- context [volc_api ?t ?r] => destruct (volc_api t r) as [r0|e]
  end; [|reflexivity].
  destruct (ok r0); cbn [negb]; [|reflexivity].
  unfold bind, read_json, ret, throw.
  destruct (json r0); reflexivity.
Qed.


End Volc.


Section ModelScope.
Variable cfg : ProviderConfig.
Variable modelscope_submit : Oracle (Response (option jsstring)).
Variable modelscope_task : Oracle (Response CheckData).
Variable apiKey : jsstring.

(** Along a run of the polling loop the sleeps add up to five seconds
    per poll, and a successful end gives a non-empty content. *)
Lemma PollRun_sleep taskId n tr out tr' k :
  PollRun cfg modelscope_task apiKey taskId n tr out tr' k ->
  total_sleep tr' = (total_sleep tr + 5000 * N.of_nat k)%N.
Proof.
  induction 1; unfold round in *;
    rewrite ?total_sleep_app in *; cbn [total_sleep fold_right] in *; lia.
Qed.

Lemma PollRun_ok_nonempty taskId n tr out tr' k :
  PollRun cfg modelscope_task apiKey taskId n tr out tr' k ->
  forall c, out = Ok c -> c <> [].
Proof.
  induction 1; intros c E; try discriminate; auto.
  injection E as <-. apply or_str_nonempty, placeholder_nonempty.
Qed.

(** The handler: one submission, then the polling loop. *)
Lemma handleModelScope_run reqBody prompt tr :
  exists o tr' polls,
    handleModelScope cfg modelscope_submit modelscope_task
      apiKey reqBody prompt tr = (o, tr')
    /\ polls <= 60
    /\ count_fetches tr' = count_fetches tr + 1 + polls
    /\ total_sleep tr' = (total_sleep tr + 5000 * N.of_nat polls)%N
    /\ (forall c, o = Ok c -> c <> []).
Proof.
  unfold handleModelScope, logFullPrompt, logImageGenerationStart.
  unfold bind, call, read_json, ret, throw, info, emit.
  match goal with
  | |- context [modelscope_submit ?t ?r] =>
      set (pre := t); set (req := r);
      destruct (modelscope_submit pre req) as [resp|e]
  end.
  all: assert (Hpre : count_fetches pre = count_fetches tr
                      /\ total_sleep pre = total_sleep tr)
    by (subst pre; rewrite !count_fetches_app, !total_sleep_app; cbn; split; lia).
  all: destruct Hpre as [Hpc Hps].
  2:{ do 2 eexists. exists 0. split; [reflexivity|].
      rewrite count_fetches_snoc_fetch, total_sleep_app.
      cbn. repeat split; try lia. discriminate. }
  destruct (ok resp); cbn [negb].
  2:{ do 2 eexists. exists 0. split; [reflexivity|].
      rewrite count_fetches_snoc_fetch, total_sleep_app.
      cbn. repeat split; try lia. discriminate. }
  destruct (json resp) as [taskId|].
  2:{ do 2 eexists. exists 0. split; [reflexivity|].
      rewrite count_fetches_snoc_fetch, total_sleep_app.
      cbn. repeat split; try lia. discriminate. }
  destruct (poll_loop_run cfg modelscope_task apiKey taskId maxAttempts 0
              ((pre ++ [Fetch req]) ++ [Log Info "ModelScope"]))
    as (out & tr' & k & E & R).
  rewrite E.
  destruct (PollRun_count R) as [Hk Hc].
  pose proof (PollRun_sleep R) as Hs.
  pose proof (PollRun_ok_nonempty R) as Hne.
  exists out, tr', k. split; [reflexivity|]. split; [exact Hk|].
  rewrite Hc, Hs, count_fetches_snoc_log, count_fetches_snoc_fetch,
    !total_sleep_app.
  cbn [total_sleep fold_right]. repeat split; try lia. exact Hne.
Qed.

(** X9.  The ModelScope handler makes one submission and then at most
    60 polls, so never more than 61 outbound calls; it sleeps exactly
    five seconds per poll, at most 300 seconds in all, and not at all
    when the submission is the only call. *)
Theorem handleModelScope_bounded
        (reqBody : ChatRequest) (prompt : jsstring) (tr : Trace) :
  let out := handleModelScope cfg modelscope_submit modelscope_task
               apiKey reqBody prompt tr in
  let polls := count_fetches (snd out) - count_fetches tr - 1 in
  count_fetches tr + 1 <= count_fetches (snd out) <= count_fetches tr + 61
  /\ total_sleep (snd out) = (total_sleep tr + 5000 * N.of_nat polls)%N
  /\ (total_sleep (snd out) <= total_sleep tr + 300000)%N.
Proof.
  cbv zeta.
  destruct (handleModelScope_run reqBody prompt tr)
    as (o & tr' & polls & -> & Hp & Hc & Hs & _).
  cbn [snd]. rewrite Hc, Hs.
  replace (count_fetches tr + 1 + polls - count_fetches tr - 1) with polls by lia.
  repeat split; lia.
Qed.

End ModelScope.


Lemma first_url_truthy data u : first_url data = Some u -> truthy u = true.
Proof.
  unfold first_url. destruct (truthy data); [|discriminate].
  destruct (index0 data) as [d0|]; [|discriminate].
  destruct (truthy d0); [|discriminate].
  destruct (get_url d0) as [v|]; [|discriminate].
  destruct (truthy v) eqn:E; [|discriminate].
  intros H. injection H as <-. exact E.
Qed.

Lemma sse_machine_truthy JSON_parse lines : forall last v,
  SseSpec.sse_machine JSON_parse last lines = Ok (Some v) -> truthy v = true.
Proof.
  induction lines as [|line rest IH]; intros last v; cbn [SseSpec.sse_machine].
  - discriminate.
  - destruct (SseSpec.classify_line line) as [type|payload|].
    + destruct (jsstring_eqb type (js "error")); [discriminate|apply IH].
    + destruct last as [type|]; [|apply IH].
      destruct (jsstring_eqb type (js "complete")); [|apply IH].
      destruct (JSON_parse payload) as [data|]; [|apply IH].
      destruct (first_url data) as [u|] eqn:E; [|apply IH].
      intros H. injection H as <-. now apply first_url_truthy in E.
    + apply IH.
Qed.

Section HuggingFace.
Variable JSON_parse : jsstring -> option JSON.
Variable ToString_other : JSON -> jsstring.
Variable hf_queue : Oracle (Response (option jsstring)).
Variable hf_result : Oracle (Response unit).
Variable apiKey : jsstring.
Variable requestBody : JSON.

Local Abbreviation attempt :=
  (hf_attempt JSON_parse ToString_other hf_queue hf_result apiKey requestBody).
Local Abbreviation failover :=
  (hf_failover JSON_parse ToString_other hf_queue hf_result apiKey requestBody).

(** One attempt makes one or two calls and never sleeps. *)
Lemma attempt_cost u tr :
  exists o tr',
    attempt u tr = (o, tr')
    /\ count_fetches tr + 1 <= count_fetches tr' <= count_fetches tr + 2
    /\ total_sleep tr' = total_sleep tr
    /\ (forall x, o = Ok x -> ImageLine ToString_other x).
Proof.
  unfold hf_attempt, bind, call, read_json, ret, throw, info, emit.
  match goal with
  | |- context [hf_queue tr ?r] => set (q := r); destruct (hf_queue tr q) as [qr|e]
  end.
  2:{ do 2 eexists. split; [reflexivity|].
      rewrite count_fetches_snoc_fetch, total_sleep_app. cbn.
      repeat split; try lia. discriminate. }
  destruct (ok qr); cbn [negb].
  2:{ do 2 eexists. split; [reflexivity|].
      rewrite count_fetches_snoc_fetch, total_sleep_app. cbn.
      repeat split; try lia. discriminate. }
  destruct (json qr) as [event_id|].
  2:{ do 2 eexists. split; [reflexivity|].
      rewrite count_fetches_snoc_fetch, total_sleep_app. cbn.
      repeat split; try lia. discriminate. }
  match goal with
  | |- context [hf_result ?t ?r] => set (g := r); destruct (hf_result t g) as [res|e]
  end.
  2:{ do 2 eexists. split; [reflexivity|].
      rewrite !count_fetches_snoc_fetch, count_fetches_snoc_log,
        count_fetches_snoc_fetch, !total_sleep_app. cbn.
      repeat split; try lia. discriminate. }
  destruct (ok res); cbn [negb].
  2:{ do 2 eexists. split; [reflexivity|].
      rewrite !count_fetches_snoc_fetch, count_fetches_snoc_log,
        count_fetches_snoc_fetch, !total_sleep_app. cbn.
      repeat split; try lia. discriminate. }
  unfold extractImageUrlFromSSE.
  match goal with
  | |- context [sse_loop JSON_parse ?l false ?t] =>
      destruct (SseFacts.sse_loop_machine JSON_parse l None t) as [Hm [n Hn]];
      cbn [SseSpec.awaiting] in Hm, Hn;
      destruct (sse_loop JSON_parse l false t) as [[o|e] t'] eqn:E
  end; cbn [fst snd] in Hm, Hn; subst t'.
  - destruct o as [v|].
    + do 2 eexists. split; [reflexivity|].
      rewrite !count_fetches_app, count_fetches_repeat_log, !total_sleep_app,
        total_sleep_repeat_log. cbn.
      repeat split; try lia.
      intros x Hx. injection Hx as <-. exists v. split; [|reflexivity].
      symmetry in Hm. now apply sse_machine_truthy in Hm.
    + do 2 eexists. split; [reflexivity|].
      rewrite !count_fetches_app, count_fetches_repeat_log, !total_sleep_app,
        total_sleep_repeat_log. cbn.
      repeat split; try lia. discriminate.
  - do 2 eexists. split; [reflexivity|].
    rewrite !count_fetches_app, count_fetches_repeat_log, !total_sleep_app,
      total_sleep_repeat_log. cbn.
    repeat split; try lia. discriminate.
Qed.

Lemma Failover_cost pool last tr out tr' tried :
  Failover attempt pool last tr out tr' tried ->
  count_fetches tr' <= count_fetches tr + 2 * length tried
  /\ total_sleep tr' = total_sleep tr
  /\ (forall x, out = Ok x -> ImageLine ToString_other x).
Proof.
  induction 1 as [last tr|u rest last tr x tr1 Ha
                  |u rest last tr e tr1 out tr' tried Ha _ IH].
  - rewrite count_fetches_snoc_log, total_sleep_app. cbn.
    repeat split; try lia. discriminate.
  - destruct (attempt_cost u (tr ++ [Log Info "HuggingFace"]))
      as (o & t' & E & Hc & Hs & Hx).
    rewrite Ha in E. injection E as <- <-.
    rewrite count_fetches_snoc_log in Hc. rewrite total_sleep_app in Hs.
    cbn in Hs. cbn [length]. repeat split; try lia. exact Hx.
  - destruct (attempt_cost u (tr ++ [Log Info "HuggingFace"]))
      as (o & t' & E & Hc & Hs & Hx).
    rewrite Ha in E. injection E as <- <-.
    rewrite count_fetches_snoc_log in Hc. rewrite total_sleep_app in Hs.
    cbn in Hs. destruct IH as (IHc & IHs & IHx).
    assert (Hrc : count_fetches (recorded tr1 rest) = count_fetches tr1).
    { unfold recorded. rewrite !count_fetches_app. destruct rest; cbn; lia. }
    assert (Hrs : total_sleep (recorded tr1 rest) = total_sleep tr1).
    { unfold recorded. rewrite !total_sleep_app. destruct rest; cbn; lia. }
    cbn [length]. repeat split; try lia. exact IHx.
Qed.

End HuggingFace.

Section HuggingFaceHandler.
Variable JSON_parse : jsstring -> option JSON.
Variable ToString_other : JSON -> jsstring.
Variable seed : N.
Variable cfg : HuggingFaceProviderConfig.
Variable hf_queue : Oracle (Response (option jsstring)).
Variable hf_result : Oracle (Response unit).

Lemma handleHuggingFace_run apiKey reqBody prompt images tr :
  exists o tr',
    handleHuggingFace JSON_parse ToString_other seed cfg hf_queue hf_result
      apiKey reqBody prompt images tr = (o, tr')
    /\ count_fetches tr' <= count_fetches tr + 2 * length (apiUrls cfg)
    /\ total_sleep tr' = total_sleep tr
    /\ (forall x, o = Ok x -> ImageLine ToString_other x).
Proof.
  unfold handleHuggingFace, logFullPrompt, logInputImages,
    logImageGenerationStart.
  unfold bind, warn, info, error, emit, throw, ret.
  destruct (apiUrls cfg) as [|u pool] eqn:Hpool; cbn [length Nat.eqb].
  - destruct (Nat.ltb 0 (length images)); cbv beta iota zeta;
      do 2 eexists; (split; [reflexivity|]);
      rewrite !count_fetches_app, !total_sleep_app; cbn;
      repeat split; try lia; discriminate.
  - destruct (Nat.ltb 0 (length images)); cbv beta iota zeta;
      match goal with
      | |- context [hf_failover _ _ _ _ _ ?b ?p ?l ?t] =>
          destruct (failover_run JSON_parse ToString_other hf_queue hf_result
                      apiKey b p l t) as (out & tr' & tried & E & R);
          rewrite E; exists out, tr'; (split; [reflexivity|]);
          destruct (Failover_cost R) as (Hc & Hs & Hx);
          destruct (Failover_tried R) as [(rest & Hp & _) _];
          assert (Hl : length tried <= S (length pool))
            by (apply (f_equal (@length _)) in Hp; rewrite length_app in Hp;
                cbn [length] in Hp; lia);
          rewrite !count_fetches_app in Hc; rewrite !total_sleep_app in Hs;
          cbn in Hc, Hs; repeat split; try lia; exact Hx
      end.
Qed.


End HuggingFaceHandler.


Section Gitee.
Variable btoa : jsstring -> jsstring.
Variable atob : jsstring -> option jsstring.
Variable cfg : GiteeProviderConfig.
Variable image_host : Oracle ImageResponse.
Variable gitee_api : Oracle (Response (option (list ImageDatum))).

Lemma or_str_nil a : or_str a [] = a.
Proof. now destruct a. Qed.

Ltac gitee_requests :=
  rewrite ?requests_app; cbn [requests flat_map app];
  rewrite ?app_nil_r, <- ?app_assoc; cbn [app]; rewrite ?app_nil_r.

Ltac gitee_nonempty :=
  try discriminate;
  try (intros c E; injection E as <-;
       apply or_str_nonempty, placeholder_nonempty).

(** The end of both modes: nothing more is sent, and a content that is
    returned is not empty. *)
Lemma gitee_finish_run response tr :
  exists o,
    gitee_finish response tr = (o, tr) /\ (forall c, o = Ok c -> c <> []).
Proof.
  unfold gitee_finish, giteeReturn, bind, read_json, ret, throw.
  destruct (json response) as [data|].
  - destruct (Nat.eqb (length match data with Some d => d | None => [] end) 0);
      eexists; (split; [reflexivity|]); gitee_nonempty.
  - eexists. split; [reflexivity|]. gitee_nonempty.
Qed.

(** The edit POST and what follows it. *)
Lemma gitee_edit_run apiKey reqBody prompt bytes mimeType tr :
  let req := gitee_edit_request cfg apiKey reqBody prompt bytes mimeType in
  exists o tr',
    (response <- call gitee_api req ;;
     if negb (ok response) then
       error "Gitee" ;;
       throw (GiteeEditApiError (status response) (text response))
     else gitee_finish response) tr = (o, tr')
    /\ requests tr' = requests tr ++ [req]
    /\ (forall c, o = Ok c -> c <> []).
Proof.
  intros req. unfold bind at 1, call.
  destruct (gitee_api tr req) as [resp|e].
  2:{ do 2 eexists. split; [reflexivity|]. split; [now gitee_requests|].
      gitee_nonempty. }
  destruct (ok resp); cbn [negb].
  - destruct (gitee_finish_run resp (tr ++ [Fetch req])) as (o & E & Hne).
    rewrite E. do 2 eexists. split; [reflexivity|].
    split; [now gitee_requests|exact Hne].
  - unfold bind, error, emit, throw. do 2 eexists. split; [reflexivity|].
    split; [now gitee_requests|]. gitee_nonempty.
Qed.

(** The handler in its two modes. *)
Lemma handleGitee_run apiKey reqBody prompt images tr :
  exists o tr',
    handleGitee btoa atob cfg image_host gitee_api apiKey reqBody prompt images tr
    = (o, tr')
    /\ match images with
       | [] =>
           requests tr'
           = requests tr ++ [gitee_generate_request cfg apiKey reqBody prompt]
       | img :: _ =>
           let edit := gitee_edit_request cfg apiKey reqBody prompt in
           if startsWith (js "data:image/") img then
             match atob (inline_data img) with
             | Some bytes =>
                 requests tr' = requests tr ++ [edit bytes (inline_mime img)]
             | None => requests tr' = requests tr
             end
           else
             exists pre,
               requests pre = requests tr
               /\ match image_host pre (image_get img) with
                  | Ok r =>
                      if img_ok r then
                        match atob (btoa (img_bytes r)) with
                        | Some bytes =>
                            requests tr'
                            = requests tr
                                ++ [image_get img; edit bytes (mime_of r)]
                        | None => requests tr' = requests tr ++ [image_get img]
                        end
                      else requests tr' = requests tr ++ [image_get img]
                  | Throw _ => requests tr' = requests tr ++ [image_get img]
                  end
       end
    /\ (forall c, o = Ok c -> c <> []).
Proof.
  unfold handleGitee, logFullPrompt, logInputImages, logImageGenerationStart.
  destruct images as [|img rest]; cbn [length Nat.ltb Nat.leb hd].
  - unfold bind at 1. unfold emit at 1. unfold bind at 1. unfold ret at 1.
    unfold bind at 1. unfold emit at 1. unfold bind at 1. unfold info, emit at 1.
    unfold bind at 1. unfold debug, emit at 1.
    unfold bind at 1, call.
    match goal with
    | |- context [gitee_api ?t ?r] =>
        set (pre := t);
        change r with (gitee_generate_request cfg apiKey reqBody prompt);
        set (req := gitee_generate_request cfg apiKey reqBody prompt)
    end.
    assert (Hpre : requests pre = requests tr) by (subst pre; now gitee_requests).
    destruct (gitee_api pre req) as [resp|e].
    2:{ do 2 eexists. split; [reflexivity|].
        split; [gitee_requests; now rewrite Hpre|]. gitee_nonempty. }
    destruct (ok resp); cbn [negb].
    + destruct (gitee_finish_run resp (pre ++ [Fetch req])) as (o & E & Hne).
      rewrite E. do 2 eexists. split; [reflexivity|].
      split; [gitee_requests; now rewrite Hpre|exact Hne].
    + unfold bind, error, emit, throw. do 2 eexists. split; [reflexivity|].
      split; [gitee_requests; now rewrite Hpre|]. gitee_nonempty.
  - cbv zeta. rewrite or_str_nil.
    unfold bind at 1. unfold emit at 1. unfold bind at 1. unfold emit at 1.
    unfold bind at 1. unfold emit at 1. unfold bind at 1. unfold info at 1, emit at 1.
    unfold bind at 1.
    destruct (startsWith (js "data:image/") img).
    + unfold bind at 1. unfold info at 1, emit at 1. unfold ret at 1.
      fold (inline_data img). fold (inline_mime img).
      change (interp (nth_error (split 44 img) 1)) with (inline_data img).
      destruct (atob (inline_data img)) as [bytes|].
      2:{ unfold throw. do 2 eexists. split; [reflexivity|].
          split; [now gitee_requests|]. gitee_nonempty. }
      unfold bind at 1. unfold debug at 1, emit at 1.
      match goal with
      | |- context [call gitee_api ?r] =>
          change r with (gitee_edit_request cfg apiKey reqBody prompt bytes
                           (inline_mime img))
      end.
      match goal with
      | |- context [bind _ _ ?t] =>
          destruct (gitee_edit_run apiKey reqBody prompt bytes (inline_mime img) t)
            as (o & tr' & E & Hr & Hne)
      end.
      rewrite E. exists o, tr'. split; [reflexivity|]. split; [|exact Hne].
      rewrite Hr. now gitee_requests.
    + unfold bind at 1. unfold info at 1, emit at 1.
      unfold bind at 1. unfold urlToBase64. unfold bind at 1. unfold call at 1.
      change (download_request img) with (image_get img).
      match goal with
      | |- context [image_host ?t (image_get img)] => set (pre := t)
      end.
      assert (Hpre : requests pre = requests tr) by (subst pre; now gitee_requests).
      destruct (image_host pre (image_get img)) as [r|e] eqn:Hh.
      2:{ do 2 eexists. split; [reflexivity|]. split; [|gitee_nonempty].
          exists pre. split; [exact Hpre|]. rewrite Hh.
          gitee_requests. now rewrite Hpre. }
      unfold urlToBase64_response.
      destruct (img_ok r) eqn:Hok; cbn [negb].
      2:{ unfold throw. do 2 eexists. split; [reflexivity|].
          split; [|gitee_nonempty].
          exists pre. split; [exact Hpre|]. rewrite Hh, Hok.
          gitee_requests. now rewrite Hpre. }
      unfold ret at 1. unfold bind at 1. unfold info at 1, emit at 1.
      unfold ret at 1.
      fold (header_or_png r). fold (mime_of r).
      destruct (atob (btoa (img_bytes r))) as [bytes|] eqn:Hat.
      2:{ unfold throw. do 2 eexists. split; [reflexivity|].
          split; [|gitee_nonempty].
          exists pre. split; [exact Hpre|]. rewrite Hh, Hok, Hat.
          gitee_requests. now rewrite Hpre. }
      unfold bind at 1. unfold debug at 1, emit at 1.
      match goal with
      | |- context [call gitee_api ?q] =>
          change q with (gitee_edit_request cfg apiKey reqBody prompt bytes
                           (mime_of r))
      end.
      match goal with
      | |- context [bind _ _ ?t] =>
          destruct (gitee_edit_run apiKey reqBody prompt bytes (mime_of r) t)
            as (o & tr' & E & Hr & Hne)
      end.
      rewrite E. exists o, tr'. split; [reflexivity|]. split; [|exact Hne].
      exists pre. split; [exact Hpre|]. rewrite Hh, Hok, Hat, Hr.
      gitee_requests. now rewrite Hpre.
Qed.

(** X8.  The Gitee handler works in two modes that never mix.  Without
    input images it makes exactly one call: the JSON POST to the
    generation URL, carrying the requested size or else the configured
    one.  With input images it never calls the generation URL.  It
    looks at the first image only: inline data is decoded on the spot,
    anything else is downloaded with one GET; then, unless the download
    or the decoding failed, it makes one multipart POST to the edit
    URL, whose image part is that first image and whose size is the
    configured edit size, never the requested one. *)
Theorem handleGitee_two_modes
        (apiKey : jsstring) (reqBody : ChatRequest) (prompt : jsstring)
        (images : list jsstring) (tr : Trace) :
  let out := handleGitee btoa atob cfg image_host gitee_api
               apiKey reqBody prompt images tr in
  match images with
  | [] =>
      requests (snd out)
      = requests tr ++ [gitee_generate_request cfg apiKey reqBody prompt]
      /\ post_urls (snd out) = post_urls tr ++ [g_apiUrl cfg]
      /\ count_fetches (snd out) = count_fetches tr + 1
  | img :: rest =>
      let edit := gitee_edit_request cfg apiKey reqBody prompt in
      (post_urls (snd out) = post_urls tr
       \/ post_urls (snd out) = post_urls tr ++ [g_editApiUrl cfg])
      /\ count_fetches (snd out) <= count_fetches tr + 2
      /\ if startsWith (js "data:image/") img then
           match atob (inline_data img) with
           | Some bytes =>
               requests (snd out)
               = requests tr ++ [edit bytes (inline_mime img)]
           | None => requests (snd out) = requests tr
           end
         else
           exists pre,
             requests pre = requests tr
             /\ match image_host pre (image_get img) with
                | Ok r =>
                    if img_ok r then
                      match atob (btoa (img_bytes r)) with
                      | Some bytes =>
                          requests (snd out)
                          = requests tr
                              ++ [image_get img; edit bytes (mime_of r)]
                      | None =>
                          requests (snd out) = requests tr ++ [image_get img]
                      end
                    else requests (snd out) = requests tr ++ [image_get img]
                | Throw _ =>
                    requests (snd out) = requests tr ++ [image_get img]
                end
  end.
Proof.
  cbv zeta.
  destruct (handleGitee_run apiKey reqBody prompt images tr)
    as (o & tr' & E & H & _).
  rewrite E. cbn [snd]. rewrite !post_urls_requests, !count_fetches_requests.
  destruct images as [|img rest].
  - rewrite H. split; [reflexivity|].
    rewrite flat_map_app, length_app. cbn. split; [reflexivity|lia].
  - cbv zeta in H.
    destruct (startsWith (js "data:image/") img).
    + destruct (atob (inline_data img)) as [bytes|]; rewrite H.
      * rewrite flat_map_app, length_app. cbn.
        split; [now right|]. split; [lia|reflexivity].
      * split; [now left|]. split; [lia|reflexivity].
    + destruct H as (pre & Hpre & H).
      assert (Hcases :
                requests tr' = requests tr ++ [image_get img]
                \/ exists bytes r,
                     requests tr'
                     = requests tr
                         ++ [image_get img;
                             gitee_edit_request cfg apiKey reqBody prompt bytes
                               (mime_of r)]).
      { destruct (image_host pre (image_get img)) as [r|e]; [|now left].
        destruct (img_ok r); [|now left].
        destruct (atob (btoa (img_bytes r))) as [bytes|]; [|now left].
        right. now exists bytes, r. }
      split; [|split].
      * destruct Hcases as [->|(bytes & r & ->)];
          rewrite flat_map_app; cbn; rewrite ?app_nil_r; [now left|now right].
      * destruct Hcases as [->|(bytes & r & ->)];
          rewrite length_app; cbn; lia.
      * exists pre. split; [exact Hpre|exact H].
Qed.

End Gitee.

End HandlerFacts.

(* ================================================================== *)
(** * The dispatcher and the server callback *)
(* ================================================================== *)

Module ServerFacts.
Import Adapters Config PollSpec HandlerSpec Server.
Import PollFacts FailoverFacts HandlerFacts.

Lemma count_fetches_snoc_routing tr p k :
  count_fetches (tr ++ [ProviderRouting p k]) = count_fetches tr.
Proof. rewrite count_fetches_app. cbn. lia. Qed.

Section Dispatch.
Variable btoa : jsstring -> jsstring.
Variable atob : jsstring -> option jsstring.
Variable JSON_parse : jsstring -> option JSON.
Variable ToString_other : JSON -> jsstring.
Variable seed : N.
Variable VolcCfg : ProviderConfig.
Variable GiteeCfg : GiteeProviderConfig.
Variable ModelScopeCfg : ProviderConfig.
Variable HuggingFaceCfg : HuggingFaceProviderConfig.
Variable image_host : Oracle ImageResponse.
Variable volc_api : Oracle (Response (option (list ImageDatum))).
Variable gitee_api : Oracle (Response (option (list ImageDatum))).
Variable modelscope_submit : Oracle (Response (option jsstring)).
Variable modelscope_task : Oracle (Response CheckData).
Variable hf_queue : Oracle (Response (option jsstring)).
Variable hf_result : Oracle (Response unit).
Variable randomUUID : jsstring.
Variable created : N.

Local Abbreviation gen :=
  (generate btoa atob JSON_parse ToString_other seed VolcCfg GiteeCfg
            ModelScopeCfg HuggingFaceCfg image_host volc_api gitee_api
            modelscope_submit modelscope_task hf_queue hf_result).
Local Abbreviation handle :=
  (handleChatCompletions btoa atob JSON_parse ToString_other seed VolcCfg
     GiteeCfg ModelScopeCfg HuggingFaceCfg image_host volc_api gitee_api
     modelscope_submit modelscope_task hf_queue hf_result randomUUID created).
Local Abbreviation srv :=
  (serve btoa atob JSON_parse ToString_other seed VolcCfg
     GiteeCfg ModelScopeCfg HuggingFaceCfg image_host volc_api gitee_api
     modelscope_submit modelscope_task hf_queue hf_result randomUUID created).

(** Whatever the provider, a handler that returns gives a content that
    is not empty. *)
Lemma generate_ok_nonempty provider apiKey rb tr c tr' :
  gen provider apiKey rb tr = (Ok c, tr') -> provider = Unknown \/ c <> [].
Proof.
  unfold generate, bind at 1, debug, emit.
  set (ex := Extractor.extractPromptAndImages _).
  destruct provider; intros H.
  - right.
    pose proof (handleVolcEngine_run btoa VolcCfg image_host volc_api apiKey rb
                  (Extractor.prompt ex) (Extractor.images ex)
                  (tr ++ [Log Debug "Router"])) as E.
    cbv zeta in E. rewrite E in H. injection H as H _.
    unfold volc_outcome in H.
    destruct (volc_api _ _) as [r|e]; [|discriminate].
    destruct (ok r); [|discriminate].
    destruct (json r); [|discriminate].
    injection H as <-. apply or_str_nonempty, placeholder_nonempty.
  - right.
    destruct (handleGitee_run btoa atob GiteeCfg image_host gitee_api apiKey rb
                (Extractor.prompt ex) (Extractor.images ex)
                (tr ++ [Log Debug "Router"])) as (o & t & E & _ & Hne).
    rewrite E in H. injection H as -> _. now apply Hne.
  - right.
    destruct (handleModelScope_run ModelScopeCfg modelscope_submit
                modelscope_task apiKey rb (Extractor.prompt ex)
                (tr ++ [Log Debug "Router"]))
      as (o & t & polls & E & _ & _ & _ & Hne).
    rewrite E in H. injection H as -> _. now apply Hne.
  - right.
    destruct (handleHuggingFace_run JSON_parse ToString_other seed
                HuggingFaceCfg hf_queue hf_result apiKey rb
                (Extractor.prompt ex) (Extractor.images ex)
                (tr ++ [Log Debug "Router"])) as (o & t & E & _ & _ & Hx).
    rewrite E in H. injection H as -> _.
    destruct (Hx c eq_refl) as (v & _ & ->). discriminate.
  - now left.
Qed.

(** X11.  No provider handler ever hands back an empty content: when
    the handler chosen for a recognized provider returns, the markdown
    it returns has at least one character, so a completion is never
    blank. *)
Theorem generate_content_not_blank
        (provider : Provider) (apiKey : jsstring) (rb : ChatRequest) (tr : Trace) :
  match fst (gen provider apiKey rb tr) with
  | Ok c => provider = Unknown \/ c <> []
  | Throw _ => True
  end.
Proof.
  destruct (gen provider apiKey rb tr) as [[c|e] tr'] eqn:E; cbn [fst]; [|exact I].
  exact (@generate_ok_nonempty provider apiKey rb tr c tr' E).
Qed.


Lemma envelope_status rb c : resp_status (envelope randomUUID created rb c) = 200%N.
Proof. unfold envelope. destruct (isStream rb); reflexivity. Qed.

(** The dispatcher never throws; what it answers, by cases. *)
Lemma handle_outcome req tr :
  exists r tr',
    handle req tr = (Ok r, tr')
    /\ ((count_fetches tr' = count_fetches tr
         /\ (resp_status r = 200%N
             /\ (pathname req = js "/" \/ pathname req = js "/health")
             \/ resp_status r = 404%N /\ pathname req <> chat_path
             \/ resp_status r = 401%N /\ pathname req = chat_path))
        \/ (pathname req = chat_path
            /\ exists authHeader p,
                 authorization req = Some authHeader
                 /\ fst (Router.detectProvider (credential authHeader) tr) = Ok p
                 /\ p <> Unknown
                 /\ ((exists e, r = {| resp_status := 500;
                                       resp_content_type := js "application/json";
                                       resp_body := BodyError e p |})
                     \/ (exists rb c, body req = Some rb /\ c <> []
                                      /\ r = envelope randomUUID created rb c)))).
Proof.
  unfold handleChatCompletions.
  destruct (jsstring_eqb (pathname req) (js "/")
            || jsstring_eqb (pathname req) (js "/health"))%bool eqn:Hh.
  { do 2 eexists. split; [reflexivity|]. left. split; [reflexivity|].
    left. split; [reflexivity|].
    apply orb_true_iff in Hh as [H|H]; apply jsstring_eqb_eq in H; auto. }
  destruct (jsstring_eqb_spec (pathname req) (js "/v1/chat/completions"))
    as [Hp|Hp]; cbn [negb].
  2:{ do 2 eexists. unfold bind, warn, emit, ret. split; [reflexivity|].
      left. rewrite count_fetches_snoc_log. split; [reflexivity|].
      right. left. split; [reflexivity|exact Hp]. }
  destruct (authorization req) as [authHeader|] eqn:Ha.
  2:{ do 2 eexists. cbn [truthy_opt negb]. unfold bind, warn, emit, ret.
      split; [reflexivity|]. left. rewrite count_fetches_snoc_log.
      split; [reflexivity|]. right. right. split; [reflexivity|exact Hp]. }
  fold (credential authHeader). cbn [truthy_opt interp].
  destruct (truthy_str (credential authHeader)) eqn:Hk; cbn [negb].
  2:{ do 2 eexists. unfold bind, warn, emit, ret.
      split; [reflexivity|]. left. rewrite count_fetches_snoc_log.
      split; [reflexivity|]. right. right. split; [reflexivity|exact Hp]. }
  unfold bind at 1.
  pose proof (RouterFacts.detectProvider_run (credential authHeader) tr) as Hrun.
  rewrite Hk in Hrun. cbn [negb] in Hrun. cbv zeta in Hrun.
  destruct (Router.detectProvider (credential authHeader) tr)
    as [[p|e] tr1] eqn:Hd; [|discriminate].
  assert (Htr1 : count_fetches tr1 = count_fetches tr).
  { injection Hrun as _ ->. apply count_fetches_snoc_routing. }
  destruct (Provider_eq_dec p Unknown) as [Hu|Hu].
  { do 2 eexists. unfold bind, warn, emit, ret.
    split; [reflexivity|]. left. rewrite count_fetches_snoc_log.
    split; [exact Htr1|]. right. right. split; [reflexivity|exact Hp]. }
  unfold bind at 1, info at 1, emit at 1. unfold try_catch.
  unfold bind at 1.
  destruct (body req) as [rb|] eqn:Hb.
  2:{ do 2 eexists. unfold throw, bind, error, emit, ret.
      split; [reflexivity|]. right. split; [exact Hp|].
      exists authHeader, p. split; [reflexivity|]. split; [try rewrite Hd; reflexivity|].
      split; [exact Hu|]. left. eexists. reflexivity. }
  unfold ret at 1. unfold bind at 1.
  destruct (gen p (credential authHeader) rb (tr1 ++ [Log Info "HTTP"]))
    as [[c|e] tr2] eqn:Hg.
  - do 2 eexists. unfold bind, info, emit, ret. split; [reflexivity|].
    right. split; [exact Hp|]. exists authHeader, p.
    split; [reflexivity|]. split; [try rewrite Hd; reflexivity|]. split; [exact Hu|].
    right. exists rb, c. split; [reflexivity|]. split; [|reflexivity].
    destruct (generate_ok_nonempty _ _ _ _ Hg) as [?|?]; [contradiction|assumption].
  - do 2 eexists. unfold bind, error, emit, ret. split; [reflexivity|].
    right. split; [exact Hp|]. exists authHeader, p.
    split; [reflexivity|]. split; [try rewrite Hd; reflexivity|]. split; [exact Hu|].
    left. eexists. reflexivity.
Qed.

(** X12.  The server callback never throws and answers with one of the
    statuses 200, 401, 404, 405 and 500.  Every method other than
    OPTIONS and POST is refused with 405 before the path is looked at,
    so the health paths answer POST only.  No outbound call is made
    unless the request is a POST to the chat path whose Authorization
    header gives a credential of a recognized shape; and a 200 answer
    is the preflight answer, the health answer, or a completion whose
    content is not empty. *)
Theorem serve_guards (req : ServeRequest) (tr : Trace) :
  exists r,
    fst (srv req tr) = Ok r
    /\ In (serve_status r) [200; 401; 404; 405; 500]%N
    /\ (method req <> js "OPTIONS" -> method req <> js "POST" ->
        r = MethodNotAllowed)
    /\ (count_fetches (snd (srv req tr)) = count_fetches tr
        \/ (method req = js "POST"
            /\ pathname (request req) = chat_path
            /\ exists authHeader p,
                 authorization (request req) = Some authHeader
                 /\ fst (Router.detectProvider (credential authHeader) tr) = Ok p
                 /\ p <> Unknown))
    /\ (serve_status r = 200%N ->
        r = Preflight
        \/ (pathname (request req) = js "/"
            \/ pathname (request req) = js "/health")
        \/ exists rb c,
             body (request req) = Some rb /\ c <> []
             /\ r = Handled (envelope randomUUID created rb c)).
Proof.
  unfold serve.
  destruct (jsstring_eqb_spec (method req) (js "OPTIONS")) as [Ho|Ho].
  { exists Preflight. unfold ret. cbn [fst snd serve_status].
    split; [reflexivity|]. split; [cbn; auto|].
    split; [intros H; contradiction|]. split; [now left|]. intros _. now left. }
  destruct (jsstring_eqb_spec (method req) (js "POST")) as [Hm|Hm]; cbn [negb].
  2:{ exists MethodNotAllowed. unfold bind, warn, emit, ret.
      cbn [fst snd serve_status].
      split; [reflexivity|]. split; [cbn; auto 6|].
      split; [reflexivity|]. rewrite count_fetches_snoc_log.
      split; [now left|]. discriminate. }
  destruct (handle_outcome (request req) tr) as (r & tr' & E & H).
  unfold bind. rewrite E. unfold ret. exists (Handled r).
  cbn [fst snd serve_status].
  split; [reflexivity|].
  destruct H as [[Hc H]|(Hp & h & p & Ha & Hd & Hu & H)].
  - split.
    { destruct H as [[-> _]|[[-> _]|[-> _]]]; cbn; auto 6. }
    split; [intros _ H'; contradiction|]. split; [now left|].
    intros Hs. right. left.
    destruct H as [[_ H]|[[H' _]|[H' _]]]; [exact H| |];
      rewrite H' in Hs; discriminate.
  - split.
    { destruct H as [[e ->]|(rb & c & _ & _ & ->)].
      - cbn. auto 6.
      - rewrite envelope_status. cbn. auto. }
    split; [intros _ H'; contradiction|].
    split; [right; split; [exact Hm|split; [exact Hp|]]; now exists h, p|].
    intros Hs. right. right.
    destruct H as [[e ->]|(rb & c & Hb & Hc & ->)]; [discriminate|].
    now exists rb, c.
Qed.

End Dispatch.

End ServerFacts.

(* ================================================================== *)
(** * The SSE parser and the image download, line by line *)
(* ================================================================== *)

Module TextFacts.
Import Adapters SseSpec StreamText.

(** ** [split] and [join] *)

Lemma split_nonempty c s : split c s <> [].
Proof.
  destruct s as [|d s]; cbn [split]; [discriminate|].
  destruct (N.eqb d c); [discriminate|]. destruct (split c s); discriminate.
Qed.

Lemma split_no_sep c s : ~ In c s -> split c s = [s].
Proof.
  induction s as [|d s IH]; intros H; [reflexivity|].
  cbn [split]. destruct (N.eqb_spec d c) as [->|Hd].
  - exfalso. apply H. now left.
  - rewrite IH; [reflexivity|]. intros Hin. apply H. now right.
Qed.

Lemma split_app_sep c l s :
  ~ In c l -> split c (l ++ c :: s) = l :: split c s.
Proof.
  induction l as [|d l IH]; intros H; cbn [app split].
  - now rewrite N.eqb_refl.
  - destruct (N.eqb_spec d c) as [->|Hd].
    + exfalso. apply H. now left.
    + rewrite IH; [reflexivity|]. intros Hin. apply H. now right.
Qed.

(** Splitting at line feeds undoes joining with line feeds. *)
Lemma split_join lines :
  lines <> [] -> Forall one_line lines ->
  split 10 (join line_feed lines) = lines.
Proof.
  induction lines as [|l rest IH]; intros Hne Hall; [contradiction|].
  inversion Hall as [|? ? Hl Hrest]; subst.
  destruct rest as [|l' rest'].
  - cbn [join]. now apply split_no_sep.
  - change (join line_feed (l :: l' :: rest'))
      with (l ++ 10%N :: join line_feed (l' :: rest')).
    rewrite split_app_sep by exact Hl.
    f_equal. apply IH; [discriminate|exact Hrest].
Qed.

Lemma split_hd c s :
  ~ In c (hd [] (split c s)) /\ exists post, s = hd [] (split c s) ++ post.
Proof.
  induction s as [|d s [IH1 [post IH2]]]; cbn [split].
  - split; [intros []|]. now exists [].
  - destruct (N.eqb_spec d c) as [->|Hd]; cbn [hd].
    + split; [intros []|]. now exists (c :: s).
    + pose proof (split_nonempty c s) as Hne.
      destruct (split c s) as [|p ps]; [contradiction|]. cbn [hd] in *.
      split.
      * intros [H|H]; [now apply Hd|now apply IH1].
      * exists post. cbn [app]. now rewrite <- IH2.
Qed.

(** ** [trim] *)

Lemma trimStart_suffix s : exists pre, s = pre ++ trimStart s.
Proof.
  induction s as [|c s [pre IH]]; cbn [trimStart]; [now exists []|].
  destruct (is_trim_space c).
  - exists (c :: pre). cbn [app]. now rewrite <- IH.
  - now exists [].
Qed.

Lemma trimEnd_prefix s : exists post, s = trimEnd s ++ post.
Proof.
  unfold trimEnd. destruct (trimStart_suffix (rev s)) as [pre H].
  exists (rev pre). rewrite <- rev_app_distr, <- H. now rewrite rev_involutive.
Qed.

Lemma trim_piece s : piece_of (trim s) s.
Proof.
  unfold trim. destruct (trimStart_suffix s) as [pre H1].
  destruct (trimEnd_prefix (trimStart s)) as [post H2].
  exists pre, post. now rewrite <- H2.
Qed.

Lemma piece_In c m s : piece_of m s -> In c m -> In c s.
Proof.
  intros (pre & post & ->) H. apply in_or_app. right.
  apply in_or_app. now left.
Qed.

Lemma trimStart_length s : length (trimStart s) <= length s.
Proof.
  induction s as [|c s IH]; cbn [trimStart]; [auto|].
  destruct (is_trim_space c); cbn [length]; lia.
Qed.

Lemma trimStart_fixed s :
  trimStart s = s ->
  s = [] \/ exists c t, s = c :: t /\ is_trim_space c = false.
Proof.
  destruct s as [|c t]; [now left|]. intros H. right. exists c, t.
  split; [reflexivity|]. cbn [trimStart] in H.
  destruct (is_trim_space c); [|reflexivity].
  pose proof (trimStart_length t) as Hl. rewrite H in Hl. cbn [length] in Hl. lia.
Qed.

Lemma trimStart_idem s : trimStart (trimStart s) = trimStart s.
Proof.
  induction s as [|c s IH]; [reflexivity|]. cbn [trimStart].
  destruct (is_trim_space c) eqn:E; [exact IH|].
  cbn [trimStart]. now rewrite E.
Qed.

Lemma trimStart_snoc x c :
  is_trim_space c = false -> exists y, trimStart (x ++ [c]) = y ++ [c].
Proof.
  intros Hc. induction x as [|a x [y IH]]; cbn [app trimStart].
  - rewrite Hc. now exists [].
  - destruct (is_trim_space a); [now exists y|]. now exists (a :: x).
Qed.

Lemma trimEnd_idem s : trimEnd (trimEnd s) = trimEnd s.
Proof.
  unfold trimEnd. now rewrite rev_involutive, trimStart_idem.
Qed.

Lemma trimStart_trimEnd t :
  trimStart t = t -> trimStart (trimEnd t) = trimEnd t.
Proof.
  intros H. destruct (@trimStart_fixed t H) as [->|(c & t' & -> & Hc)];
    [reflexivity|].
  unfold trimEnd. cbn [rev].
  destruct (@trimStart_snoc (rev t') c Hc) as [y Hy]. rewrite Hy.
  rewrite rev_app_distr. cbn [rev app trimStart]. now rewrite Hc.
Qed.

(** Trimming twice is trimming once. *)
Lemma trim_idem s : trim (trim s) = trim s.
Proof.
  unfold trim.
  rewrite (@trimStart_trimEnd (trimStart s) (trimStart_idem s)).
  apply trimEnd_idem.
Qed.

(** ** The SSE loop skips what it does not recognise *)

Section Parser.
Variable JSON_parse : jsstring -> option JSON.

Lemma sse_loop_filter lines : forall b tr,
  sse_loop JSON_parse lines b tr
  = sse_loop JSON_parse (filter carries_meaning lines) b tr.
Proof.
  induction lines as [|line rest IH]; intros b tr; [reflexivity|].
  cbn [filter]. unfold carries_meaning at 1.
  destruct (startsWith (js "event:") line) eqn:Hev; cbn [orb].
  - cbn [sse_loop]. rewrite Hev.
    destruct (jsstring_eqb _ (js "complete")); [apply IH|].
    destruct (jsstring_eqb _ (js "error")); [reflexivity|apply IH].
  - destruct (startsWith (js "data:") line) eqn:Hd.
    + cbn [sse_loop]. rewrite Hev, Hd. cbn [andb].
      destruct b; [|apply IH].
      destruct (JSON_parse _) as [data|].
      * destruct (first_url data); [reflexivity|apply IH].
      * unfold bind, error, emit. apply IH.
    + cbn [sse_loop]. rewrite Hev, Hd. cbn [andb]. apply IH.
Qed.

Lemma extract_of_lines lines tr :
  Forall one_line lines ->
  extractImageUrlFromSSE JSON_parse (join line_feed lines) tr
  = sse_loop JSON_parse lines false tr.
Proof.
  intros H. unfold extractImageUrlFromSSE.
  destruct lines as [|l rest]; [reflexivity|].
  rewrite split_join; [reflexivity|discriminate|exact H].
Qed.

End Parser.

(** X13.  Lines of an SSE text that begin with neither [event:] nor
    [data:] (comments, ids, blank lines) have no influence: taking them
    out of the text changes neither what [extractImageUrlFromSSE]
    returns or throws nor what it logs. *)
Theorem extractImageUrlFromSSE_skips_other_lines
        (JSON_parse : jsstring -> option JSON)
        (lines : list jsstring) (tr : Trace) :
  Forall one_line lines ->
  extractImageUrlFromSSE JSON_parse (join line_feed lines) tr
  = extractImageUrlFromSSE JSON_parse
      (join line_feed (filter carries_meaning lines)) tr.
Proof.
  intros H.
  rewrite (@extract_of_lines JSON_parse lines tr H).
  rewrite (@extract_of_lines JSON_parse (filter carries_meaning lines) tr).
  - apply sse_loop_filter.
  - apply Forall_forall. intros l Hl. apply filter_In in Hl as [Hl _].
    revert l Hl. now apply Forall_forall.
Qed.

Lemma extractImageUrlFromSSE_skips_other_lines_witness :
  Forall one_line chatty_lines
  /\ extractImageUrlFromSSE sample_parse (join line_feed chatty_lines) []
     = extractImageUrlFromSSE sample_parse
         (join line_feed [js "event: complete"; js "data: " ++ sample_payload]) [].
Proof.
  assert (H : Forall one_line chatty_lines).
  { repeat constructor; unfold one_line; cbn;
      intros H; repeat (destruct H as [H|H]; [discriminate H|]); exact H. }
  split; [exact H|].
  exact (@extractImageUrlFromSSE_skips_other_lines sample_parse chatty_lines [] H).
Defined.

(** ** The image download *)

Section Download.
Variable btoa : jsstring -> jsstring.
Variable image_host : Oracle ImageResponse.

(** X14.  [urlToBase64] makes exactly one GET call, to the given URL.
    A failure of the call is passed on; an answer that is not ok throws
    the download error with its status; and an ok answer gives the
    base64 text of the body with a MIME type that is a piece of the
    content-type header (of [image/png] when the header is missing or
    empty), holds no semicolon and has no white space at either end. *)
Theorem urlToBase64_one_call_clean_mime (url : jsstring) (tr : Trace) :
  snd (urlToBase64 btoa image_host url tr) = tr ++ [Fetch (image_get url)]
  /\ match image_host tr (image_get url) with
     | Throw e => fst (urlToBase64 btoa image_host url tr) = Throw e
     | Ok r =>
         if img_ok r then
           exists mimeType,
             fst (urlToBase64 btoa image_host url tr)
             = Ok (btoa (img_bytes r), mimeType)
             /\ ~ In 59%N mimeType
             /\ trim mimeType = mimeType
             /\ piece_of mimeType (header_or_png r)
         else fst (urlToBase64 btoa image_host url tr)
              = Throw (DownloadError (img_status r))
     end.
Proof.
  unfold urlToBase64, bind, call.
  change (download_request url) with (image_get url).
  destruct (image_host tr (image_get url)) as [r|e]; [|now split].
  unfold urlToBase64_response.
  destruct (img_ok r); cbn [negb]; [|now split].
  split; [reflexivity|].
  fold (header_or_png r).
  destruct (split_hd 59 (header_or_png r)) as [Hno [post Hpost]].
  eexists. split; [reflexivity|]. split; [|split].
  - intros Hin. apply Hno. exact (@piece_In _ _ _ (trim_piece _) Hin).
  - apply trim_idem.
  - destruct (trim_piece (hd [] (split 59 (header_or_png r)))) as (pre & post' & Hp).
    exists pre, (post' ++ post). rewrite Hpost at 1. rewrite Hp at 1.
    now rewrite <- !app_assoc.
Qed.

End Download.



End TextFacts.
